(** * Ichiglyph / Brainfuck language tools: a shallow embedding

    The repository holds two interpreters (interpreter/brainfuck/brainfuck.c
    and interpreter/ichiglyph/ichiglyph.c) and two transpilers
    (transpiler/bf2ig/bf2ig.c and transpiler/ig2bf/ig2bf.c).  The
    interpreters share their data memory and their run loop verbatim; they
    differ in the width of an opcode (one byte against two bytes) and in
    [opcode_decode].

    Conventions of the embedding:
    - [size_t] values ([ip], [dp], [balance], sizes) are [Z] in
      [0, 2^64), every C operation on them is followed by [wrap];
    - [uint8_t] cells are [Z] in [0, 256), arithmetic followed by [wrap8];
    - program bytes are [ascii], as the C sources switch on character
      literals;
    - the environment of a run (whether [realloc] succeeds, what lies in
      memory right after the mapped program) is explicit. *)

From Stdlib Require Import String Ascii ZArith List Lia Bool.
Import ListNotations.
Local Open Scope Z_scope.

(** ** Instructions and opcode decoding *)

Inductive instruction_t : Type :=
| INST_DP_INC
| INST_DP_DEC
| INST_VAL_INC
| INST_VAL_DEC
| INST_VAL_OUTPUT
| INST_VAL_ACCEPT
| INST_JMP_FORWARD
| INST_JMP_BACK
| INST_NOP.

Definition instruction_eqb (a b : instruction_t) : bool :=
  match a, b with
  | INST_DP_INC, INST_DP_INC
  | INST_DP_DEC, INST_DP_DEC
  | INST_VAL_INC, INST_VAL_INC
  | INST_VAL_DEC, INST_VAL_DEC
  | INST_VAL_OUTPUT, INST_VAL_OUTPUT
  | INST_VAL_ACCEPT, INST_VAL_ACCEPT
  | INST_JMP_FORWARD, INST_JMP_FORWARD
  | INST_JMP_BACK, INST_JMP_BACK
  | INST_NOP, INST_NOP => true
  | _, _ => false
  end.

(** The instructions that have an opcode. *)
Definition proper (i : instruction_t) : bool :=
  negb (instruction_eqb i INST_NOP).

(** The Ichiglyph opcode, [typedef uint8_t ichiglyph_opcode_t[2]]. *)
Definition ichiglyph_opcode_t : Type := (ascii * ascii)%type.

Module Brainfuck.

(** [opcode_decode] of brainfuck.c, [brainfuck_opcode_decode] of
    bf2ig.c. *)
Definition opcode_decode (opcode : ascii) : instruction_t :=
  match opcode with
  | ">"%char => INST_DP_INC
  | "<"%char => INST_DP_DEC
  | "+"%char => INST_VAL_INC
  | "-"%char => INST_VAL_DEC
  | "."%char => INST_VAL_OUTPUT
  | ","%char => INST_VAL_ACCEPT
  | "["%char => INST_JMP_FORWARD
  | "]"%char => INST_JMP_BACK
  | _ => INST_NOP
  end.

(** The Brainfuck instruction encode switch of ig2bf.c's [main]: the
    text handed to [fputs], nothing for [INST_NOP]. *)
Definition encode (instruction : instruction_t) : list ascii :=
  match instruction with
  | INST_DP_INC => [">"%char]
  | INST_DP_DEC => ["<"%char]
  | INST_VAL_INC => ["+"%char]
  | INST_VAL_DEC => ["-"%char]
  | INST_VAL_OUTPUT => ["."%char]
  | INST_VAL_ACCEPT => [","%char]
  | INST_JMP_FORWARD => ["["%char]
  | INST_JMP_BACK => ["]"%char]
  | INST_NOP => []
  end.

(** A source file of [st_size] bytes is a program of [st_size] one-byte
    units. *)
Definition load (file : list ascii) : list ascii := file.

End Brainfuck.

Module Ichiglyph.

(** [opcode_decode] of ichiglyph.c, [ichiglyph_opcode_decode] of
    ig2bf.c. *)
Definition opcode_decode (opcode : ichiglyph_opcode_t) : instruction_t :=
  match fst opcode with
  | "l"%char =>
      match snd opcode with
      | "l"%char => INST_DP_INC
      | "I"%char => INST_DP_DEC
      | "1"%char => INST_JMP_FORWARD
      | _ => INST_NOP
      end
  | "I"%char =>
      match snd opcode with
      | "l"%char => INST_VAL_INC
      | "I"%char => INST_VAL_DEC
      | "1"%char => INST_JMP_BACK
      | _ => INST_NOP
      end
  | "1"%char =>
      match snd opcode with
      | "l"%char => INST_VAL_OUTPUT
      | "I"%char => INST_VAL_ACCEPT
      | _ => INST_NOP
      end
  | _ => INST_NOP
  end.

(** The Ichiglyph instruction encode switch of bf2ig.c's [main]. *)
Definition encode (instruction : instruction_t) : list ascii :=
  match instruction with
  | INST_DP_INC => ["l"; "l"]%char
  | INST_DP_DEC => ["l"; "I"]%char
  | INST_VAL_INC => ["I"; "l"]%char
  | INST_VAL_DEC => ["I"; "I"]%char
  | INST_VAL_OUTPUT => ["1"; "l"]%char
  | INST_VAL_ACCEPT => ["1"; "I"]%char
  | INST_JMP_FORWARD => ["l"; "1"]%char
  | INST_JMP_BACK => ["I"; "1"]%char
  | INST_NOP => []
  end.

(** [program_size = st_size / sizeof(ichiglyph_opcode_t)]: the file is
    read in units of two bytes, a dangling last byte is not part of the
    program. *)
Fixpoint load (file : list ascii) : list ichiglyph_opcode_t :=
  match file with
  | a :: b :: rest => (a, b) :: load rest
  | _ => []
  end.

End Ichiglyph.

(** What a decoder makes of a piece of text: the instructions of its
    units, in order. *)
Definition bf_decode_text (text : list ascii) : list instruction_t :=
  map Brainfuck.opcode_decode (Brainfuck.load text).

Definition ig_decode_text (text : list ascii) : list instruction_t :=
  map Ichiglyph.opcode_decode (Ichiglyph.load text).

(** The transpilers' output for a whole instruction sequence. *)
Definition bf_encode_text (l : list instruction_t) : list ascii :=
  flat_map Brainfuck.encode l.

Definition ig_encode_text (l : list instruction_t) : list ascii :=
  flat_map Ichiglyph.encode l.

(** ** Machine integers *)

(** [size_t] is 64 bits wide; C arithmetic on it is modulo [2^64]. *)
Definition SIZE_WIDTH : Z := 64.
Definition SIZE_MAX : Z := 2 ^ SIZE_WIDTH - 1.
Definition wrap (x : Z) : Z := x mod 2 ^ SIZE_WIDTH.

(** [uint8_t] arithmetic is modulo 256. *)
Definition wrap8 (x : Z) : Z := x mod 256.

(** [#define DATA_GRANULARITY 32768] *)
Definition DATA_GRANULARITY : Z := 32768.

(** ** Results of C code

    A piece of C code either completes with a value or performs an access
    outside the objects it owns, which the C standard leaves undefined;
    the embedding stops there and records which access it was.
    [OutOfFuel] belongs to the embedding only: a loop modelled with a
    step budget has used it up. *)

Inductive fault_t : Type :=
| BadFetch    (* program[ip] outside the mapping, and unreadable *)
| BadLoad     (* data->data[dp] read outside the buffer *)
| BadStore    (* data->data[dp] written outside the buffer *)
| BadMemset.  (* memset over a wrapped length *)

Inductive result (A : Type) : Type :=
| Ok (a : A)
| Fault (f : fault_t)
| OutOfFuel.

Arguments Ok {A} a.
Arguments Fault {A} f.
Arguments OutOfFuel {A}.

Definition bind {A B : Type} (r : result A) (k : A -> result B) : result B :=
  match r with
  | Ok a => k a
  | Fault f => Fault f
  | OutOfFuel => OutOfFuel
  end.

Notation "x <- r ;; k" := (bind r (fun x => k))
  (at level 61, r at next level, right associativity).
Notation "' p <- r ;; k" := (bind r (fun x => let p := x in k))
  (at level 61, p pattern, r at next level, right associativity).

(** ** Data memory *)

(** [data_t]: the buffer and its recorded size.  The empty list stands for
    [NULL] as well as for a buffer of no bytes. *)
Record data_t : Type := mk_data {
  data : list Z;
  size : Z
}.

(** [data_init]: no memory is allocated. *)
Definition data_init : data_t := mk_data [] 0.

(** Writing one cell of a buffer. *)
Fixpoint poke (l : list Z) (n : nat) (v : Z) : list Z :=
  match l, n with
  | [], _ => []
  | _ :: t, O => v :: t
  | h :: t, S n' => h :: poke t n' v
  end.

(** [data->data[dp]] as an rvalue. *)
Definition cell_load (d : data_t) (dp : Z) : result Z :=
  if (0 <=? dp) && (dp <? Z.of_nat (length (data d)))
  then Ok (nth (Z.to_nat dp) (data d) 0)
  else Fault BadLoad.

(** [data->data[dp] = v]. *)
Definition cell_store (d : data_t) (dp v : Z) : result data_t :=
  if (0 <=? dp) && (dp <? Z.of_nat (length (data d)))
  then Ok (mk_data (poke (data d) (Z.to_nat dp) v) (size d))
  else Fault BadStore.

Section DataMemory.

(** Whether [realloc] to the given number of bytes succeeds. *)
Variable realloc_ok : Z -> bool.

(** [data_bound]: the pair of the returned [int] and the data memory as
    the call leaves it.  A failed [realloc] has overwritten
    [data->data] with [NULL] and left [data->size] alone. *)
Definition data_bound (d : data_t) (dp : Z) : result (Z * data_t) :=
  if dp >=? size d then
    let size' := wrap (dp + 1 + DATA_GRANULARITY) in
    if realloc_ok size' then
      if size d <=? size' then
        Ok (0, mk_data (data d ++ repeat 0 (Z.to_nat (size' - size d)))
                       size')
      else Fault BadMemset
    else Ok (-1, mk_data [] (size d))
  else Ok (0, d).

Definition data_inc (d : data_t) (dp : Z) : result (Z * data_t) :=
  '(ret, d1) <- data_bound d dp ;;
  if negb (ret =? 0) then Ok (ret, d1) else
  v <- cell_load d1 dp ;;
  d2 <- cell_store d1 dp (wrap8 (v + 1)) ;;
  Ok (0, d2).

Definition data_dec (d : data_t) (dp : Z) : result (Z * data_t) :=
  '(ret, d1) <- data_bound d dp ;;
  if negb (ret =? 0) then Ok (ret, d1) else
  v <- cell_load d1 dp ;;
  d2 <- cell_store d1 dp (wrap8 (v - 1)) ;;
  Ok (0, d2).

Definition data_get (d : data_t) (dp : Z) : result Z :=
  if dp >=? size d then Ok 0 else cell_load d dp.

Definition data_set (d : data_t) (dp val : Z) : result (Z * data_t) :=
  '(ret, d1) <- data_bound d dp ;;
  if negb (ret =? 0) then Ok (ret, d1) else
  d2 <- cell_store d1 dp val ;;
  Ok (0, d2).

End DataMemory.

(** ** The interpreter's run loop *)

(** What [main] prints on [stderr] while it runs. *)
Inductive message_t : Type :=
| Out_of_memory.

(** The locals of [main] that the run loop reads and writes ([mem] is the
    local [data]), with the unread rest of [stdin] and what has been
    written to [stdout] and [stderr]. *)
Record state : Type := mk_state {
  ip : Z;
  dp : Z;
  mem : data_t;
  stdin : list Z;
  stdout : list Z;
  stderr : list message_t
}.

Definition set_ip (s : state) (v : Z) : state :=
  mk_state v (dp s) (mem s) (stdin s) (stdout s) (stderr s).

Definition set_dp (s : state) (v : Z) : state :=
  mk_state (ip s) v (mem s) (stdin s) (stdout s) (stderr s).

Definition set_mem (s : state) (d : data_t) : state :=
  mk_state (ip s) (dp s) d (stdin s) (stdout s) (stderr s).

(** What the caller of the interpreter observes: the value [main] returns
    with the bytes written to the two streams, or a process killed by a
    fault; [Unfinished] when the step budget of the embedding ran out. *)
Inductive outcome : Type :=
| Returned (code : Z) (out : list Z) (err : list message_t)
| Crashed (f : fault_t) (out : list Z) (err : list message_t)
| Unfinished.

Section Engine.

(** The opcode type and its decoder: [uint8_t] with brainfuck.c's
    [opcode_decode], or [ichiglyph_opcode_t] with ichiglyph.c's. *)
Variable opcode_t : Type.
Variable opcode_decode : opcode_t -> instruction_t.

(** The environment: the allocator, and the unit that a read at an index
    outside the mapped program finds ([None]: the read faults). *)
Variable realloc_ok : Z -> bool.
Variable beyond : Z -> option opcode_t.

Variable program : list opcode_t.

Definition program_size : Z := Z.of_nat (length program).

(** [program[i]] ([memcpy(&opcode, program + i, sizeof(opcode))]). *)
Definition fetch (i : Z) : result opcode_t :=
  match
    (if (0 <=? i) && (i <? program_size)
     then nth_error program (Z.to_nat i)
     else beyond i)
  with
  | Some opcode => Ok opcode
  | None => Fault BadFetch
  end.

(** The [while (balance != 0)] loop of [case INST_JMP_FORWARD]; the
    result is [ip] when the loop is left. *)
Fixpoint jmp_forward_loop (fuel : nat) (ip balance : Z) : result Z :=
  if balance =? 0 then Ok ip else
  match fuel with
  | O => OutOfFuel
  | S fuel' =>
      if ip =? program_size then Ok ip
      else
        let ip := wrap (ip + 1) in
        opcode2 <- fetch ip ;;
        match opcode_decode opcode2 with
        | INST_JMP_FORWARD => jmp_forward_loop fuel' ip (wrap (balance + 1))
        | INST_JMP_BACK => jmp_forward_loop fuel' ip (wrap (balance - 1))
        | _ => jmp_forward_loop fuel' ip balance
        end
  end.

(** The [while (balance != 0)] loop of [case INST_JMP_BACK]. *)
Fixpoint jmp_back_loop (fuel : nat) (ip balance : Z) : result Z :=
  if balance =? 0 then Ok ip else
  match fuel with
  | O => OutOfFuel
  | S fuel' =>
      if ip =? 0 then Ok program_size
      else
        let ip := wrap (ip - 1) in
        opcode2 <- fetch ip ;;
        match opcode_decode opcode2 with
        | INST_JMP_FORWARD => jmp_back_loop fuel' ip (wrap (balance - 1))
        | INST_JMP_BACK => jmp_back_loop fuel' ip (wrap (balance + 1))
        | _ => jmp_back_loop fuel' ip balance
        end
  end.

(** A step budget that either scan cannot use up when it starts inside
    the program. *)
Definition scan_fuel : nat := S (length program).

(** [fprintf(stderr, "%s: Out of memory\n", source_name);
    ip = program_size;] *)
Definition out_of_memory (s : state) : state :=
  mk_state program_size (dp s) (mem s) (stdin s) (stdout s)
           (stderr s ++ [Out_of_memory]).

(** The [switch (instruction)] of the run loop. *)
Definition dispatch (instruction : instruction_t) (s : state)
  : result state :=
  match instruction with
  | INST_DP_INC => Ok (set_dp s (wrap (dp s + 1)))
  | INST_DP_DEC => Ok (set_dp s (wrap (dp s - 1)))
  | INST_VAL_INC =>
      '(ret, d) <- data_inc realloc_ok (mem s) (dp s) ;;
      Ok (if negb (ret =? 0) then out_of_memory (set_mem s d)
          else set_mem s d)
  | INST_VAL_DEC =>
      '(ret, d) <- data_dec realloc_ok (mem s) (dp s) ;;
      Ok (if negb (ret =? 0) then out_of_memory (set_mem s d)
          else set_mem s d)
  | INST_VAL_OUTPUT =>
      val <- data_get (mem s) (dp s) ;;
      Ok (mk_state (ip s) (dp s) (mem s) (stdin s) (stdout s ++ [val])
                   (stderr s))
  | INST_VAL_ACCEPT =>
      match stdin s with
      | [] => Ok (set_ip s program_size)
      | input_val :: rest =>
          let s := mk_state (ip s) (dp s) (mem s) rest (stdout s)
                            (stderr s) in
          '(ret, d) <- data_set realloc_ok (mem s) (dp s)
                                (wrap8 input_val) ;;
          Ok (if negb (ret =? 0) then out_of_memory (set_mem s d)
              else set_mem s d)
      end
  | INST_JMP_FORWARD =>
      val <- data_get (mem s) (dp s) ;;
      if val =? 0 then
        ip' <- jmp_forward_loop scan_fuel (ip s) 1 ;;
        Ok (set_ip s ip')
      else Ok s
  | INST_JMP_BACK =>
      val <- data_get (mem s) (dp s) ;;
      if negb (val =? 0) then
        ip' <- jmp_back_loop scan_fuel (ip s) 1 ;;
        Ok (set_ip s ip')
      else Ok s
  | INST_NOP => Ok s
  end.

(** The body of [while (ip < program_size)]: fetch, decode, execute,
    [ip++]. *)
Definition exec (s : state) : result state :=
  opcode <- fetch (ip s) ;;
  s' <- dispatch (opcode_decode opcode) s ;;
  Ok (set_ip s' (wrap (ip s' + 1))).

(** [while (ip < program_size) { ... }  return 0;] *)
Fixpoint run (fuel : nat) (s : state) : outcome :=
  if ip s <? program_size then
    match fuel with
    | O => Unfinished
    | S fuel' =>
        match exec s with
        | Ok s' => run fuel' s'
        | Fault f => Crashed f (stdout s) (stderr s)
        | OutOfFuel => Unfinished
        end
    end
  else Returned 0 (stdout s) (stderr s).

(** [ip = 0; dp = 0; data_init(&data);] *)
Definition start (input : list Z) : state :=
  mk_state 0 0 data_init input [] [].

Definition interpret (fuel : nat) (input : list Z) : outcome :=
  run fuel (start input).

End Engine.

Arguments program_size {opcode_t} program.
Arguments fetch {opcode_t} beyond program i.
Arguments jmp_forward_loop {opcode_t} opcode_decode beyond program
  fuel ip balance.
Arguments jmp_back_loop {opcode_t} opcode_decode beyond program
  fuel ip balance.
Arguments scan_fuel {opcode_t} program.
Arguments out_of_memory {opcode_t} program s.
Arguments dispatch {opcode_t} opcode_decode realloc_ok beyond program
  instruction s.
Arguments exec {opcode_t} opcode_decode realloc_ok beyond program s.
Arguments run {opcode_t} opcode_decode realloc_ok beyond program fuel s.
Arguments interpret {opcode_t} opcode_decode realloc_ok beyond program
  fuel input.

(** The two interpreters on the bytes of a source file that [main] has
    opened and mapped: [main] from [size_t ip = 0] to its [return 0]. *)
Definition brainfuck realloc_ok beyond (file : list ascii) :=
  interpret Brainfuck.opcode_decode realloc_ok beyond
            (Brainfuck.load file).

Definition ichiglyph realloc_ok beyond (file : list ascii) :=
  interpret Ichiglyph.opcode_decode realloc_ok beyond
            (Ichiglyph.load file).

(** A benign environment for examples: allocations up to a mebibyte
    succeed, and the bytes after the mapped file are zero, as they are up
    to the end of the last page when the file does not fill it. *)
Definition plenty (n : Z) : bool := n <=? 1048576.
Definition zero_page : Z -> option ascii := fun _ => Some zero.
Definition zero_page2 : Z -> option ichiglyph_opcode_t :=
  fun _ => Some (zero, zero).

(** An environment in which the page after the mapped file is not
    mapped. *)
Definition unmapped {A : Type} : Z -> option A := fun _ => None.

(** Source text for examples. *)
Definition text (source : string) : list ascii :=
  list_ascii_of_string source.

(** A state with [ip = i], [dp = 0], one allocated cell holding [v] and
    empty streams. *)
Definition one_cell (i v : Z) : state :=
  mk_state i 0 (mk_data [v] 1) [] [] [].

(** ** Bracket matching, as the specification words it

    A scan over a sequence of instructions with a balance counter: [up]
    adds one, [down] subtracts one, and the scan stops at the first
    position where the counter reaches zero.  The result is the number of
    instructions passed over before that position. *)
Fixpoint balance_scan (up down : instruction_t) (l : list instruction_t)
  (balance : nat) : option nat :=
  match l with
  | [] => None
  | i :: l' =>
      let balance' :=
        if instruction_eqb i up then S balance
        else if instruction_eqb i down then pred balance
        else balance in
      match balance' with
      | O => Some O
      | S _ => option_map S (balance_scan up down l' balance')
      end
  end.

Section Matching.

Variable opcode_t : Type.
Variable opcode_decode : opcode_t -> instruction_t.
Variable program : list opcode_t.

(** The program as the sequence of its instructions. *)
Definition decoded : list instruction_t := map opcode_decode program.

(** The matching close of the open at index [i]: forward from [i + 1],
    balance 1. *)
Definition match_forward (i : Z) : option Z :=
  option_map (fun k => i + 1 + Z.of_nat k)
    (balance_scan INST_JMP_FORWARD INST_JMP_BACK
       (skipn (Z.to_nat (i + 1)) decoded) 1).

(** The matching open of the close at index [i]: backward from [i - 1],
    balance 1. *)
Definition match_back (i : Z) : option Z :=
  option_map (fun k => i - 1 - Z.of_nat k)
    (balance_scan INST_JMP_BACK INST_JMP_FORWARD
       (rev (firstn (Z.to_nat i) decoded)) 1).

End Matching.

Arguments decoded {opcode_t} opcode_decode program.
Arguments match_forward {opcode_t} opcode_decode program i.
Arguments match_back {opcode_t} opcode_decode program i.

(** ** Invariant of the data memory: the recorded size is the size of the
    buffer. *)
Definition wf_data (d : data_t) : Prop :=
  size d = Z.of_nat (length (data d)).

(** The cell at [dp] can be made addressable: it is inside the buffer, or
    the grown size fits [size_t] and [realloc] grants it. *)
Definition addressable (realloc_ok : Z -> bool) (d : data_t) (dp : Z)
  : Prop :=
  dp < size d \/
  (dp + 1 + DATA_GRANULARITY <= SIZE_MAX /\
   realloc_ok (dp + 1 + DATA_GRANULARITY) = true).

(** Invariant of the run loop: [ip] and [dp] are [size_t] values, and
    the data memory is well formed as long as the loop goes on (after a
    failed [realloc] the loop is left). *)
Definition state_ok {opcode_t : Type} (program : list opcode_t) (s : state)
  : Prop :=
  0 <= ip s <= SIZE_MAX /\ 0 <= dp s <= SIZE_MAX /\
  (ip s < program_size program -> wf_data (mem s)).

(** ** The transpilers

    The run loops of bf2ig.c's and ig2bf.c's [main], on the bytes of a
    mapped source file: every unit is decoded and the opcode of the
    instruction in the other language is written to [stdout]. *)
Definition bf2ig (file : list ascii) : list ascii :=
  flat_map
    (fun brainfuck_opcode =>
       Ichiglyph.encode (Brainfuck.opcode_decode brainfuck_opcode))
    (Brainfuck.load file).

Definition ig2bf (file : list ascii) : list ascii :=
  flat_map
    (fun ichiglyph_opcode =>
       Brainfuck.encode (Ichiglyph.opcode_decode ichiglyph_opcode))
    (Ichiglyph.load file).

(** The units that are instructions, the rest being comment. *)
Definition bf_instruction (opcode : ascii) : bool :=
  proper (Brainfuck.opcode_decode opcode).

Definition ig_instruction (opcode : ichiglyph_opcode_t) : bool :=
  proper (Ichiglyph.opcode_decode opcode).

(** The two bytes of an Ichiglyph unit. *)
Definition unit_bytes (opcode : ichiglyph_opcode_t) : list ascii :=
  [fst opcode; snd opcode].

(** The three glyphs of Ichiglyph. *)
Definition glyph (c : ascii) : bool :=
  Ascii.eqb c "l" || Ascii.eqb c "I" || Ascii.eqb c "1".

(** ** Balance of a stretch of instructions

    What a stretch adds to the balance counter of a scan in which [up]
    counts one up and [down] one down. *)
Definition weight (up down x : instruction_t) : Z :=
  if instruction_eqb x up then 1
  else if instruction_eqb x down then -1
  else 0.

Fixpoint net (up down : instruction_t) (w : list instruction_t) : Z :=
  match w with
  | [] => 0
  | x :: w' => weight up down x + net up down w'
  end.

(** An allocator that refuses every request. *)
Definition no_memory : Z -> bool := fun _ => false.

(** Every open of the program has a matching close. *)
Definition all_closed {opcode_t : Type}
  (opcode_decode : opcode_t -> instruction_t) (program : list opcode_t)
  : bool :=
  forallb
    (fun n =>
       match nth_error (decoded opcode_decode program) n with
       | Some INST_JMP_FORWARD =>
           match match_forward opcode_decode program (Z.of_nat n) with
           | Some _ => true
           | None => false
           end
       | _ => true
       end)
    (seq 0 (length program)).

(** ** A program and the same program without its comment

    [kept_before code i]: the number of instructions other than
    [INST_NOP] among the first [i] of [code], which is where the
    instruction at index [i] ends up once the [INST_NOP] are dropped. *)
Definition kept_before (code : list instruction_t) (i : Z) : Z :=
  Z.of_nat (length (filter proper (firstn (Z.to_nat i) code))).

(** Two states of [main] that differ in [ip] at most. *)
Definition same_but_ip (s s' : state) : Prop :=
  dp s = dp s' /\ mem s = mem s' /\ stdin s = stdin s' /\
  stdout s = stdout s' /\ stderr s = stderr s'.

(** A state [s] of the run of a program whose instructions are [code],
    and the state [s'] of the run of the program without the [INST_NOP]:
    the same but for [ip], which is at the same instruction, or past the
    end in both. *)
Definition stripped_state (code : list instruction_t) (s s' : state)
  : Prop :=
  same_but_ip s s' /\ 0 <= ip s /\
  ((ip s <= Z.of_nat (length code) /\ ip s' = kept_before code (ip s)) \/
   (Z.of_nat (length code) < ip s /\
    Z.of_nat (length (filter proper code)) < ip s')).

(** * Properties *)

(** ** Automation shared by the proofs *)

(** Decide the integer comparisons that guard the C code. *)
Ltac zcases :=
  repeat match goal with
    | |- context [?a >=? ?b] => rewrite (Z.geb_leb a b)
    | |- context [?a <=? ?b] => destruct (Z.leb_spec a b)
    | |- context [?a <? ?b] => destruct (Z.ltb_spec a b)
    | |- context [?a =? ?b] => destruct (Z.eqb_spec a b)
    end;
  cbn [andb orb negb]; try lia; try reflexivity.

Lemma wrap_small (x : Z) : 0 <= x <= SIZE_MAX -> wrap x = x.
Proof.
  unfold wrap, SIZE_MAX. intros H. apply Z.mod_small. lia.
Qed.

Lemma wrap_range (x : Z) : 0 <= wrap x <= SIZE_MAX.
Proof.
  unfold wrap, SIZE_MAX, SIZE_WIDTH.
  pose proof (Z.mod_pos_bound x (2 ^ 64) ltac:(lia)). lia.
Qed.

Lemma SIZE_MAX_value : SIZE_MAX = 18446744073709551615.
Proof. reflexivity. Qed.

Lemma instruction_eqb_eq (a b : instruction_t) :
  instruction_eqb a b = true <-> a = b.
Proof. destruct a, b; simpl; split; congruence. Qed.

(** ** The two encodings *)

Lemma bf_decode_encode_text (l : list instruction_t) :
  bf_decode_text (bf_encode_text l) = filter proper l.
Proof.
  unfold bf_decode_text, bf_encode_text, Brainfuck.load.
  induction l as [|i l IH]; [reflexivity|].
  cbn [flat_map filter]. rewrite map_app, IH.
  destruct i; reflexivity.
Qed.

Lemma ig_load_encode_text (l : list instruction_t) :
  map Ichiglyph.opcode_decode (Ichiglyph.load (ig_encode_text l))
  = filter proper l.
Proof.
  unfold ig_encode_text.
  induction l as [|i l IH]; [reflexivity|].
  cbn [flat_map filter].
  destruct i; cbn [Ichiglyph.encode app Ichiglyph.load map proper];
    rewrite ?IH; reflexivity.
Qed.

Lemma ig_decode_encode_text (l : list instruction_t) :
  ig_decode_text (ig_encode_text l) = filter proper l.
Proof. apply ig_load_encode_text. Qed.

(** C8, as amended: for each of the eight instructions that have an opcode
    and for each of the two encodings, decoding what the transpiler emits
    for the instruction gives back exactly that instruction. *)
Theorem decode_encode_proper (i : instruction_t) (Hi : i <> INST_NOP) :
  bf_decode_text (Brainfuck.encode i) = [i] /\
  ig_decode_text (Ichiglyph.encode i) = [i].
Proof.
  destruct i; try (split; reflexivity). now elim Hi.
Qed.

Lemma decode_encode_proper_witness :
  INST_JMP_BACK <> INST_NOP /\
  bf_decode_text (Brainfuck.encode INST_JMP_BACK) = [INST_JMP_BACK] /\
  ig_decode_text (Ichiglyph.encode INST_JMP_BACK) = [INST_JMP_BACK].
Proof.
  split; [discriminate|].
  apply (decode_encode_proper INST_JMP_BACK). discriminate.
Defined.

(** C8, as stated, fails at the ninth kind: both transpilers emit nothing
    for [INST_NOP], so there is no unit to decode and the instruction does
    not come back. *)
Lemma decode_encode_nop_lost :
  Brainfuck.encode INST_NOP = [] /\
  Ichiglyph.encode INST_NOP = [] /\
  bf_decode_text (Brainfuck.encode INST_NOP) <> [INST_NOP] /\
  ig_decode_text (Ichiglyph.encode INST_NOP) <> [INST_NOP].
Proof. repeat split; discriminate. Qed.

(** ** Data memory *)

Lemma poke_length (l : list Z) (n : nat) (v : Z) :
  length (poke l n v) = length l.
Proof.
  revert n; induction l as [|h t IH]; intros [|n]; simpl; auto.
Qed.

Lemma nth_poke_same (l : list Z) (n : nat) (v : Z) :
  (n < length l)%nat -> nth n (poke l n v) 0 = v.
Proof.
  revert n; induction l as [|h t IH]; intros [|n] Hn; simpl in *;
    try lia; auto. apply IH. lia.
Qed.

Lemma nth_poke_other (l : list Z) (n m : nat) (v : Z) :
  n <> m -> nth m (poke l n v) 0 = nth m l 0.
Proof.
  revert n m; induction l as [|h t IH]; intros [|n] [|m] Hn; simpl;
    try congruence; auto.
Qed.

Lemma wf_data_init : wf_data data_init.
Proof. reflexivity. Qed.

Section DataMemoryFacts.

Variable realloc_ok : Z -> bool.

(** A cell inside the buffer: [data_bound] leaves the memory alone. *)
Lemma data_bound_inside (d : data_t) (dp : Z) :
  dp < size d -> data_bound realloc_ok d dp = Ok (0, d).
Proof. intros H. unfold data_bound. zcases. Qed.

(** A cell at or beyond the buffer, when [dp + 1 + DATA_GRANULARITY]
    fits [size_t] and [realloc] succeeds: the buffer is extended with
    zeros to exactly that size. *)
Lemma data_bound_grows (d : data_t) (dp : Z) :
  wf_data d -> size d <= dp ->
  dp + 1 + DATA_GRANULARITY <= SIZE_MAX ->
  realloc_ok (dp + 1 + DATA_GRANULARITY) = true ->
  data_bound realloc_ok d dp =
    Ok (0, mk_data
             (data d ++
              repeat 0 (Z.to_nat (dp + 1 + DATA_GRANULARITY - size d)))
             (dp + 1 + DATA_GRANULARITY)).
Proof.
  intros Hwf Hge Hfit Hok. unfold data_bound.
  assert (0 <= size d) by (rewrite Hwf; lia).
  rewrite wrap_small by (unfold DATA_GRANULARITY in *; lia).
  rewrite Hok. zcases. unfold DATA_GRANULARITY in *; lia.
Qed.

(** [data_bound] returns 0 or -1, and -1 only when [realloc] refused. *)
Lemma data_bound_ret (d d' : data_t) (dp ret : Z) :
  data_bound realloc_ok d dp = Ok (ret, d') ->
  ret = 0 \/
  (ret = -1 /\ size d <= dp /\
   realloc_ok (wrap (dp + 1 + DATA_GRANULARITY)) = false).
Proof.
  unfold data_bound. rewrite Z.geb_leb.
  destruct (Z.leb_spec (size d) dp).
  - destruct (realloc_ok _) eqn:E.
    + destruct (_ <=? _); [|discriminate].
      intros [= <- <-]. now left.
    + intros [= <- <-]. right. auto.
  - intros [= <- <-]. now left.
Qed.

Lemma data_bound_wf (d d' : data_t) (dp : Z) :
  wf_data d -> data_bound realloc_ok d dp = Ok (0, d') ->
  wf_data d' /\ size d <= size d'.
Proof.
  unfold data_bound, wf_data. intros Hwf. rewrite Z.geb_leb.
  destruct (Z.leb_spec (size d) dp).
  - destruct (realloc_ok _); [|discriminate].
    destruct (Z.leb_spec (size d) (wrap (dp + 1 + DATA_GRANULARITY)));
      [|discriminate].
    intros [= <-]. simpl. rewrite length_app, repeat_length. lia.
  - intros [= <-]. lia.
Qed.

(** After a successful [data_bound], every cell reads as before, and the
    cells of the new region read 0. *)
Lemma data_bound_get (d d' : data_t) (dp i : Z) :
  wf_data d -> 0 <= i ->
  data_bound realloc_ok d dp = Ok (0, d') ->
  data_get d' i = data_get d i.
Proof.
  unfold data_bound, wf_data. intros Hwf Hi. rewrite Z.geb_leb.
  destruct (Z.leb_spec (size d) dp).
  - destruct (realloc_ok _); [|discriminate].
    destruct (Z.leb_spec (size d) (wrap (dp + 1 + DATA_GRANULARITY)));
      [|discriminate].
    intros [= <-]. unfold data_get, cell_load. simpl.
    rewrite length_app, repeat_length.
    rewrite !Z.geb_leb.
    destruct (Z.leb_spec (wrap (dp + 1 + DATA_GRANULARITY)) i);
      destruct (Z.leb_spec (size d) i); try lia; try reflexivity.
    + replace (0 <=? i) with true by (symmetry; apply Z.leb_le; lia).
      replace (i <? _) with true by (symmetry; apply Z.ltb_lt; lia).
      simpl. rewrite app_nth2 by lia.
      f_equal. apply nth_repeat.
    + replace (0 <=? i) with true by (symmetry; apply Z.leb_le; lia).
      replace (i <? _) with true by (symmetry; apply Z.ltb_lt; lia).
      replace (i <? _) with true by (symmetry; apply Z.ltb_lt; lia).
      simpl. rewrite app_nth1 by lia. reflexivity.
  - intros [= <-]. reflexivity.
Qed.

End DataMemoryFacts.

(** *** Reading and writing a cell inside the buffer *)

Lemma cell_load_inside (d : data_t) (dp : Z) :
  0 <= dp < Z.of_nat (length (data d)) ->
  cell_load d dp = Ok (nth (Z.to_nat dp) (data d) 0).
Proof. intros H. unfold cell_load. zcases. Qed.

Lemma cell_store_inside (d : data_t) (dp v : Z) :
  0 <= dp < Z.of_nat (length (data d)) ->
  cell_store d dp v = Ok (mk_data (poke (data d) (Z.to_nat dp) v) (size d)).
Proof. intros H. unfold cell_store. zcases. Qed.

Lemma data_get_inside (d : data_t) (dp : Z) :
  wf_data d -> 0 <= dp < size d ->
  data_get d dp = Ok (nth (Z.to_nat dp) (data d) 0).
Proof.
  unfold wf_data. intros Hwf H. unfold data_get.
  rewrite Z.geb_leb. destruct (Z.leb_spec (size d) dp); [lia|].
  apply cell_load_inside. lia.
Qed.

Lemma data_get_beyond (d : data_t) (dp : Z) :
  size d <= dp -> data_get d dp = Ok 0.
Proof. intros H. unfold data_get. zcases. Qed.

Lemma data_get_poke_same (d : data_t) (dp v : Z) :
  wf_data d -> 0 <= dp < size d ->
  data_get (mk_data (poke (data d) (Z.to_nat dp) v) (size d)) dp = Ok v.
Proof.
  intros Hwf H. unfold wf_data in Hwf.
  rewrite data_get_inside; simpl.
  - rewrite nth_poke_same by lia. reflexivity.
  - unfold wf_data; simpl. rewrite poke_length. exact Hwf.
  - exact H.
Qed.

Lemma data_get_poke_other (d : data_t) (dp i v : Z) :
  0 <= dp -> 0 <= i -> i <> dp ->
  data_get (mk_data (poke (data d) (Z.to_nat dp) v) (size d)) i
  = data_get d i.
Proof.
  intros Hdp Hi Hne. unfold data_get, cell_load; simpl.
  rewrite poke_length, nth_poke_other by lia. reflexivity.
Qed.

Section CellArithmetic.

Variable realloc_ok : Z -> bool.

Lemma data_bound_addressable (d : data_t) (dp : Z) :
  wf_data d -> 0 <= dp -> addressable realloc_ok d dp ->
  exists d1,
    data_bound realloc_ok d dp = Ok (0, d1) /\
    wf_data d1 /\ dp < size d1 /\
    (forall i, 0 <= i -> data_get d1 i = data_get d i) /\
    size d1 = (if dp <? size d then size d
               else dp + 1 + DATA_GRANULARITY).
Proof.
  intros Hwf Hdp Ha.
  destruct (Z.ltb_spec dp (size d)) as [Hin|Hout].
  - exists d. rewrite data_bound_inside by exact Hin. auto.
  - destruct Ha as [Hin|[Hfit Hok]]; [lia|].
    pose proof (data_bound_grows realloc_ok d dp Hwf Hout Hfit Hok) as E.
    eexists. split; [exact E|].
    destruct (data_bound_wf realloc_ok _ _ _ Hwf E) as [Hwf1 _].
    split; [exact Hwf1|]. split; [|split].
    + cbn [size]. unfold DATA_GRANULARITY. lia.
    + intros i Hi. eapply data_bound_get; eauto.
    + reflexivity.
Qed.

(** What a write of [f] applied to the old cell value does, for the three
    writers [data_inc], [data_dec] and [data_set]. *)
Lemma data_inc_spec (d : data_t) (dp : Z) :
  wf_data d -> 0 <= dp -> addressable realloc_ok d dp ->
  exists v d',
    data_get d dp = Ok v /\
    data_inc realloc_ok d dp = Ok (0, d') /\
    wf_data d' /\
    data_get d' dp = Ok (wrap8 (v + 1)) /\
    (forall i, 0 <= i -> i <> dp -> data_get d' i = data_get d i) /\
    size d' = (if dp <? size d then size d
               else dp + 1 + DATA_GRANULARITY).
Proof.
  intros Hwf Hdp Ha.
  destruct (data_bound_addressable d dp Hwf Hdp Ha)
    as (d1 & E & Hwf1 & Hin & Hsame & Hsize).
  pose proof Hwf1 as Hlen. unfold wf_data in Hlen.
  exists (nth (Z.to_nat dp) (data d1) 0). eexists.
  split; [rewrite <- Hsame by lia; apply data_get_inside; auto; lia|].
  split.
  - unfold data_inc. rewrite E. cbn [bind Z.eqb negb].
    rewrite cell_load_inside by lia. cbn [bind].
    rewrite cell_store_inside by lia. reflexivity.
  - split; [unfold wf_data; simpl; rewrite poke_length; exact Hlen|].
    split; [apply data_get_poke_same; auto; lia|].
    split; [|exact Hsize].
    intros i Hi Hne. rewrite data_get_poke_other by lia. auto.
Qed.

Lemma data_dec_spec (d : data_t) (dp : Z) :
  wf_data d -> 0 <= dp -> addressable realloc_ok d dp ->
  exists v d',
    data_get d dp = Ok v /\
    data_dec realloc_ok d dp = Ok (0, d') /\
    wf_data d' /\
    data_get d' dp = Ok (wrap8 (v - 1)) /\
    (forall i, 0 <= i -> i <> dp -> data_get d' i = data_get d i) /\
    size d' = (if dp <? size d then size d
               else dp + 1 + DATA_GRANULARITY).
Proof.
  intros Hwf Hdp Ha.
  destruct (data_bound_addressable d dp Hwf Hdp Ha)
    as (d1 & E & Hwf1 & Hin & Hsame & Hsize).
  pose proof Hwf1 as Hlen. unfold wf_data in Hlen.
  exists (nth (Z.to_nat dp) (data d1) 0). eexists.
  split; [rewrite <- Hsame by lia; apply data_get_inside; auto; lia|].
  split.
  - unfold data_dec. rewrite E. cbn [bind Z.eqb negb].
    rewrite cell_load_inside by lia. cbn [bind].
    rewrite cell_store_inside by lia. reflexivity.
  - split; [unfold wf_data; simpl; rewrite poke_length; exact Hlen|].
    split; [apply data_get_poke_same; auto; lia|].
    split; [|exact Hsize].
    intros i Hi Hne. rewrite data_get_poke_other by lia. auto.
Qed.

Lemma data_set_spec (d : data_t) (dp val : Z) :
  wf_data d -> 0 <= dp -> addressable realloc_ok d dp ->
  exists d',
    data_set realloc_ok d dp val = Ok (0, d') /\
    wf_data d' /\
    data_get d' dp = Ok val /\
    (forall i, 0 <= i -> i <> dp -> data_get d' i = data_get d i) /\
    size d' = (if dp <? size d then size d
               else dp + 1 + DATA_GRANULARITY).
Proof.
  intros Hwf Hdp Ha.
  destruct (data_bound_addressable d dp Hwf Hdp Ha)
    as (d1 & E & Hwf1 & Hin & Hsame & Hsize).
  pose proof Hwf1 as Hlen. unfold wf_data in Hlen.
  eexists. split.
  - unfold data_set. rewrite E. cbn [bind Z.eqb negb].
    rewrite cell_store_inside by lia. reflexivity.
  - split; [unfold wf_data; simpl; rewrite poke_length; exact Hlen|].
    split; [apply data_get_poke_same; auto; lia|].
    split; [|exact Hsize].
    intros i Hi Hne. rewrite data_get_poke_other by lia. auto.
Qed.

(** C7: a cell that [data_inc] or [data_dec] reaches is changed by one
    modulo 256: from [v] to [(v + 1) mod 256], respectively
    [(v - 1) mod 256]; so 255 is incremented to 0 and 0 is decremented
    to 255. *)
Theorem cell_arithmetic_mod_256 (d : data_t) (dp : Z)
  (Hwf : wf_data d) (Hdp : 0 <= dp) (Ha : addressable realloc_ok d dp) :
  exists v d_inc d_dec,
    data_get d dp = Ok v /\
    data_inc realloc_ok d dp = Ok (0, d_inc) /\
    data_get d_inc dp = Ok ((v + 1) mod 256) /\
    data_dec realloc_ok d dp = Ok (0, d_dec) /\
    data_get d_dec dp = Ok ((v - 1) mod 256) /\
    (v = 255 -> data_get d_inc dp = Ok 0) /\
    (v = 0 -> data_get d_dec dp = Ok 255).
Proof.
  destruct (data_inc_spec d dp Hwf Hdp Ha)
    as (v & di & Hv & Hi & _ & Hgi & _ & _).
  destruct (data_dec_spec d dp Hwf Hdp Ha)
    as (v' & dd & Hv' & Hd & _ & Hgd & _ & _).
  assert (v' = v) by congruence. subst v'.
  exists v, di, dd. unfold wrap8 in *.
  repeat split; auto.
  - intros ->. exact Hgi.
  - intros ->. exact Hgd.
Qed.

End CellArithmetic.

Lemma cell_arithmetic_mod_256_witness :
  wf_data data_init /\ 0 <= 0 /\ addressable plenty data_init 0 /\
  exists v d_inc d_dec,
    data_get data_init 0 = Ok v /\
    data_inc plenty data_init 0 = Ok (0, d_inc) /\
    data_get d_inc 0 = Ok ((v + 1) mod 256) /\
    data_dec plenty data_init 0 = Ok (0, d_dec) /\
    data_get d_dec 0 = Ok ((v - 1) mod 256) /\
    (v = 255 -> data_get d_inc 0 = Ok 0) /\
    (v = 0 -> data_get d_dec 0 = Ok 255).
Proof.
  assert (Ha : addressable plenty data_init 0).
  { right. split; [vm_compute; discriminate | reflexivity]. }
  split; [reflexivity|]. split; [lia|]. split; [exact Ha|].
  apply (cell_arithmetic_mod_256 plenty data_init 0);
    [reflexivity | lia | exact Ha].
Defined.

(** *** The data memory stays well formed and needs no step budget *)

Lemma data_get_total (d : data_t) (dp : Z) :
  wf_data d -> 0 <= dp -> exists v, data_get d dp = Ok v.
Proof.
  intros Hwf Hdp. destruct (Z.lt_ge_cases dp (size d)).
  - eexists. apply data_get_inside; auto.
  - exists 0. now apply data_get_beyond.
Qed.

Lemma cell_store_wf (d d' : data_t) (dp v : Z) :
  wf_data d -> cell_store d dp v = Ok d' -> wf_data d'.
Proof.
  unfold cell_store, wf_data. intros Hwf.
  destruct (_ && _); [|discriminate].
  intros [= <-]. simpl. now rewrite poke_length.
Qed.

Section DataMemoryInvariant.

Variable realloc_ok : Z -> bool.

Lemma data_inc_wf (d d' : data_t) (dp : Z) :
  wf_data d -> data_inc realloc_ok d dp = Ok (0, d') -> wf_data d'.
Proof.
  intros Hwf. unfold data_inc.
  destruct (data_bound realloc_ok d dp) as [[ret d1]| |] eqn:E;
    cbn [bind]; try discriminate.
  destruct (Z.eqb_spec ret 0) as [->|Hne]; cbn [negb].
  - destruct (data_bound_wf realloc_ok d d1 dp Hwf E) as [Hwf1 _].
    destruct (cell_load d1 dp); cbn [bind]; try discriminate.
    destruct (cell_store d1 dp _) eqn:Es; cbn [bind]; try discriminate.
    intros [= <-]. exact (cell_store_wf _ _ _ _ Hwf1 Es).
  - intros [= -> _]. contradiction.
Qed.

Lemma data_dec_wf (d d' : data_t) (dp : Z) :
  wf_data d -> data_dec realloc_ok d dp = Ok (0, d') -> wf_data d'.
Proof.
  intros Hwf. unfold data_dec.
  destruct (data_bound realloc_ok d dp) as [[ret d1]| |] eqn:E;
    cbn [bind]; try discriminate.
  destruct (Z.eqb_spec ret 0) as [->|Hne]; cbn [negb].
  - destruct (data_bound_wf realloc_ok d d1 dp Hwf E) as [Hwf1 _].
    destruct (cell_load d1 dp); cbn [bind]; try discriminate.
    destruct (cell_store d1 dp _) eqn:Es; cbn [bind]; try discriminate.
    intros [= <-]. exact (cell_store_wf _ _ _ _ Hwf1 Es).
  - intros [= -> _]. contradiction.
Qed.

Lemma data_set_wf (d d' : data_t) (dp val : Z) :
  wf_data d -> data_set realloc_ok d dp val = Ok (0, d') -> wf_data d'.
Proof.
  intros Hwf. unfold data_set.
  destruct (data_bound realloc_ok d dp) as [[ret d1]| |] eqn:E;
    cbn [bind]; try discriminate.
  destruct (Z.eqb_spec ret 0) as [->|Hne]; cbn [negb].
  - destruct (data_bound_wf realloc_ok d d1 dp Hwf E) as [Hwf1 _].
    destruct (cell_store d1 dp _) eqn:Es; cbn [bind]; try discriminate.
    intros [= <-]. exact (cell_store_wf _ _ _ _ Hwf1 Es).
  - intros [= -> _]. contradiction.
Qed.

Lemma data_bound_in_budget (d : data_t) (dp : Z) :
  data_bound realloc_ok d dp <> OutOfFuel.
Proof.
  unfold data_bound.
  destruct (dp >=? size d); [|discriminate].
  destruct (realloc_ok _); [|discriminate].
  destruct (_ <=? _); discriminate.
Qed.

Lemma cell_load_in_budget (d : data_t) (dp : Z) :
  cell_load d dp <> OutOfFuel.
Proof. unfold cell_load. destruct (_ && _); discriminate. Qed.

Lemma cell_store_in_budget (d : data_t) (dp v : Z) :
  cell_store d dp v <> OutOfFuel.
Proof. unfold cell_store. destruct (_ && _); discriminate. Qed.

Lemma data_get_in_budget (d : data_t) (dp : Z) :
  data_get d dp <> OutOfFuel.
Proof.
  unfold data_get. destruct (_ >=? _); [discriminate|].
  apply cell_load_in_budget.
Qed.

Lemma data_inc_in_budget (d : data_t) (dp : Z) :
  data_inc realloc_ok d dp <> OutOfFuel.
Proof.
  unfold data_inc.
  pose proof (data_bound_in_budget d dp).
  destruct (data_bound realloc_ok d dp) as [[ret d1]| |]; cbn [bind];
    try discriminate; try contradiction.
  destruct (negb _); [discriminate|].
  pose proof (cell_load_in_budget d1 dp).
  destruct (cell_load d1 dp) as [v| |]; cbn [bind];
    try discriminate; try contradiction.
  pose proof (cell_store_in_budget d1 dp (wrap8 (v + 1))).
  destruct (cell_store d1 dp _); cbn [bind];
    try discriminate; try contradiction.
Qed.

Lemma data_dec_in_budget (d : data_t) (dp : Z) :
  data_dec realloc_ok d dp <> OutOfFuel.
Proof.
  unfold data_dec.
  pose proof (data_bound_in_budget d dp).
  destruct (data_bound realloc_ok d dp) as [[ret d1]| |]; cbn [bind];
    try discriminate; try contradiction.
  destruct (negb _); [discriminate|].
  pose proof (cell_load_in_budget d1 dp).
  destruct (cell_load d1 dp) as [v| |]; cbn [bind];
    try discriminate; try contradiction.
  pose proof (cell_store_in_budget d1 dp (wrap8 (v - 1))).
  destruct (cell_store d1 dp _); cbn [bind];
    try discriminate; try contradiction.
Qed.

Lemma data_set_in_budget (d : data_t) (dp val : Z) :
  data_set realloc_ok d dp val <> OutOfFuel.
Proof.
  unfold data_set.
  pose proof (data_bound_in_budget d dp).
  destruct (data_bound realloc_ok d dp) as [[ret d1]| |]; cbn [bind];
    try discriminate; try contradiction.
  destruct (negb _); [discriminate|].
  pose proof (cell_store_in_budget d1 dp val).
  destruct (cell_store d1 dp _); cbn [bind];
    try discriminate; try contradiction.
Qed.

End DataMemoryInvariant.

(** *** Growth of the buffer *)

(** An access at cell [DATA_GRANULARITY + 5] of the empty data memory: the
    write succeeds and every cell up to there reads 0 except the one
    written. *)
Lemma growth_from_empty (realloc_ok : Z -> bool) (val i : Z) :
  realloc_ok (2 * DATA_GRANULARITY + 6) = true ->
  0 <= i <= DATA_GRANULARITY + 5 ->
  exists d',
    data_set realloc_ok data_init (DATA_GRANULARITY + 5) val = Ok (0, d') /\
    size d' = 2 * DATA_GRANULARITY + 6 /\
    data_get d' (DATA_GRANULARITY + 5) = Ok val /\
    (i <> DATA_GRANULARITY + 5 -> data_get d' i = Ok 0).
Proof.
  intros Hok Hi.
  assert (Ha : addressable realloc_ok data_init (DATA_GRANULARITY + 5)).
  { right. split; [vm_compute; discriminate|].
    rewrite <- Hok. f_equal. }
  assert (Hpos : 0 <= DATA_GRANULARITY + 5) by (vm_compute; discriminate).
  destruct (data_set_spec realloc_ok data_init _ val wf_data_init Hpos Ha)
    as (d' & E & Hwf & Hg & Hothers & Hsize).
  exists d'. split; [exact E|]. split; [|split].
  - rewrite Hsize. reflexivity.
  - exact Hg.
  - intros Hne. rewrite Hothers by lia. apply data_get_beyond. simpl. lia.
Qed.

(** C6 at a failing index.  With [dp = SIZE_MAX] (where [<] at [dp = 0]
    leaves the data pointer) the computation of the new size wraps to
    [DATA_GRANULARITY]: [data_bound] returns 0, the value documented as
    "the data cell can be safely accessed", over a buffer of 32768 cells
    that does not hold the cell, and the increment that follows accesses
    [data->data[SIZE_MAX]] outside the buffer. *)
Theorem data_bound_wraps :
  data_bound plenty data_init SIZE_MAX
    = Ok (0, mk_data (repeat 0 (Z.to_nat DATA_GRANULARITY))
                     DATA_GRANULARITY) /\
  DATA_GRANULARITY < SIZE_MAX + 1 /\
  data_inc plenty data_init SIZE_MAX = Fault BadLoad /\
  data_dec plenty data_init SIZE_MAX = Fault BadLoad /\
  data_set plenty data_init SIZE_MAX 1 = Fault BadStore /\
  brainfuck plenty zero_page (text "<+") 2 []
    = Crashed BadLoad [] [].
Proof.
  split.
  { unfold data_bound. cbn [size data data_init app].
    change (SIZE_MAX >=? 0) with true.
    change (wrap (SIZE_MAX + 1 + DATA_GRANULARITY)) with DATA_GRANULARITY.
    change (plenty DATA_GRANULARITY) with true.
    change (0 <=? DATA_GRANULARITY) with true.
    change (DATA_GRANULARITY - 0) with DATA_GRANULARITY.
    reflexivity. }
  split; [vm_compute; reflexivity|].
  split; [vm_compute; reflexivity|].
  split; [vm_compute; reflexivity|].
  split; vm_compute; reflexivity.
Qed.

(** ** Lists seen through an index *)

Lemma skipn_head {A : Type} (n : nat) (l l' : list A) (x : A) :
  skipn n l = x :: l' -> nth_error l n = Some x /\ skipn (S n) l = l'.
Proof.
  revert l; induction n as [|n IH]; intros [|a l] H; simpl in *;
    try discriminate.
  - injection H as -> ->. split; [reflexivity | now destruct l'].
  - apply IH in H. exact H.
Qed.

Lemma skipn_empty {A : Type} (n : nat) (l : list A) :
  skipn n l = [] -> (length l <= n)%nat.
Proof.
  revert l; induction n as [|n IH]; intros [|a l] H; simpl in *;
    try discriminate; try lia.
  apply IH in H. lia.
Qed.

Lemma firstn_snoc {A : Type} (n : nat) (l : list A) (x : A) :
  nth_error l n = Some x -> firstn (S n) l = firstn n l ++ [x].
Proof.
  revert l; induction n as [|n IH]; intros [|a l] H; simpl in *;
    try discriminate.
  - now injection H as ->.
  - f_equal. apply IH. exact H.
Qed.

Lemma rev_firstn_head {A : Type} (n : nat) (l l' : list A) (x : A) :
  (n <= length l)%nat -> rev (firstn n l) = x :: l' ->
  exists m, n = S m /\ nth_error l m = Some x /\ rev (firstn m l) = l'.
Proof.
  intros Hn H. destruct n as [|m]; [discriminate|].
  exists m. split; [reflexivity|].
  destruct (nth_error l m) as [y|] eqn:E.
  - rewrite (firstn_snoc m l y E), rev_unit in H.
    injection H as -> <-. auto.
  - apply nth_error_None in E. lia.
Qed.

Lemma rev_firstn_empty {A : Type} (n : nat) (l : list A) :
  (n <= length l)%nat -> rev (firstn n l) = [] -> n = O.
Proof.
  intros Hn H. apply (f_equal (@length A)) in H.
  rewrite length_rev, length_firstn in H. simpl in H. lia.
Qed.

(** ** The balance scan of the specification *)

(** Where the scan stops, it stops on a [down], and no earlier. *)
Lemma balance_scan_stops (up down : instruction_t) (l : list instruction_t) :
  up <> down ->
  forall (b k : nat), (0 < b)%nat ->
  balance_scan up down l b = Some k ->
  nth_error l k = Some down /\ (k < length l)%nat.
Proof.
  intros Hud. induction l as [|x l IH]; intros b k Hb H; [discriminate|].
  cbn [balance_scan] in H.
  destruct (instruction_eqb x up) eqn:Eu.
  - destruct (balance_scan up down l (S b)) as [k'|] eqn:E;
      [|discriminate].
    injection H as <-. apply IH in E; [|lia]. simpl. split; [tauto|lia].
  - destruct (instruction_eqb x down) eqn:Ed.
    + apply instruction_eqb_eq in Ed. subst x.
      destruct b as [|[|b]]; [lia| |].
      * injection H as <-. simpl. split; [reflexivity|lia].
      * cbn [pred] in H.
        destruct (balance_scan up down l (S b)) as [k'|] eqn:E;
          [|discriminate].
        injection H as <-. apply IH in E; [|lia]. simpl. split; [tauto|lia].
    + destruct b as [|b]; [lia|].
      destruct (balance_scan up down l (S b)) as [k'|] eqn:E;
        [|discriminate].
      injection H as <-. apply IH in E; [|lia]. simpl. split; [tauto|lia].
Qed.

(** ** The jump scans *)

Section ScanFacts.

Variable opcode_t : Type.
Variable opcode_decode : opcode_t -> instruction_t.
Variable beyond : Z -> option opcode_t.
Variable program : list opcode_t.

Local Abbreviation ps := (program_size program).
Local Abbreviation code := (decoded opcode_decode program).
Local Abbreviation forward := (jmp_forward_loop opcode_decode beyond program).
Local Abbreviation back := (jmp_back_loop opcode_decode beyond program).

(** The program is a mapped file: its size is below [SIZE_MAX]
    ([st_size] is a signed [off_t]). *)
Hypothesis program_fits : ps < SIZE_MAX.

Lemma fetch_inside (i : Z) (x : instruction_t) :
  0 <= i -> nth_error code (Z.to_nat i) = Some x ->
  i < ps /\
  exists opcode,
    nth_error program (Z.to_nat i) = Some opcode /\
    fetch beyond program i = Ok opcode /\ opcode_decode opcode = x.
Proof.
  intros Hi H. unfold decoded in H.
  assert (Hlt : (Z.to_nat i < length program)%nat).
  { rewrite <- (length_map opcode_decode). apply nth_error_Some.
    congruence. }
  rewrite nth_error_map in H.
  destruct (nth_error program (Z.to_nat i)) as [opcode|] eqn:E;
    [|discriminate].
  injection H as H. unfold program_size.
  split; [lia|]. exists opcode. split; [reflexivity|].
  split; [|exact H]. unfold fetch, program_size.
  zcases. now rewrite E.
Qed.

Lemma fetch_at_end :
  fetch beyond program ps =
    match beyond ps with Some opcode => Ok opcode | None => Fault BadFetch
    end.
Proof.
  unfold fetch. rewrite Z.ltb_irrefl, andb_false_r. reflexivity.
Qed.

Lemma forward_balanced (fuel : nat) (i : Z) : forward fuel i 0 = Ok i.
Proof. destruct fuel; reflexivity. Qed.

Lemma back_balanced (fuel : nat) (i : Z) : back fuel i 0 = Ok i.
Proof. destruct fuel; reflexivity. Qed.

Lemma forward_at_end (fuel : nat) (b : Z) : forward (S fuel) ps b = Ok ps.
Proof.
  cbn [jmp_forward_loop]. rewrite Z.eqb_refl. now destruct (b =? 0).
Qed.

(** One turn of the forward loop inside the program. *)
Lemma forward_turn (fuel : nat) (i b : Z) (x : instruction_t) :
  0 <= i -> b <> 0 ->
  nth_error code (Z.to_nat (i + 1)) = Some x ->
  forward (S fuel) i b =
    match x with
    | INST_JMP_FORWARD => forward fuel (i + 1) (wrap (b + 1))
    | INST_JMP_BACK => forward fuel (i + 1) (wrap (b - 1))
    | _ => forward fuel (i + 1) b
    end.
Proof.
  intros Hi Hb Hx.
  destruct (fetch_inside (i + 1) x ltac:(lia) Hx)
    as (Hlt & opcode & _ & Hf & Hd).
  cbn [jmp_forward_loop].
  destruct (Z.eqb_spec b 0); [contradiction|].
  destruct (Z.eqb_spec i ps); [lia|].
  rewrite (wrap_small (i + 1)) by lia.
  rewrite Hf. cbn [bind]. rewrite Hd. reflexivity.
Qed.

(** One turn of the backward loop. *)
Lemma back_turn (fuel : nat) (i b : Z) (x : instruction_t) :
  0 < i -> b <> 0 ->
  nth_error code (Z.to_nat (i - 1)) = Some x ->
  back (S fuel) i b =
    match x with
    | INST_JMP_FORWARD => back fuel (i - 1) (wrap (b - 1))
    | INST_JMP_BACK => back fuel (i - 1) (wrap (b + 1))
    | _ => back fuel (i - 1) b
    end.
Proof.
  intros Hi Hb Hx.
  destruct (fetch_inside (i - 1) x ltac:(lia) Hx)
    as (Hlt & opcode & _ & Hf & Hd).
  cbn [jmp_back_loop].
  destruct (Z.eqb_spec b 0); [contradiction|].
  destruct (Z.eqb_spec i 0); [lia|].
  rewrite (wrap_small (i - 1)) by lia.
  rewrite Hf. cbn [bind]. rewrite Hd. reflexivity.
Qed.

(** Neither scan uses up a step budget larger than the distance to the
    end it walks to. *)
Lemma forward_in_budget (fuel : nat) :
  forall i b, 0 <= i <= ps -> (Z.to_nat (ps - i) < fuel)%nat ->
  forward fuel i b <> OutOfFuel.
Proof.
  induction fuel as [|fuel IH]; intros i b Hi Hfuel; [lia|].
  cbn [jmp_forward_loop].
  destruct (b =? 0); [discriminate|].
  destruct (Z.eqb_spec i ps); [discriminate|].
  rewrite (wrap_small (i + 1)) by lia.
  destruct (fetch beyond program (i + 1)) as [opcode| |] eqn:E;
    cbn [bind]; try discriminate.
  - destruct (opcode_decode opcode); apply IH; lia.
  - unfold fetch in E.
    destruct (if (0 <=? _) && _ then _ else _); discriminate.
Qed.

Lemma back_in_budget (fuel : nat) :
  forall i b, 0 <= i <= ps -> (Z.to_nat i < fuel)%nat ->
  back fuel i b <> OutOfFuel.
Proof.
  induction fuel as [|fuel IH]; intros i b Hi Hfuel; [lia|].
  cbn [jmp_back_loop].
  destruct (b =? 0); [discriminate|].
  destruct (Z.eqb_spec i 0); [discriminate|].
  rewrite (wrap_small (i - 1)) by lia.
  destruct (fetch beyond program (i - 1)) as [opcode| |] eqn:E;
    cbn [bind]; try discriminate.
  - destruct (opcode_decode opcode); apply IH; lia.
  - unfold fetch in E.
    destruct (if (0 <=? _) && _ then _ else _); discriminate.
Qed.

(** The forward loop agrees with the specification's scan where that scan
    finds the matching close. *)
Lemma forward_found (l : list instruction_t) :
  forall (fuel : nat) (i : Z) (b k : nat),
  0 <= i -> skipn (Z.to_nat (i + 1)) code = l ->
  (0 < b)%nat -> Z.of_nat b + Z.of_nat (length l) <= SIZE_MAX ->
  balance_scan INST_JMP_FORWARD INST_JMP_BACK l b = Some k ->
  (k < fuel)%nat ->
  forward fuel i (Z.of_nat b) = Ok (i + 1 + Z.of_nat k).
Proof.
  induction l as [|x l IH]; intros fuel i b k Hi Hl Hb Hfit Hscan Hfuel;
    [discriminate|].
  apply skipn_head in Hl. destruct Hl as [Hx Hl].
  replace (S (Z.to_nat (i + 1))) with (Z.to_nat (i + 1 + 1)) in Hl by lia.
  destruct fuel as [|fuel]; [lia|].
  rewrite (forward_turn fuel i (Z.of_nat b) x Hi ltac:(lia) Hx).
  cbn [length] in Hfit. cbn [balance_scan] in Hscan.
  assert (Hup : wrap (Z.of_nat b + 1) = Z.of_nat (S b))
    by (rewrite wrap_small; lia).
  assert (Hdown : wrap (Z.of_nat b - 1) = Z.of_nat (pred b))
    by (rewrite wrap_small; lia).
  destruct x; cbn [instruction_eqb] in Hscan;
    try rewrite Hup; try rewrite Hdown;
    match type of Hscan with
    | context [pred b] =>
        destruct b as [|[|b]]; [lia| |]; cbn [pred] in *
    | _ => destruct b as [|b]; [lia|]
    end;
    try (injection Hscan as <-; rewrite forward_balanced; f_equal; lia);
    (destruct (balance_scan _ _ l _) as [k'|] eqn:E; [|discriminate];
     injection Hscan as <-;
     transitivity (Ok (A := Z) (i + 1 + 1 + Z.of_nat k'));
     [apply IH; [lia|exact Hl|lia|lia|exact E|lia] | f_equal; lia]).
Qed.

(** Where the specification's scan finds no matching close, the forward
    loop walks to the end of the program, fetches the unit at index
    [program_size], outside the program, and leaves with
    [ip = program_size] when that fetch does not fault. *)
Lemma forward_unmatched (l : list instruction_t) :
  forall (fuel : nat) (i : Z) (b : nat),
  0 <= i < ps -> skipn (Z.to_nat (i + 1)) code = l ->
  (0 < b)%nat -> Z.of_nat b + Z.of_nat (length l) < SIZE_MAX ->
  balance_scan INST_JMP_FORWARD INST_JMP_BACK l b = None ->
  (S (length l) < fuel)%nat ->
  forward fuel i (Z.of_nat b) =
    match beyond ps with Some _ => Ok ps | None => Fault BadFetch end.
Proof.
  induction l as [|x l IH]; intros fuel i b Hi Hl Hb Hfit Hscan Hfuel.
  - apply skipn_empty in Hl. unfold decoded in Hl.
    rewrite length_map in Hl.
    assert (Hend : i + 1 = ps) by (unfold program_size in *; lia).
    destruct fuel as [|fuel]; [simpl in Hfuel; lia|].
    cbn [jmp_forward_loop].
    destruct (Z.eqb_spec (Z.of_nat b) 0); [lia|].
    destruct (Z.eqb_spec i ps); [lia|].
    rewrite (wrap_small (i + 1)) by lia. rewrite Hend.
    rewrite fetch_at_end.
    destruct (beyond ps) as [opcode|]; [|reflexivity].
    cbn [bind].
    destruct fuel as [|fuel]; [simpl in Hfuel; lia|].
    destruct (opcode_decode opcode); apply forward_at_end.
  - apply skipn_head in Hl. destruct Hl as [Hx Hl].
    replace (S (Z.to_nat (i + 1))) with (Z.to_nat (i + 1 + 1)) in Hl by lia.
    destruct (fetch_inside (i + 1) x ltac:(lia) Hx) as (Hlt & _).
    destruct fuel as [|fuel]; [lia|].
    rewrite (forward_turn fuel i (Z.of_nat b) x ltac:(lia) ltac:(lia) Hx).
    cbn [length] in Hfit, Hfuel. cbn [balance_scan] in Hscan.
    assert (Hup : wrap (Z.of_nat b + 1) = Z.of_nat (S b))
      by (rewrite wrap_small; lia).
    assert (Hdown : wrap (Z.of_nat b - 1) = Z.of_nat (pred b))
      by (rewrite wrap_small; lia).
    destruct x; cbn [instruction_eqb] in Hscan;
      try rewrite Hup; try rewrite Hdown;
      match type of Hscan with
      | context [pred b] =>
          destruct b as [|[|b]]; [lia|discriminate|]; cbn [pred] in *
      | _ => destruct b as [|b]; [lia|]
      end;
      (destruct (balance_scan _ _ l _) as [k'|] eqn:E; [discriminate|];
       apply (IH fuel (i + 1)); [lia|exact Hl|lia|lia|exact E|lia]).
Qed.

(** The backward loop agrees with the specification's scan where that scan
    finds the matching open. *)
Lemma back_found (l : list instruction_t) :
  forall (fuel : nat) (i : Z) (b k : nat),
  0 <= i <= ps -> rev (firstn (Z.to_nat i) code) = l ->
  (0 < b)%nat -> Z.of_nat b + Z.of_nat (length l) <= SIZE_MAX ->
  balance_scan INST_JMP_BACK INST_JMP_FORWARD l b = Some k ->
  (k < fuel)%nat ->
  back fuel i (Z.of_nat b) = Ok (i - 1 - Z.of_nat k).
Proof.
  induction l as [|x l IH]; intros fuel i b k Hi Hl Hb Hfit Hscan Hfuel;
    [discriminate|].
  apply rev_firstn_head in Hl;
    [|unfold decoded; rewrite length_map; unfold program_size in Hi; lia].
  destruct Hl as (m & Hm & Hx & Hl).
  replace m with (Z.to_nat (i - 1)) in Hx, Hl by lia.
  destruct fuel as [|fuel]; [lia|].
  rewrite (back_turn fuel i (Z.of_nat b) x ltac:(lia) ltac:(lia) Hx).
  cbn [length] in Hfit. cbn [balance_scan] in Hscan.
  assert (Hup : wrap (Z.of_nat b + 1) = Z.of_nat (S b))
    by (rewrite wrap_small; lia).
  assert (Hdown : wrap (Z.of_nat b - 1) = Z.of_nat (pred b))
    by (rewrite wrap_small; lia).
  destruct x; cbn [instruction_eqb] in Hscan;
    try rewrite Hup; try rewrite Hdown;
    match type of Hscan with
    | context [pred b] =>
        destruct b as [|[|b]]; [lia| |]; cbn [pred] in *
    | _ => destruct b as [|b]; [lia|]
    end;
    try (injection Hscan as <-; rewrite back_balanced; f_equal; lia);
    (destruct (balance_scan _ _ l _) as [k'|] eqn:E; [|discriminate];
     injection Hscan as <-;
     transitivity (Ok (A := Z) (i - 1 - 1 - Z.of_nat k'));
     [apply IH; [lia|exact Hl|lia|lia|exact E|lia] | f_equal; lia]).
Qed.

(** Where the specification's scan finds no matching open, the backward
    loop reaches index 0, sets [ip = program_size] and leaves. *)
Lemma back_unmatched (l : list instruction_t) :
  forall (fuel : nat) (i : Z) (b : nat),
  0 <= i <= ps -> rev (firstn (Z.to_nat i) code) = l ->
  (0 < b)%nat -> Z.of_nat b + Z.of_nat (length l) <= SIZE_MAX ->
  balance_scan INST_JMP_BACK INST_JMP_FORWARD l b = None ->
  (length l < fuel)%nat ->
  back fuel i (Z.of_nat b) = Ok ps.
Proof.
  induction l as [|x l IH]; intros fuel i b Hi Hl Hb Hfit Hscan Hfuel.
  - apply rev_firstn_empty in Hl;
      [|unfold decoded; rewrite length_map; unfold program_size in Hi; lia].
    assert (i = 0) by lia. subst i.
    destruct fuel as [|fuel]; [simpl in Hfuel; lia|].
    cbn [jmp_back_loop].
    destruct (Z.eqb_spec (Z.of_nat b) 0); [lia|]. reflexivity.
  - apply rev_firstn_head in Hl;
      [|unfold decoded; rewrite length_map; unfold program_size in Hi; lia].
    destruct Hl as (m & Hm & Hx & Hl).
    replace m with (Z.to_nat (i - 1)) in Hx, Hl by lia.
    destruct fuel as [|fuel]; [simpl in Hfuel; lia|].
    rewrite (back_turn fuel i (Z.of_nat b) x ltac:(lia) ltac:(lia) Hx).
    cbn [length] in Hfit, Hfuel. cbn [balance_scan] in Hscan.
    assert (Hup : wrap (Z.of_nat b + 1) = Z.of_nat (S b))
      by (rewrite wrap_small; lia).
    assert (Hdown : wrap (Z.of_nat b - 1) = Z.of_nat (pred b))
      by (rewrite wrap_small; lia).
    destruct x; cbn [instruction_eqb] in Hscan;
      try rewrite Hup; try rewrite Hdown;
      match type of Hscan with
      | context [pred b] =>
          destruct b as [|[|b]]; [lia|discriminate|]; cbn [pred] in *
      | _ => destruct b as [|b]; [lia|]
      end;
      (destruct (balance_scan _ _ l _) as [k'|] eqn:E; [discriminate|];
       apply (IH fuel (i - 1)); [lia|exact Hl|lia|lia|exact E|lia]).
Qed.

End ScanFacts.

(** ** The run loop *)

Lemma set_ip_set_ip (s : state) (a b : Z) :
  set_ip (set_ip s a) b = set_ip s b.
Proof. reflexivity. Qed.

Section RunFacts.

Variable opcode_t : Type.
Variable opcode_decode : opcode_t -> instruction_t.
Variable realloc_ok : Z -> bool.
Variable beyond : Z -> option opcode_t.
Variable program : list opcode_t.

Local Abbreviation ps := (program_size program).
Local Abbreviation code := (decoded opcode_decode program).
Local Abbreviation step := (exec opcode_decode realloc_ok beyond program).
Local Abbreviation go := (run opcode_decode realloc_ok beyond program).

Hypothesis program_fits : ps < SIZE_MAX.

(** The loop is left as soon as [ip] is not below [program_size], and
    [main] returns 0. *)
Lemma run_finished (fuel : nat) (s : state) :
  ps <= ip s -> go fuel s = Returned 0 (stdout s) (stderr s).
Proof.
  intros H. destruct fuel; cbn [run];
    destruct (Z.ltb_spec (ip s) ps); try lia; reflexivity.
Qed.

Lemma run_step (fuel : nat) (s s' : state) :
  ip s < ps -> step s = Ok s' -> go (S fuel) s = go fuel s'.
Proof.
  intros H E. cbn [run]. destruct (Z.ltb_spec (ip s) ps); [|lia].
  now rewrite E.
Qed.

Lemma run_fault (fuel : nat) (s : state) (f : fault_t) :
  ip s < ps -> step s = Fault f ->
  go (S fuel) s = Crashed f (stdout s) (stderr s).
Proof.
  intros H E. cbn [run]. destruct (Z.ltb_spec (ip s) ps); [|lia].
  now rewrite E.
Qed.

(** Fetch and decode at an index that holds instruction [x]. *)
Lemma exec_at (s : state) (x : instruction_t) :
  0 <= ip s -> nth_error code (Z.to_nat (ip s)) = Some x ->
  ip s < ps /\
  step s =
    (s' <- dispatch opcode_decode realloc_ok beyond program x s ;;
     Ok (set_ip s' (wrap (ip s' + 1)))).
Proof.
  intros Hip Hx.
  destruct (fetch_inside opcode_t opcode_decode beyond program (ip s) x
              Hip Hx) as (Hlt & opcode & _ & Hf & Hd).
  split; [exact Hlt|]. unfold exec. rewrite Hf. cbn [bind].
  now rewrite Hd.
Qed.

(** *** [INST_JMP_FORWARD] *)

Lemma jmp_forward_falls_through (s : state) (v : Z) :
  0 <= ip s -> nth_error code (Z.to_nat (ip s)) = Some INST_JMP_FORWARD ->
  data_get (mem s) (dp s) = Ok v -> v <> 0 ->
  step s = Ok (set_ip s (ip s + 1)).
Proof.
  intros Hip Hx Hv Hnz.
  destruct (exec_at s _ Hip Hx) as [Hlt ->].
  cbn [dispatch]. rewrite Hv. cbn [bind].
  destruct (Z.eqb_spec v 0); [contradiction|].
  cbn [bind]. rewrite wrap_small by lia. reflexivity.
Qed.

Lemma jmp_forward_matched (s : state) (target : Z) :
  0 <= ip s -> nth_error code (Z.to_nat (ip s)) = Some INST_JMP_FORWARD ->
  data_get (mem s) (dp s) = Ok 0 ->
  match_forward opcode_decode program (ip s) = Some target ->
  ip s < target < ps /\
  nth_error code (Z.to_nat target) = Some INST_JMP_BACK /\
  step s = Ok (set_ip s (target + 1)).
Proof.
  intros Hip Hx Hv Hm.
  destruct (exec_at s _ Hip Hx) as [Hlt ->].
  unfold match_forward in Hm.
  destruct (balance_scan _ _ _ _) as [k|] eqn:E; [|discriminate].
  cbn [option_map] in Hm. injection Hm as <-.
  assert (Hud : INST_JMP_FORWARD <> INST_JMP_BACK) by discriminate.
  destruct (balance_scan_stops _ _ _ Hud 1%nat k ltac:(lia) E)
    as [Hk Hlen].
  rewrite length_skipn in Hlen. unfold decoded in Hlen.
  rewrite length_map in Hlen.
  rewrite nth_error_skipn in Hk.
  replace (Z.to_nat (ip s + 1) + k)%nat
    with (Z.to_nat (ip s + 1 + Z.of_nat k)) in Hk by lia.
  assert (Hin : ip s + 1 + Z.of_nat k < ps)
    by (unfold program_size in *; lia).
  split; [lia|]. split; [exact Hk|].
  cbn [dispatch]. rewrite Hv. cbn [bind Z.eqb].
  assert (Hscan : jmp_forward_loop opcode_decode beyond program
                    (scan_fuel program) (ip s) 1
                  = Ok (ip s + 1 + Z.of_nat k)).
  { apply (forward_found opcode_t opcode_decode beyond program program_fits
             _ (scan_fuel program) (ip s) 1 k Hip eq_refl);
      [lia
      |rewrite length_skipn; unfold decoded; rewrite length_map;
       unfold program_size in *; lia
      |exact E|unfold scan_fuel; lia]. }
  rewrite Hscan. cbn [bind]. rewrite set_ip_set_ip.
  cbn [set_ip ip]. rewrite wrap_small by lia. reflexivity.
Qed.

(** An open without a matching close, on a zero cell: the scan fetches
    the unit at index [program_size]; when that read faults the process
    is killed, otherwise the loop is left with [ip = program_size + 1]. *)
Lemma jmp_forward_unmatched (s : state) :
  0 <= ip s -> nth_error code (Z.to_nat (ip s)) = Some INST_JMP_FORWARD ->
  data_get (mem s) (dp s) = Ok 0 ->
  match_forward opcode_decode program (ip s) = None ->
  step s =
    match beyond ps with
    | Some _ => Ok (set_ip s (ps + 1))
    | None => Fault BadFetch
    end.
Proof.
  intros Hip Hx Hv Hm.
  destruct (exec_at s _ Hip Hx) as [Hlt ->].
  unfold match_forward in Hm.
  destruct (balance_scan _ _ _ _) as [k|] eqn:E; [discriminate|].
  cbn [dispatch]. rewrite Hv. cbn [bind Z.eqb].
  assert (Hscan : jmp_forward_loop opcode_decode beyond program
                    (scan_fuel program) (ip s) 1
                  = match beyond ps with
                    | Some _ => Ok ps
                    | None => Fault BadFetch
                    end).
  { apply (forward_unmatched opcode_t opcode_decode beyond program
             program_fits (skipn (Z.to_nat (ip s + 1)) code)
             (scan_fuel program) (ip s) 1);
      [lia|reflexivity|lia
      |rewrite length_skipn; unfold decoded; rewrite length_map;
       unfold program_size in *; lia
      |exact E
      |rewrite length_skipn; unfold decoded; rewrite length_map;
       unfold scan_fuel, program_size in *; lia]. }
  rewrite Hscan. destruct (beyond ps); [|reflexivity].
  cbn [bind]. rewrite set_ip_set_ip.
  cbn [set_ip ip]. rewrite wrap_small by lia. reflexivity.
Qed.

(** *** [INST_JMP_BACK] *)

Lemma jmp_back_falls_through (s : state) :
  0 <= ip s -> nth_error code (Z.to_nat (ip s)) = Some INST_JMP_BACK ->
  data_get (mem s) (dp s) = Ok 0 ->
  step s = Ok (set_ip s (ip s + 1)).
Proof.
  intros Hip Hx Hv.
  destruct (exec_at s _ Hip Hx) as [Hlt ->].
  cbn [dispatch]. rewrite Hv. cbn [bind Z.eqb negb].
  rewrite wrap_small by lia. reflexivity.
Qed.

Lemma jmp_back_matched (s : state) (v target : Z) :
  0 <= ip s -> nth_error code (Z.to_nat (ip s)) = Some INST_JMP_BACK ->
  data_get (mem s) (dp s) = Ok v -> v <> 0 ->
  match_back opcode_decode program (ip s) = Some target ->
  0 <= target < ip s /\
  nth_error code (Z.to_nat target) = Some INST_JMP_FORWARD /\
  step s = Ok (set_ip s (target + 1)).
Proof.
  intros Hip Hx Hv Hnz Hm.
  destruct (exec_at s _ Hip Hx) as [Hlt ->].
  unfold match_back in Hm.
  destruct (balance_scan _ _ _ _) as [k|] eqn:E; [|discriminate].
  cbn [option_map] in Hm. injection Hm as <-.
  assert (Hud : INST_JMP_BACK <> INST_JMP_FORWARD) by discriminate.
  destruct (balance_scan_stops _ _ _ Hud 1%nat k ltac:(lia) E)
    as [Hk Hlen].
  assert (Hcode : length code = length program)
    by (unfold decoded; apply length_map).
  rewrite length_rev, length_firstn in Hlen.
  assert (Hkz : Z.of_nat k < ip s) by lia.
  rewrite nth_error_rev in Hk.
  rewrite length_firstn in Hk.
  replace (k <? Nat.min (Z.to_nat (ip s)) (length code))%nat with true in Hk
    by (symmetry; apply Nat.ltb_lt; lia).
  rewrite nth_error_firstn in Hk.
  replace (_ <? _)%nat with true in Hk by (symmetry; apply Nat.ltb_lt; lia).
  replace (Nat.min (Z.to_nat (ip s)) (length code) - S k)%nat
    with (Z.to_nat (ip s - 1 - Z.of_nat k)) in Hk
    by (unfold program_size in *; lia).
  split; [lia|]. split; [exact Hk|].
  cbn [dispatch]. rewrite Hv. cbn [bind].
  destruct (Z.eqb_spec v 0); [contradiction|]. cbn [negb].
  assert (Hscan : jmp_back_loop opcode_decode beyond program
                    (scan_fuel program) (ip s) 1
                  = Ok (ip s - 1 - Z.of_nat k)).
  { apply (back_found opcode_t opcode_decode beyond program program_fits
             (rev (firstn (Z.to_nat (ip s)) code))
             (scan_fuel program) (ip s) 1 k);
      [lia|reflexivity|lia
      |rewrite length_rev, length_firstn; unfold program_size in *; lia
      |exact E|unfold scan_fuel, program_size in *; lia]. }
  rewrite Hscan. cbn [bind]. rewrite set_ip_set_ip.
  cbn [set_ip ip]. rewrite wrap_small by lia. reflexivity.
Qed.

(** A close without a matching open, on a nonzero cell: the scan reaches
    index 0, sets [ip = program_size], and the loop is left. *)
Lemma jmp_back_unmatched (s : state) (v : Z) :
  0 <= ip s -> nth_error code (Z.to_nat (ip s)) = Some INST_JMP_BACK ->
  data_get (mem s) (dp s) = Ok v -> v <> 0 ->
  match_back opcode_decode program (ip s) = None ->
  step s = Ok (set_ip s (ps + 1)).
Proof.
  intros Hip Hx Hv Hnz Hm.
  destruct (exec_at s _ Hip Hx) as [Hlt ->].
  unfold match_back in Hm.
  destruct (balance_scan _ _ _ _) as [k|] eqn:E; [discriminate|].
  cbn [dispatch]. rewrite Hv. cbn [bind].
  destruct (Z.eqb_spec v 0); [contradiction|]. cbn [negb].
  assert (Hscan : jmp_back_loop opcode_decode beyond program
                    (scan_fuel program) (ip s) 1
                  = Ok ps).
  { apply (back_unmatched opcode_t opcode_decode beyond program program_fits
             (rev (firstn (Z.to_nat (ip s)) code))
             (scan_fuel program) (ip s) 1);
      [lia|reflexivity|lia
      |rewrite length_rev, length_firstn; unfold program_size in *; lia
      |exact E
      |rewrite length_rev, length_firstn;
       unfold scan_fuel, program_size in *; lia]. }
  rewrite Hscan. cbn [bind]. rewrite set_ip_set_ip.
  cbn [set_ip ip]. rewrite wrap_small by lia. reflexivity.
Qed.

(** *** [INST_DP_DEC] and [INST_VAL_ACCEPT] *)

Lemma dp_dec_exec (s : state) :
  0 <= ip s -> nth_error code (Z.to_nat (ip s)) = Some INST_DP_DEC ->
  step s = Ok (mk_state (ip s + 1) (wrap (dp s - 1)) (mem s) (stdin s)
                        (stdout s) (stderr s)).
Proof.
  intros Hip Hx.
  destruct (exec_at s _ Hip Hx) as [Hlt ->].
  cbn [dispatch bind set_dp set_ip ip dp mem stdin stdout stderr].
  rewrite (wrap_small (ip s + 1)) by lia. reflexivity.
Qed.

Lemma accept_at_eof (s : state) :
  0 <= ip s -> nth_error code (Z.to_nat (ip s)) = Some INST_VAL_ACCEPT ->
  stdin s = [] ->
  step s = Ok (set_ip s (ps + 1)).
Proof.
  intros Hip Hx Hin.
  destruct (exec_at s _ Hip Hx) as [Hlt ->].
  cbn [dispatch]. rewrite Hin. cbn [bind]. rewrite set_ip_set_ip.
  cbn [set_ip ip]. rewrite wrap_small by lia. reflexivity.
Qed.

(** A step that leaves [ip] beyond the program ends the run: [main]
    returns 0 with the streams as they were. *)
Lemma run_leaves (fuel : nat) (s : state) (target : Z) :
  ip s < ps -> ps <= target ->
  step s = Ok (set_ip s target) ->
  go (S fuel) s = Returned 0 (stdout s) (stderr s).
Proof.
  intros Hlt Hge E. rewrite (run_step fuel s _ Hlt E).
  now rewrite run_finished by (cbn [set_ip ip]; lia).
Qed.

(** The run at an open without a matching close, on a zero cell. *)
Lemma jmp_forward_unmatched_run (fuel : nat) (s : state) :
  0 <= ip s -> nth_error code (Z.to_nat (ip s)) = Some INST_JMP_FORWARD ->
  data_get (mem s) (dp s) = Ok 0 ->
  match_forward opcode_decode program (ip s) = None ->
  go (S fuel) s =
    match beyond ps with
    | Some _ => Returned 0 (stdout s) (stderr s)
    | None => Crashed BadFetch (stdout s) (stderr s)
    end.
Proof.
  intros Hip Hx Hv Hm.
  destruct (exec_at s _ Hip Hx) as [Hlt _].
  pose proof (jmp_forward_unmatched s Hip Hx Hv Hm) as E.
  destruct (beyond ps).
  - apply (run_leaves fuel s (ps + 1)); [exact Hlt|lia|exact E].
  - apply run_fault; [exact Hlt|exact E].
Qed.

(** *** States of a run *)

Lemma start_ok (input : list Z) : state_ok program (start input).
Proof.
  unfold state_ok, start; cbn [ip dp mem].
  rewrite SIZE_MAX_value.
  split; [lia|]. split; [lia|]. intros _. exact wf_data_init.
Qed.

(** The scans of a step inside the program end within [scan_fuel]: a step
    completes or faults. *)
Lemma exec_in_budget (s : state) :
  0 <= ip s < ps -> step s <> OutOfFuel.
Proof.
  intros Hip. unfold exec.
  destruct (fetch beyond program (ip s)) as [opcode| |] eqn:E;
    cbn [bind]; try discriminate.
  2:{ unfold fetch in E.
      destruct (if (0 <=? _) && _ then _ else _); discriminate. }
  assert (Hd : dispatch opcode_decode realloc_ok beyond program
                 (opcode_decode opcode) s <> OutOfFuel).
  { destruct (opcode_decode opcode); cbn [dispatch]; try discriminate.
    - pose proof (data_inc_in_budget realloc_ok (mem s) (dp s)).
      destruct (data_inc _ _ _) as [[ret d]| |]; cbn [bind];
        try discriminate; try contradiction.
    - pose proof (data_dec_in_budget realloc_ok (mem s) (dp s)).
      destruct (data_dec _ _ _) as [[ret d]| |]; cbn [bind];
        try discriminate; try contradiction.
    - pose proof (data_get_in_budget (mem s) (dp s)).
      destruct (data_get _ _) as [v| |]; cbn [bind];
        try discriminate; try contradiction.
    - destruct (stdin s) as [|input_val rest]; [discriminate|].
      cbn [mem dp].
      pose proof (data_set_in_budget realloc_ok (mem s) (dp s)
                    (wrap8 input_val)).
      destruct (data_set _ _ _ _) as [[ret d]| |]; cbn [bind];
        try discriminate; try contradiction.
    - pose proof (data_get_in_budget (mem s) (dp s)).
      destruct (data_get _ _) as [v| |]; cbn [bind];
        try discriminate; try contradiction.
      destruct (v =? 0); [|discriminate].
      pose proof (forward_in_budget opcode_t opcode_decode beyond program
                    program_fits (scan_fuel program) (ip s) 1
                    ltac:(lia)
                    ltac:(unfold scan_fuel, program_size in *; lia)).
      destruct (jmp_forward_loop _ _ _ _ _ _); cbn [bind];
        try discriminate; try contradiction.
    - pose proof (data_get_in_budget (mem s) (dp s)).
      destruct (data_get _ _) as [v| |]; cbn [bind];
        try discriminate; try contradiction.
      destruct (negb (v =? 0)); [|discriminate].
      pose proof (back_in_budget opcode_t opcode_decode beyond program
                    program_fits (scan_fuel program) (ip s) 1
                    ltac:(lia)
                    ltac:(unfold scan_fuel, program_size in *; lia)).
      destruct (jmp_back_loop _ _ _ _ _ _); cbn [bind];
        try discriminate; try contradiction. }
  destruct (dispatch _ _ _ _ _ _); cbn [bind];
    try discriminate; try contradiction.
Qed.

(** What [dispatch] leaves: a [size_t] data pointer, and a well-formed
    data memory unless the run is being ended. *)
Lemma dispatch_ok (x : instruction_t) (s s1 : state) :
  state_ok program s -> ip s < ps ->
  dispatch opcode_decode realloc_ok beyond program x s = Ok s1 ->
  0 <= dp s1 <= SIZE_MAX /\ (wf_data (mem s1) \/ ip s1 = ps).
Proof.
  intros (Hip & Hdp & Hwf) Hlt. specialize (Hwf Hlt).
  destruct x; cbn [dispatch].
  - intros [= <-]. cbn [set_dp dp mem]. split; [apply wrap_range|now left].
  - intros [= <-]. cbn [set_dp dp mem]. split; [apply wrap_range|now left].
  - destruct (data_inc _ _ _) as [[ret d]| |] eqn:E; cbn [bind];
      try discriminate.
    destruct (Z.eqb_spec ret 0) as [->|Hne]; cbn [negb]; intros [= <-];
      cbn [set_mem out_of_memory dp mem ip]; split; auto.
    left. exact (data_inc_wf realloc_ok _ _ _ Hwf E).
  - destruct (data_dec _ _ _) as [[ret d]| |] eqn:E; cbn [bind];
      try discriminate.
    destruct (Z.eqb_spec ret 0) as [->|Hne]; cbn [negb]; intros [= <-];
      cbn [set_mem out_of_memory dp mem ip]; split; auto.
    left. exact (data_dec_wf realloc_ok _ _ _ Hwf E).
  - destruct (data_get _ _) as [v| |]; cbn [bind]; try discriminate.
    intros [= <-]. cbn [dp mem]. auto.
  - destruct (stdin s) as [|input_val rest].
    + intros [= <-]. cbn [set_ip dp mem]. auto.
    + cbn [mem dp].
      destruct (data_set _ _ _ _) as [[ret d]| |] eqn:E; cbn [bind];
        try discriminate.
      destruct (Z.eqb_spec ret 0) as [->|Hne]; cbn [negb]; intros [= <-];
        cbn [set_mem out_of_memory dp mem ip]; split; auto.
      left. exact (data_set_wf realloc_ok _ _ _ _ Hwf E).
  - destruct (data_get _ _) as [v| |]; cbn [bind]; try discriminate.
    destruct (v =? 0).
    + destruct (jmp_forward_loop _ _ _ _ _ _); cbn [bind];
        try discriminate.
      intros [= <-]. cbn [set_ip dp mem]. auto.
    + intros [= <-]. auto.
  - destruct (data_get _ _) as [v| |]; cbn [bind]; try discriminate.
    destruct (negb (v =? 0)).
    + destruct (jmp_back_loop _ _ _ _ _ _); cbn [bind];
        try discriminate.
      intros [= <-]. cbn [set_ip dp mem]. auto.
    + intros [= <-]. auto.
  - intros [= <-]. auto.
Qed.

(** The invariant is kept by every step of the run loop. *)
Lemma exec_ok (s s' : state) :
  state_ok program s -> ip s < ps -> step s = Ok s' -> state_ok program s'.
Proof.
  intros Hok Hlt. unfold exec.
  destruct (fetch beyond program (ip s)) as [opcode| |]; cbn [bind];
    try discriminate.
  destruct (dispatch _ _ _ _ _ _) as [s1| |] eqn:E; cbn [bind];
    try discriminate.
  intros [= <-].
  destruct (dispatch_ok _ s s1 Hok Hlt E) as (Hdp & Hwf).
  unfold state_ok. cbn [set_ip ip dp mem].
  split; [apply wrap_range|]. split; [exact Hdp|].
  intros Hnext. destruct Hwf as [Hwf|Hend]; [exact Hwf|].
  assert (0 <= ps) by (unfold program_size; lia).
  rewrite Hend, wrap_small in Hnext by lia. lia.
Qed.

(** In a state of a run the cell under the data pointer can be read. *)
Lemma state_ok_get (s : state) :
  state_ok program s -> ip s < ps ->
  exists v, data_get (mem s) (dp s) = Ok v.
Proof.
  intros (_ & Hdp & Hwf) Hlt. apply data_get_total; [auto|lia].
Qed.

End RunFacts.

(** ** Jump resolution *)

(** C1 at a failing input.  An open without a matching close, on a zero
    cell: the forward scan increments [ip] to [program_size] and reads
    [program[program_size]] before it tests for the end of the program.
    Where that unit is not readable (the file fills its last page and the
    next page is not mapped) the process is killed by the read instead of
    ending the run at the end of the program. *)
Theorem unmatched_open_faults :
  brainfuck plenty unmapped (text "[") 1 []
    = Crashed BadFetch [] [] /\
  ichiglyph plenty unmapped (text "l1") 1 []
    = Crashed BadFetch [] [] /\
  brainfuck plenty unmapped (repeat " "%char 4095 ++ ["["%char]) 4096 []
    = Crashed BadFetch [] [] /\
  brainfuck plenty unmapped (text "+.[-].[") 9 []
    = Crashed BadFetch [1; 0] [].
Proof. repeat split; vm_compute; reflexivity. Qed.

(** C2: [INST_JMP_BACK] on a nonzero cell moves [ip] to the matching open
    found by the backward balance scan, so that execution resumes one
    instruction past it; without a matching open the run ends at once;
    on a zero cell the instruction falls through. *)
Theorem jmp_back_resolution
  (opcode_t : Type) (opcode_decode : opcode_t -> instruction_t)
  (realloc_ok : Z -> bool) (beyond : Z -> option opcode_t)
  (program : list opcode_t) (s : state)
  (program_fits : program_size program < SIZE_MAX)
  (Hip : 0 <= ip s)
  (Hinst : nth_error (decoded opcode_decode program) (Z.to_nat (ip s))
           = Some INST_JMP_BACK) :
  (forall v target,
     data_get (mem s) (dp s) = Ok v -> v <> 0 ->
     match_back opcode_decode program (ip s) = Some target ->
     0 <= target < ip s /\
     nth_error (decoded opcode_decode program) (Z.to_nat target)
       = Some INST_JMP_FORWARD /\
     exec opcode_decode realloc_ok beyond program s
       = Ok (set_ip s (target + 1))) /\
  (forall v fuel,
     data_get (mem s) (dp s) = Ok v -> v <> 0 ->
     match_back opcode_decode program (ip s) = None ->
     exec opcode_decode realloc_ok beyond program s
       = Ok (set_ip s (program_size program + 1)) /\
     run opcode_decode realloc_ok beyond program (S fuel) s
       = Returned 0 (stdout s) (stderr s)) /\
  (data_get (mem s) (dp s) = Ok 0 ->
   exec opcode_decode realloc_ok beyond program s
     = Ok (set_ip s (ip s + 1))).
Proof.
  split; [|split].
  - intros v target Hv Hnz Hm.
    exact (jmp_back_matched _ opcode_decode realloc_ok beyond program
             program_fits s v target Hip Hinst Hv Hnz Hm).
  - intros v fuel Hv Hnz Hm.
    pose proof (jmp_back_unmatched _ opcode_decode realloc_ok beyond program
                  program_fits s v Hip Hinst Hv Hnz Hm) as E.
    split; [exact E|].
    destruct (exec_at _ opcode_decode realloc_ok beyond program s _
                Hip Hinst) as [Hlt _].
    apply (run_leaves _ opcode_decode realloc_ok beyond program fuel s
             (program_size program + 1)); [exact Hlt|lia|exact E].
  - intros Hv.
    exact (jmp_back_falls_through _ opcode_decode realloc_ok beyond program
             program_fits s Hip Hinst Hv).
Qed.

Lemma jmp_back_resolution_witness :
  (program_size (text "[]") < SIZE_MAX /\ 0 <= ip (one_cell 1 1) /\
   nth_error (decoded Brainfuck.opcode_decode (text "[]"))
     (Z.to_nat (ip (one_cell 1 1))) = Some INST_JMP_BACK) /\
  (data_get (mem (one_cell 1 1)) (dp (one_cell 1 1)) = Ok 1 /\
   match_back Brainfuck.opcode_decode (text "[]") 1 = Some 0 /\
   exec Brainfuck.opcode_decode plenty unmapped (text "[]") (one_cell 1 1)
     = Ok (set_ip (one_cell 1 1) (0 + 1))) /\
  (match_back Brainfuck.opcode_decode (text "+]") 1 = None /\
   run Brainfuck.opcode_decode plenty unmapped (text "+]") 1 (one_cell 1 1)
     = Returned 0 [] []) /\
  (data_get (mem (one_cell 1 0)) (dp (one_cell 1 0)) = Ok 0 /\
   exec Brainfuck.opcode_decode plenty unmapped (text "[]") (one_cell 1 0)
     = Ok (set_ip (one_cell 1 0) (1 + 1))).
Proof.
  assert (Hfit : program_size (text "[]") < SIZE_MAX) by reflexivity.
  assert (Hfit' : program_size (text "+]") < SIZE_MAX) by reflexivity.
  assert (Hip : forall v, 0 <= ip (one_cell 1 v)) by (intros v; simpl; lia).
  assert (Hinst : forall v,
             nth_error (decoded Brainfuck.opcode_decode (text "[]"))
               (Z.to_nat (ip (one_cell 1 v))) = Some INST_JMP_BACK)
    by reflexivity.
  assert (Hinst' : nth_error (decoded Brainfuck.opcode_decode (text "+]"))
                     (Z.to_nat (ip (one_cell 1 1))) = Some INST_JMP_BACK)
    by reflexivity.
  assert (Hone : (1 : Z) <> 0) by discriminate.
  destruct (jmp_back_resolution ascii Brainfuck.opcode_decode plenty unmapped
              (text "[]") (one_cell 1 1) Hfit (Hip 1) (Hinst 1))
    as (Hmatched & _ & _).
  destruct (jmp_back_resolution ascii Brainfuck.opcode_decode plenty unmapped
              (text "+]") (one_cell 1 1) Hfit' (Hip 1) Hinst')
    as (_ & Hstray & _).
  destruct (jmp_back_resolution ascii Brainfuck.opcode_decode plenty unmapped
              (text "[]") (one_cell 1 0) Hfit (Hip 0) (Hinst 0))
    as (_ & _ & Hzero).
  split; [auto|]. split; [|split].
  - split; [reflexivity|]. split; [reflexivity|].
    apply (Hmatched 1 0); [reflexivity | exact Hone | reflexivity].
  - split; [reflexivity|].
    apply (Hstray 1 O); [reflexivity | exact Hone | reflexivity].
  - split; [reflexivity|]. apply Hzero. reflexivity.
Defined.

(** C3 at a failing input.  From the initial state of the one-instruction
    program [[]: the forward scan fetches the unit at index 1, which is
    [program_size].  The result of the scan depends on what the
    environment holds there: a fault where the unit is unreadable. *)
Theorem forward_scan_reads_past_end :
  program_size (text "[") = 1 /\
  fetch unmapped (text "[") 1 = Fault BadFetch /\
  jmp_forward_loop Brainfuck.opcode_decode unmapped (text "[")
    (scan_fuel (text "[")) 0 1 = Fault BadFetch /\
  jmp_forward_loop Brainfuck.opcode_decode
    (fun i => if i =? 1 then None else Some zero) (text "[")
    (scan_fuel (text "[")) 0 1 = Fault BadFetch /\
  jmp_forward_loop Brainfuck.opcode_decode zero_page (text "[")
    (scan_fuel (text "[")) 0 1 = Ok 1 /\
  jmp_forward_loop Ichiglyph.opcode_decode unmapped
    (Ichiglyph.load (text "l1"))
    (scan_fuel (Ichiglyph.load (text "l1"))) 0 1 = Fault BadFetch.
Proof. repeat split. Qed.

(** ** Pointer motion *)

(** C4, as amended: [INST_DP_DEC] at [dp = 0] wraps the data pointer to
    [SIZE_MAX] and the run goes on with the next instruction; no fault is
    raised. *)
Theorem dp_dec_at_zero_wraps
  (opcode_t : Type) (opcode_decode : opcode_t -> instruction_t)
  (realloc_ok : Z -> bool) (beyond : Z -> option opcode_t)
  (program : list opcode_t) (s : state)
  (program_fits : program_size program < SIZE_MAX)
  (Hip : 0 <= ip s)
  (Hinst : nth_error (decoded opcode_decode program) (Z.to_nat (ip s))
           = Some INST_DP_DEC)
  (Hdp : dp s = 0) :
  exec opcode_decode realloc_ok beyond program s
    = Ok (mk_state (ip s + 1) SIZE_MAX (mem s) (stdin s) (stdout s)
                   (stderr s)).
Proof.
  rewrite (dp_dec_exec _ opcode_decode realloc_ok beyond program
             program_fits s Hip Hinst).
  rewrite Hdp. reflexivity.
Qed.

Lemma dp_dec_at_zero_wraps_witness :
  (program_size (text "<") < SIZE_MAX /\ 0 <= ip (start []) /\
   nth_error (decoded Brainfuck.opcode_decode (text "<"))
     (Z.to_nat (ip (start []))) = Some INST_DP_DEC /\
   dp (start []) = 0) /\
  exec Brainfuck.opcode_decode plenty zero_page (text "<") (start [])
    = Ok (mk_state (ip (start []) + 1) SIZE_MAX (mem (start []))
                   (stdin (start [])) (stdout (start []))
                   (stderr (start []))).
Proof.
  assert (Hfit : program_size (text "<") < SIZE_MAX) by reflexivity.
  assert (Hip : 0 <= ip (start [])) by (simpl; lia).
  assert (Hinst : nth_error (decoded Brainfuck.opcode_decode (text "<"))
                    (Z.to_nat (ip (start []))) = Some INST_DP_DEC)
    by reflexivity.
  assert (Hdp : dp (start []) = 0) by reflexivity.
  split; [auto|].
  exact (dp_dec_at_zero_wraps ascii Brainfuck.opcode_decode plenty zero_page
           (text "<") (start []) Hfit Hip Hinst Hdp).
Defined.

(** C4, as stated, fails: [<] from the initial state is no fault.  The
    step leaves [dp = SIZE_MAX], the following [.] is executed and prints
    the (zero) cell there, and [main] returns 0 with nothing on
    [stderr]. *)
Lemma dp_dec_at_zero_no_fault :
  exec Brainfuck.opcode_decode plenty zero_page (text "<") (start [])
    = Ok (mk_state 1 SIZE_MAX data_init [] [] []) /\
  brainfuck plenty zero_page (text "<.") 2 [] = Returned 0 [0] [] /\
  ichiglyph plenty zero_page2 (text "lI1l") 2 [] = Returned 0 [0] [].
Proof. repeat split. Qed.

(** ** How a run ends *)

(** C5, as amended: a run that ends because a backward scan found no
    matching open, or because a forward scan found no matching close and
    its read of the unit at index [program_size] did not fault, leaves the
    run loop and [main] returns 0 with the streams as they were.  A run
    that reaches the end of the program does exactly the same: there is no
    outcome of its own for an unmatched bracket. *)
Theorem unmatched_bracket_returns_0
  (opcode_t : Type) (opcode_decode : opcode_t -> instruction_t)
  (realloc_ok : Z -> bool) (beyond : Z -> option opcode_t)
  (program : list opcode_t) (s : state) (fuel : nat)
  (program_fits : program_size program < SIZE_MAX)
  (Hip : 0 <= ip s) :
  (forall v,
     nth_error (decoded opcode_decode program) (Z.to_nat (ip s))
       = Some INST_JMP_BACK ->
     data_get (mem s) (dp s) = Ok v -> v <> 0 ->
     match_back opcode_decode program (ip s) = None ->
     run opcode_decode realloc_ok beyond program (S fuel) s
       = Returned 0 (stdout s) (stderr s)) /\
  (nth_error (decoded opcode_decode program) (Z.to_nat (ip s))
     = Some INST_JMP_FORWARD ->
   data_get (mem s) (dp s) = Ok 0 ->
   match_forward opcode_decode program (ip s) = None ->
   beyond (program_size program) <> None ->
   run opcode_decode realloc_ok beyond program (S fuel) s
     = Returned 0 (stdout s) (stderr s)) /\
  (program_size program <= ip s ->
   run opcode_decode realloc_ok beyond program fuel s
     = Returned 0 (stdout s) (stderr s)).
Proof.
  split; [|split].
  - intros v Hinst Hv Hnz Hm.
    destruct (exec_at _ opcode_decode realloc_ok beyond program s _
                Hip Hinst) as [Hlt _].
    apply (run_leaves _ opcode_decode realloc_ok beyond program fuel s
             (program_size program + 1)); [exact Hlt|lia|].
    exact (jmp_back_unmatched _ opcode_decode realloc_ok beyond program
             program_fits s v Hip Hinst Hv Hnz Hm).
  - intros Hinst Hv Hm Hread.
    destruct (exec_at _ opcode_decode realloc_ok beyond program s _
                Hip Hinst) as [Hlt _].
    apply (run_leaves _ opcode_decode realloc_ok beyond program fuel s
             (program_size program + 1)); [exact Hlt|lia|].
    rewrite (jmp_forward_unmatched _ opcode_decode realloc_ok beyond program
               program_fits s Hip Hinst Hv Hm).
    destruct (beyond (program_size program)); [reflexivity|].
    now elim Hread.
  - apply run_finished.
Qed.

Lemma unmatched_bracket_returns_0_witness :
  (program_size (text "+]") < SIZE_MAX /\ 0 <= ip (one_cell 1 1)) /\
  (match_back Brainfuck.opcode_decode (text "+]") (ip (one_cell 1 1)) = None /\
   run Brainfuck.opcode_decode plenty zero_page (text "+]") 1 (one_cell 1 1)
     = Returned 0 [] []) /\
  (program_size (text "[") < SIZE_MAX /\ 0 <= ip (start [])) /\
  (match_forward Brainfuck.opcode_decode (text "[") (ip (start [])) = None /\
   run Brainfuck.opcode_decode plenty zero_page (text "[") 1 (start [])
     = Returned 0 [] []) /\
  run Brainfuck.opcode_decode plenty zero_page (text "+") 0 (one_cell 1 1)
    = Returned 0 [] [].
Proof.
  assert (Hfit : program_size (text "+]") < SIZE_MAX) by reflexivity.
  assert (Hfit1 : program_size (text "[") < SIZE_MAX) by reflexivity.
  assert (Hfit2 : program_size (text "+") < SIZE_MAX) by reflexivity.
  assert (Hip : 0 <= ip (one_cell 1 1)) by (simpl; lia).
  assert (Hip0 : 0 <= ip (start [])) by (simpl; lia).
  assert (Hone : (1 : Z) <> 0) by discriminate.
  assert (Hread : zero_page (program_size (text "[")) <> None)
    by discriminate.
  destruct (unmatched_bracket_returns_0 ascii Brainfuck.opcode_decode plenty
              zero_page (text "+]") (one_cell 1 1) O Hfit Hip)
    as (Hback & _ & _).
  destruct (unmatched_bracket_returns_0 ascii Brainfuck.opcode_decode plenty
              zero_page (text "[") (start []) O Hfit1 Hip0)
    as (_ & Hforward & _).
  destruct (unmatched_bracket_returns_0 ascii Brainfuck.opcode_decode plenty
              zero_page (text "+") (one_cell 1 1) O Hfit2 Hip)
    as (_ & _ & Hclean).
  split; [auto|]. split; [|split; [auto|split]].
  - split; [reflexivity|].
    apply (Hback 1); [reflexivity | reflexivity | exact Hone | reflexivity].
  - split; [reflexivity|].
    apply Hforward; [reflexivity | reflexivity | reflexivity | exact Hread].
  - apply Hclean. vm_compute. discriminate.
Defined.

(** C5, as stated, fails: the run of [+]] ends in the backward scan that
    finds no open, the run of [[] ends in the forward scan that finds no
    close, and the caller sees of each what it sees of the run of [+],
    which reaches the end of its program: [main] returned 0, nothing
    written. *)
Lemma unmatched_bracket_not_told_apart :
  match_back Brainfuck.opcode_decode (text "+]") 1 = None /\
  match_forward Brainfuck.opcode_decode (text "[") 0 = None /\
  brainfuck plenty zero_page (text "+]") 2 []
    = brainfuck plenty zero_page (text "+") 2 [] /\
  brainfuck plenty zero_page (text "[") 2 []
    = brainfuck plenty zero_page (text "+") 2 [] /\
  brainfuck plenty zero_page (text "+") 2 [] = Returned 0 [] [] /\
  ichiglyph plenty zero_page2 (text "IlI1") 2 []
    = ichiglyph plenty zero_page2 (text "Il") 2 [].
Proof. repeat split; vm_compute; reflexivity. Qed.

(** The first instruction of [.,.] and of [1l1I1l], in any environment:
    the zero cell is printed. *)
Lemma output_input_output_first
  (opcode_t : Type) (opcode_decode : opcode_t -> instruction_t)
  (realloc_ok : Z -> bool) (beyond : Z -> option opcode_t)
  (a b c : opcode_t) :
  opcode_decode a = INST_VAL_OUTPUT ->
  exec opcode_decode realloc_ok beyond [a; b; c] (start [])
    = Ok (mk_state 1 0 data_init [] [0] []).
Proof.
  intros Ha. unfold exec, fetch. cbn. rewrite Ha. reflexivity.
Qed.

Lemma output_input_output
  (opcode_t : Type) (opcode_decode : opcode_t -> instruction_t)
  (realloc_ok : Z -> bool) (beyond : Z -> option opcode_t)
  (a b c : opcode_t) (fuel : nat) :
  opcode_decode a = INST_VAL_OUTPUT ->
  opcode_decode b = INST_VAL_ACCEPT ->
  interpret opcode_decode realloc_ok beyond [a; b; c] (S (S fuel)) []
    = Returned 0 [0] [].
Proof.
  intros Ha Hb. unfold interpret.
  assert (Hfit : program_size [a; b; c] < SIZE_MAX) by reflexivity.
  rewrite (run_step _ opcode_decode realloc_ok beyond [a; b; c] (S fuel)
             (start []) (mk_state 1 0 data_init [] [0] []));
    [|reflexivity|apply output_input_output_first; exact Ha].
  apply (run_leaves _ opcode_decode realloc_ok beyond [a; b; c] fuel
           (mk_state 1 0 data_init [] [0] []) (3 + 1));
    [reflexivity|discriminate|].
  apply (accept_at_eof _ opcode_decode realloc_ok beyond [a; b; c] Hfit);
    [discriminate| |reflexivity].
  cbn. now rewrite Hb.
Qed.

(** C10: [INST_VAL_ACCEPT] at the end of the input ends the run: the cell
    is not written, nothing more is executed and [main] returns 0 with no
    message; and [Output Input Output] on an empty input prints one byte,
    the zero cell, in both encodings and in every environment. *)
Theorem end_of_input_ends_run :
  (forall (opcode_t : Type) (opcode_decode : opcode_t -> instruction_t)
          (realloc_ok : Z -> bool) (beyond : Z -> option opcode_t)
          (program : list opcode_t) (s : state) (fuel : nat),
     program_size program < SIZE_MAX ->
     0 <= ip s ->
     nth_error (decoded opcode_decode program) (Z.to_nat (ip s))
       = Some INST_VAL_ACCEPT ->
     stdin s = [] ->
     exec opcode_decode realloc_ok beyond program s
       = Ok (set_ip s (program_size program + 1)) /\
     run opcode_decode realloc_ok beyond program (S fuel) s
       = Returned 0 (stdout s) (stderr s)) /\
  (forall realloc_ok beyond fuel,
     brainfuck realloc_ok beyond (text ".,.") (S (S fuel)) []
       = Returned 0 [0] []) /\
  (forall realloc_ok beyond fuel,
     ichiglyph realloc_ok beyond (text "1l1I1l") (S (S fuel)) []
       = Returned 0 [0] []).
Proof.
  split; [|split].
  - intros opcode_t opcode_decode realloc_ok beyond program s fuel
           Hfit Hip Hinst Hin.
    pose proof (accept_at_eof _ opcode_decode realloc_ok beyond program
                  Hfit s Hip Hinst Hin) as E.
    split; [exact E|].
    destruct (exec_at _ opcode_decode realloc_ok beyond program s _
                Hip Hinst) as [Hlt _].
    apply (run_leaves _ opcode_decode realloc_ok beyond program fuel s
             (program_size program + 1)); [exact Hlt|lia|exact E].
  - intros. apply output_input_output; reflexivity.
  - intros. apply output_input_output; reflexivity.
Qed.

Lemma end_of_input_ends_run_witness :
  (program_size (text ",+.") < SIZE_MAX /\ 0 <= ip (start []) /\
   nth_error (decoded Brainfuck.opcode_decode (text ",+."))
     (Z.to_nat (ip (start []))) = Some INST_VAL_ACCEPT /\
   stdin (start []) = []) /\
  exec Brainfuck.opcode_decode plenty unmapped (text ",+.") (start [])
    = Ok (set_ip (start []) (program_size (text ",+.") + 1)) /\
  run Brainfuck.opcode_decode plenty unmapped (text ",+.") 1 (start [])
    = Returned 0 [] [].
Proof.
  assert (Hfit : program_size (text ",+.") < SIZE_MAX) by reflexivity.
  assert (Hip : 0 <= ip (start [])) by (simpl; lia).
  assert (Hinst : nth_error (decoded Brainfuck.opcode_decode (text ",+."))
                    (Z.to_nat (ip (start []))) = Some INST_VAL_ACCEPT)
    by reflexivity.
  assert (Hin : stdin (start []) = []) by reflexivity.
  split; [auto|].
  destruct end_of_input_ends_run as (Hgen & _ & _).
  exact (Hgen ascii Brainfuck.opcode_decode plenty unmapped (text ",+.")
           (start []) O Hfit Hip Hinst Hin).
Defined.

(** ** The two interpreters on the same instructions *)

Section Lockstep.

Variables A B : Type.
Variable decode_a : A -> instruction_t.
Variable decode_b : B -> instruction_t.
Variable realloc_ok : Z -> bool.
Variable beyond_a : Z -> option A.
Variable beyond_b : Z -> option B.
Variable program_a : list A.
Variable program_b : list B.

Local Abbreviation ps := (program_size program_a).

(** The two programs hold the same instructions. *)
Hypothesis same_code : map decode_a program_a = map decode_b program_b.

Hypothesis program_fits : ps < SIZE_MAX.

(** The read of the unit after the last one faults in both runs or in
    neither. *)
Hypothesis same_mapping :
  beyond_a ps = None <-> beyond_b (program_size program_b) = None.

Lemma same_size : program_size program_b = ps.
Proof.
  unfold program_size. f_equal.
  rewrite <- (length_map decode_b program_b), <- same_code.
  apply length_map.
Qed.

Lemma same_fetch (i : Z) :
  0 <= i < ps ->
  exists a b,
    fetch beyond_a program_a i = Ok a /\
    fetch beyond_b program_b i = Ok b /\
    decode_a a = decode_b b.
Proof.
  intros Hi.
  destruct (nth_error (decoded decode_a program_a) (Z.to_nat i))
    as [x|] eqn:E.
  - destruct (fetch_inside A decode_a beyond_a program_a i x
                ltac:(lia) E) as (_ & a & _ & Ha & Hda).
    unfold decoded in E. rewrite same_code in E.
    destruct (fetch_inside B decode_b beyond_b program_b i x
                ltac:(lia) E) as (_ & b & _ & Hb & Hdb).
    exists a, b. split; [exact Ha|]. split; [exact Hb|congruence].
  - apply nth_error_None in E. unfold decoded in E.
    rewrite length_map in E. unfold program_size in Hi. lia.
Qed.

Lemma same_forward (fuel : nat) :
  forall i b, 0 <= i <= ps -> (Z.to_nat (ps - i) < fuel)%nat ->
  jmp_forward_loop decode_a beyond_a program_a fuel i b
  = jmp_forward_loop decode_b beyond_b program_b fuel i b.
Proof.
  induction fuel as [|fuel IH]; intros i b Hi Hfuel; [lia|].
  cbn [jmp_forward_loop]. rewrite same_size.
  destruct (b =? 0); [reflexivity|].
  destruct (Z.eqb_spec i ps); [reflexivity|].
  rewrite (wrap_small (i + 1)) by lia.
  destruct (Z.eq_dec (i + 1) ps) as [Hend|Hin].
  - rewrite Hend.
    rewrite (fetch_at_end A beyond_a program_a).
    pose proof (fetch_at_end B beyond_b program_b) as Eb.
    rewrite same_size in Eb. rewrite Eb.
    destruct fuel as [|fuel]; [lia|].
    pose proof (forward_at_end A decode_a beyond_a program_a fuel) as Fa.
    pose proof (forward_at_end B decode_b beyond_b program_b fuel) as Fb.
    rewrite same_size in Fb.
    rewrite same_size in same_mapping.
    destruct (beyond_a ps) as [a|], (beyond_b ps) as [b'|]; cbn [bind].
    + destruct (decode_a a), (decode_b b'); rewrite Fa, Fb; reflexivity.
    + destruct same_mapping as [_ H]. now discriminate H.
    + destruct same_mapping as [H _]. now discriminate H.
    + reflexivity.
  - destruct (same_fetch (i + 1) ltac:(lia)) as (a & b' & Ha & Hb & Hd).
    rewrite Ha, Hb. cbn [bind]. rewrite Hd.
    destruct (decode_b b'); apply IH; lia.
Qed.

Lemma same_back (fuel : nat) :
  forall i b, 0 <= i <= ps ->
  jmp_back_loop decode_a beyond_a program_a fuel i b
  = jmp_back_loop decode_b beyond_b program_b fuel i b.
Proof.
  induction fuel as [|fuel IH]; intros i b Hi; [reflexivity|].
  cbn [jmp_back_loop]. rewrite same_size.
  destruct (b =? 0); [reflexivity|].
  destruct (Z.eqb_spec i 0); [reflexivity|].
  rewrite (wrap_small (i - 1)) by lia.
  destruct (same_fetch (i - 1) ltac:(lia)) as (a & b' & Ha & Hb & Hd).
  rewrite Ha, Hb. cbn [bind]. rewrite Hd.
  destruct (decode_b b'); apply IH; lia.
Qed.

Lemma same_dispatch (x : instruction_t) (s : state) :
  0 <= ip s < ps ->
  dispatch decode_a realloc_ok beyond_a program_a x s
  = dispatch decode_b realloc_ok beyond_b program_b x s.
Proof.
  intros Hip.
  assert (Hfuel : scan_fuel program_b = scan_fuel program_a).
  { unfold scan_fuel. f_equal.
    rewrite <- (length_map decode_b program_b), <- same_code.
    apply length_map. }
  destruct x; cbn [dispatch]; unfold out_of_memory;
    rewrite ?same_size, ?Hfuel; try reflexivity.
  - destruct (data_get (mem s) (dp s)) as [v| |]; cbn [bind];
      try reflexivity.
    destruct (v =? 0); [|reflexivity].
    rewrite same_forward; [reflexivity|lia|unfold scan_fuel, program_size; lia].
  - destruct (data_get (mem s) (dp s)) as [v| |]; cbn [bind];
      try reflexivity.
    destruct (negb (v =? 0)); [|reflexivity].
    rewrite same_back; [reflexivity|lia].
Qed.

Lemma same_exec (s : state) :
  0 <= ip s < ps ->
  exec decode_a realloc_ok beyond_a program_a s
  = exec decode_b realloc_ok beyond_b program_b s.
Proof.
  intros Hip. unfold exec.
  destruct (same_fetch (ip s) Hip) as (a & b & Ha & Hb & Hd).
  rewrite Ha, Hb. cbn [bind]. rewrite Hd, same_dispatch by exact Hip.
  reflexivity.
Qed.

Lemma exec_ip_range (s s' : state) :
  exec decode_a realloc_ok beyond_a program_a s = Ok s' -> 0 <= ip s'.
Proof.
  unfold exec. intros H.
  destruct (fetch _ _ _); cbn [bind] in H; try discriminate.
  destruct (dispatch _ _ _ _ _ _); cbn [bind] in H; try discriminate.
  injection H as <-. cbn [set_ip ip]. apply wrap_range.
Qed.

Lemma same_run (fuel : nat) :
  forall s, 0 <= ip s ->
  run decode_a realloc_ok beyond_a program_a fuel s
  = run decode_b realloc_ok beyond_b program_b fuel s.
Proof.
  induction fuel as [|fuel IH]; intros s Hip; cbn [run];
    rewrite same_size; [reflexivity|].
  destruct (Z.ltb_spec (ip s) ps); [|reflexivity].
  rewrite <- same_exec by lia.
  destruct (exec decode_a realloc_ok beyond_a program_a s) as [s'| |] eqn:E;
    try reflexivity.
  apply IH. exact (exec_ip_range s s' E).
Qed.

End Lockstep.

(** The backward scan and the fetch of the run loop stay inside the
    program: what lies after the program has no part in them. *)
Lemma back_scan_stays_inside
  (opcode_t : Type) (opcode_decode : opcode_t -> instruction_t)
  (beyond beyond' : Z -> option opcode_t) (program : list opcode_t)
  (fuel : nat) (i balance : Z) :
  program_size program < SIZE_MAX -> 0 <= i <= program_size program ->
  jmp_back_loop opcode_decode beyond program fuel i balance
  = jmp_back_loop opcode_decode beyond' program fuel i balance.
Proof.
  intros Hfit Hi.
  exact (same_back _ _ opcode_decode opcode_decode beyond beyond'
           program program eq_refl Hfit fuel i balance Hi).
Qed.



(** ** Sample runs *)

Example run_inc_inc_inc_output :
  brainfuck plenty zero_page (text "+++.") 4 [] = Returned 0 [3] [] /\
  ichiglyph plenty zero_page2 (text "IlIlIl1l") 4 [] = Returned 0 [3] [].
Proof. split; vm_compute; reflexivity. Qed.

Example run_countdown :
  brainfuck plenty zero_page (text "+++[.-]") 20 [] = Returned 0 [3; 2; 1] [].
Proof. vm_compute; reflexivity. Qed.

Example run_skipped_loop :
  brainfuck plenty zero_page (text "[+.]+.") 4 [] = Returned 0 [1] [].
Proof. vm_compute; reflexivity. Qed.

Example run_nested_loops :
  brainfuck plenty zero_page (text "+[>[.]<-]+.") 20 [] = Returned 0 [1] [].
Proof. vm_compute; reflexivity. Qed.

Example run_wraps_cells :
  brainfuck plenty zero_page (text "-.+.") 4 [] = Returned 0 [255; 0] [].
Proof. vm_compute; reflexivity. Qed.

Example run_echo :
  brainfuck plenty zero_page (text ",[.,]") 20 [104; 105]
    = Returned 0 [104; 105] [].
Proof. vm_compute; reflexivity. Qed.

Example run_out_of_memory :
  brainfuck (fun _ => false) zero_page (text "+.") 4 []
    = Returned 0 [] [Out_of_memory].
Proof. vm_compute; reflexivity. Qed.

(** * Further properties of the code *)

(** ** Decoding, then encoding *)

Lemma bf_opcode_of_instruction (opcode : ascii) :
  Brainfuck.opcode_decode opcode <> INST_NOP ->
  Brainfuck.encode (Brainfuck.opcode_decode opcode) = [opcode].
Proof.
  intros Hinst. destruct opcode as [b0 b1 b2 b3 b4 b5 b6 b7].
  destruct b0, b1, b2, b3, b4, b5, b6, b7;
    first [exfalso; apply Hinst; reflexivity | reflexivity].
Qed.

(** X1: a byte that brainfuck.c decodes to an instruction is the opcode
    that ig2bf.c writes for that instruction, and no other byte decodes
    to the same instruction. *)
Theorem bf_encode_decode (opcode : ascii)
  (Hinst : Brainfuck.opcode_decode opcode <> INST_NOP) :
  Brainfuck.encode (Brainfuck.opcode_decode opcode) = [opcode] /\
  forall opcode',
    Brainfuck.opcode_decode opcode' = Brainfuck.opcode_decode opcode ->
    opcode' = opcode.
Proof.
  split; [exact (bf_opcode_of_instruction opcode Hinst)|].
  intros opcode' Hsame.
  assert (H : [opcode'] = [opcode]).
  { rewrite <- (bf_opcode_of_instruction opcode') by congruence.
    rewrite Hsame. exact (bf_opcode_of_instruction opcode Hinst). }
  now injection H.
Qed.

Lemma bf_encode_decode_witness :
  Brainfuck.opcode_decode "["%char <> INST_NOP /\
  Brainfuck.encode (Brainfuck.opcode_decode "["%char) = ["["%char].
Proof.
  assert (H : Brainfuck.opcode_decode "["%char <> INST_NOP) by discriminate.
  split; [exact H|]. exact (proj1 (bf_encode_decode "["%char H)).
Defined.

(** The first byte of a unit that decodes to an instruction is a glyph. *)
Lemma ig_decode_first (a b : ascii) :
  Ichiglyph.opcode_decode (a, b) <> INST_NOP ->
  a = "l"%char \/ a = "I"%char \/ a = "1"%char.
Proof.
  destruct a as [b0 b1 b2 b3 b4 b5 b6 b7].
  destruct b0, b1, b2, b3, b4, b5, b6, b7;
    cbn [Ichiglyph.opcode_decode fst];
    first [intros H; exfalso; apply H; reflexivity | auto].
Qed.

Lemma ig_opcode_of_instruction (opcode : ichiglyph_opcode_t) :
  Ichiglyph.opcode_decode opcode <> INST_NOP ->
  Ichiglyph.encode (Ichiglyph.opcode_decode opcode) = unit_bytes opcode /\
  glyph (fst opcode) = true /\ glyph (snd opcode) = true.
Proof.
  intros Hinst. destruct opcode as [a b].
  destruct (ig_decode_first a b Hinst) as [->|[->| ->]];
    destruct b as [b0 b1 b2 b3 b4 b5 b6 b7];
    destruct b0, b1, b2, b3, b4, b5, b6, b7;
    first
      [ exfalso; apply Hinst; reflexivity
      | split; [reflexivity|]; split; reflexivity ].
Qed.

(** X2: a pair of bytes that ichiglyph.c decodes to an instruction is the
    opcode that bf2ig.c writes for that instruction and is made of two
    glyphs, and no other pair decodes to the same instruction; the pair
    [11], made of glyphs, is no instruction. *)
Theorem ig_encode_decode (opcode : ichiglyph_opcode_t)
  (Hinst : Ichiglyph.opcode_decode opcode <> INST_NOP) :
  Ichiglyph.encode (Ichiglyph.opcode_decode opcode) = unit_bytes opcode /\
  glyph (fst opcode) = true /\ glyph (snd opcode) = true /\
  opcode <> ("1", "1")%char /\
  forall opcode',
    Ichiglyph.opcode_decode opcode' = Ichiglyph.opcode_decode opcode ->
    opcode' = opcode.
Proof.
  destruct (ig_opcode_of_instruction opcode Hinst) as (Henc & Hfst & Hsnd).
  split; [exact Henc|]. split; [exact Hfst|]. split; [exact Hsnd|]. split.
  - intros ->. apply Hinst. reflexivity.
  - intros opcode' Hsame.
    destruct (ig_opcode_of_instruction opcode') as (Henc' & _);
      [congruence|].
    rewrite Hsame, Henc in Henc'. destruct opcode, opcode'.
    unfold unit_bytes in Henc'. cbn [fst snd] in Henc'. congruence.
Qed.

Lemma ig_encode_decode_witness :
  Ichiglyph.opcode_decode ("I", "1")%char <> INST_NOP /\
  Ichiglyph.encode (Ichiglyph.opcode_decode ("I", "1")%char)
    = unit_bytes ("I", "1")%char /\
  Ichiglyph.opcode_decode ("1", "1")%char = INST_NOP.
Proof.
  assert (H : Ichiglyph.opcode_decode ("I", "1")%char <> INST_NOP)
    by discriminate.
  split; [exact H|]. split; [|reflexivity].
  exact (proj1 (ig_encode_decode ("I", "1")%char H)).
Defined.

(** ** The source file as a program *)

(** ichiglyph.c and ig2bf.c read the file in units of two bytes:
    [program_size = st_size / 2], and a dangling last byte is never
    looked at. *)
Lemma ig_load_app (units : list ichiglyph_opcode_t) (rest : list ascii) :
  Ichiglyph.load (flat_map unit_bytes units ++ rest)
  = units ++ Ichiglyph.load rest.
Proof.
  induction units as [|[a b] units IH]; [reflexivity|].
  cbn [flat_map unit_bytes fst snd app Ichiglyph.load]. now rewrite IH.
Qed.

Lemma ig_load_bytes (file : list ascii) :
  exists tail,
    file = flat_map unit_bytes (Ichiglyph.load file) ++ tail /\
    (length tail <= 1)%nat.
Proof.
  assert (H : forall n (f : list ascii), (length f <= n)%nat ->
            exists tail,
              f = flat_map unit_bytes (Ichiglyph.load f) ++ tail /\
              (length tail <= 1)%nat).
  { induction n as [|n IH]; intros f Hn.
    - destruct f; [|simpl in Hn; lia]. exists []. split; [reflexivity|auto].
    - destruct f as [|a [|b f]].
      + exists []. split; [reflexivity|auto].
      + exists [a]. split; [reflexivity|auto].
      + destruct (IH f) as (tail & Hf & Ht); [simpl in Hn; lia|].
        exists tail. split; [|exact Ht].
        cbn [Ichiglyph.load flat_map unit_bytes fst snd app].
        now rewrite <- Hf. }
  exact (H (length file) file (le_n _)).
Qed.

(** X3: ichiglyph.c and ig2bf.c take [st_size / 2] units from a file of
    [st_size] bytes, and the byte that is left over when [st_size] is odd
    is not part of the program: appending one byte to a file of even
    size leaves the program as it is. *)
Theorem ig_load_size (file : list ascii) (c : ascii) :
  program_size (Ichiglyph.load file) = Z.of_nat (length file) / 2 /\
  (Nat.even (length file) = true ->
   Ichiglyph.load (file ++ [c]) = Ichiglyph.load file).
Proof.
  destruct (ig_load_bytes file) as (tail & Hf & Ht).
  assert (Hlen : forall units : list ichiglyph_opcode_t,
            length (flat_map unit_bytes units) = (2 * length units)%nat).
  { induction units as [|u units IH]; [reflexivity|].
    cbn [flat_map unit_bytes app length]. rewrite IH. lia. }
  split.
  - unfold program_size.
    rewrite Hf at 2. rewrite length_app, Hlen.
    destruct tail as [|t [|t' tail]]; simpl in Ht; try lia;
      cbn [length].
    + replace (Z.of_nat (2 * length (Ichiglyph.load file) + 0))
        with (Z.of_nat (length (Ichiglyph.load file)) * 2) by lia.
      now rewrite Z.div_mul.
    + replace (Z.of_nat (2 * length (Ichiglyph.load file) + 1))
        with (1 + Z.of_nat (length (Ichiglyph.load file)) * 2) by lia.
      rewrite Z.div_add by lia. reflexivity.
  - intros Heven.
    destruct tail as [|t [|t' tail]]; simpl in Ht; try lia.
    + rewrite app_nil_r in Hf. rewrite Hf at 1.
      rewrite ig_load_app. cbn [Ichiglyph.load]. apply app_nil_r.
    + exfalso. rewrite Hf, length_app, Hlen in Heven.
      cbn [length] in Heven.
      replace (2 * length (Ichiglyph.load file) + 1)%nat
        with (S (2 * length (Ichiglyph.load file))) in Heven by lia.
      rewrite Nat.even_succ, Nat.odd_mul in Heven. discriminate.
Qed.

Lemma ig_load_size_witness :
  Nat.even (length (text "l1I1")) = true /\
  program_size (Ichiglyph.load (text "l1I1")) = 2 /\
  Ichiglyph.load (text "l1I1" ++ ["l"%char]) = Ichiglyph.load (text "l1I1").
Proof.
  assert (H : Nat.even (length (text "l1I1")) = true) by reflexivity.
  split; [exact H|]. split; [reflexivity|].
  exact (proj2 (ig_load_size (text "l1I1") "l"%char) H).
Defined.

(** ** The transpilers *)

Lemma bf2ig_encode_text (file : list ascii) :
  bf2ig file = ig_encode_text (map Brainfuck.opcode_decode file).
Proof.
  unfold bf2ig, ig_encode_text, Brainfuck.load.
  induction file as [|c file IH]; [reflexivity|].
  cbn [flat_map map]. now rewrite IH.
Qed.

Lemma ig2bf_encode_text (file : list ascii) :
  ig2bf file
  = bf_encode_text (map Ichiglyph.opcode_decode (Ichiglyph.load file)).
Proof.
  unfold ig2bf, bf_encode_text.
  induction (Ichiglyph.load file) as [|u units IH]; [reflexivity|].
  cbn [flat_map map]. now rewrite IH.
Qed.

Lemma ig_encode_bytes (x : instruction_t) (rest : list ascii) :
  x <> INST_NOP ->
  exists opcode,
    Ichiglyph.encode x = unit_bytes opcode /\
    Ichiglyph.opcode_decode opcode = x /\
    Ichiglyph.load (Ichiglyph.encode x ++ rest)
    = opcode :: Ichiglyph.load rest.
Proof.
  intros Hx.
  destruct x;
    (now elim Hx) ||
    (eexists (_, _); split; [reflexivity|]; split; reflexivity).
Qed.

(** X4: what bf2ig.c writes: two glyphs for every instruction of the source
    and nothing for any other byte, each pair being the opcode of the
    instruction it stands for. *)
Theorem bf2ig_output (file : list ascii) :
  length (bf2ig file) = (2 * length (filter bf_instruction file))%nat /\
  forallb glyph (bf2ig file) = true /\
  map Ichiglyph.opcode_decode (Ichiglyph.load (bf2ig file))
  = map Brainfuck.opcode_decode (filter bf_instruction file).
Proof.
  unfold bf2ig, Brainfuck.load, bf_instruction.
  induction file as [|c file (IHlen & IHglyph & IHcode)];
    [repeat split|].
  cbn [flat_map filter].
  destruct (Brainfuck.opcode_decode c) eqn:E; cbn [proper negb
    instruction_eqb Ichiglyph.encode app length forallb map
    Ichiglyph.load];
    rewrite ?E, ?IHlen, ?IHglyph, ?IHcode;
    (split; [lia|]); split; reflexivity.
Qed.

(** X5: what ig2bf.c writes: one byte for every unit of the source that is an
    instruction, nothing for any other unit nor for a dangling byte. *)
Theorem ig2bf_output (file : list ascii) :
  length (ig2bf file)
  = length (filter ig_instruction (Ichiglyph.load file)) /\
  forallb bf_instruction (ig2bf file) = true /\
  map Brainfuck.opcode_decode (ig2bf file)
  = map Ichiglyph.opcode_decode
      (filter ig_instruction (Ichiglyph.load file)).
Proof.
  unfold ig2bf, ig_instruction, bf_instruction.
  induction (Ichiglyph.load file) as [|u units (IHlen & IHinst & IHcode)];
    [repeat split|].
  cbn [flat_map filter].
  destruct (Ichiglyph.opcode_decode u) eqn:E; cbn [proper negb
    instruction_eqb Brainfuck.encode app length forallb map];
    rewrite ?E, ?IHlen, ?IHinst, ?IHcode;
    (split; [reflexivity|]); split; reflexivity.
Qed.

Lemma filter_all {A : Type} (f : A -> bool) (l : list A) :
  forallb f l = true -> filter f l = l.
Proof.
  induction l as [|x l IH]; [reflexivity|].
  cbn [forallb filter]. intros H. apply andb_prop in H.
  destruct H as [Hx Hl]. rewrite Hx. f_equal. auto.
Qed.

Lemma ig2bf_instructions (file : list ascii) :
  forallb bf_instruction (ig2bf file) = true.
Proof.
  unfold ig2bf, bf_instruction.
  induction (Ichiglyph.load file) as [|u units IH]; [reflexivity|].
  cbn [flat_map]. rewrite forallb_app, IH, andb_true_r.
  destruct (Ichiglyph.opcode_decode u); reflexivity.
Qed.

Lemma ig2bf_bf2ig_filter (file : list ascii) :
  ig2bf (bf2ig file) = filter bf_instruction file.
Proof.
  unfold ig2bf, bf2ig, Brainfuck.load, bf_instruction.
  induction file as [|c file IH]; [reflexivity|].
  cbn [flat_map filter].
  destruct (instruction_eqb (Brainfuck.opcode_decode c) INST_NOP) eqn:E.
  - apply instruction_eqb_eq in E. rewrite E.
    cbn [Ichiglyph.encode app proper instruction_eqb negb]. exact IH.
  - assert (Hc : Brainfuck.opcode_decode c <> INST_NOP).
    { intros Hn. apply instruction_eqb_eq in Hn. congruence. }
    destruct (ig_encode_bytes _
                (flat_map (fun o => Ichiglyph.encode
                                      (Brainfuck.opcode_decode o)) file)
                Hc) as (opcode & _ & Hd & Hl).
    rewrite Hl. cbn [flat_map]. rewrite Hd.
    rewrite (bf_opcode_of_instruction c Hc). unfold proper. rewrite E.
    cbn [negb app]. f_equal. exact IH.
Qed.

(** X6: Brainfuck to Ichiglyph and back gives the source without its
    comment bytes; a source made of instructions only comes back
    unchanged. *)
Theorem ig2bf_bf2ig (file : list ascii) :
  ig2bf (bf2ig file) = filter bf_instruction file /\
  (forallb bf_instruction file = true -> ig2bf (bf2ig file) = file).
Proof.
  split; [apply ig2bf_bf2ig_filter|].
  intros Hall. rewrite ig2bf_bf2ig_filter. now apply filter_all.
Qed.

(** X7: Ichiglyph to Brainfuck and back gives the units of the source
    that are instructions, without the other units and without a
    dangling byte. *)
Theorem bf2ig_ig2bf (file : list ascii) :
  bf2ig (ig2bf file)
  = flat_map unit_bytes (filter ig_instruction (Ichiglyph.load file)).
Proof.
  unfold bf2ig, ig2bf, Brainfuck.load, ig_instruction.
  induction (Ichiglyph.load file) as [|u units IH]; [reflexivity|].
  cbn [flat_map filter]. rewrite flat_map_app, IH.
  destruct (instruction_eqb (Ichiglyph.opcode_decode u) INST_NOP) eqn:E.
  - apply instruction_eqb_eq in E. rewrite E. reflexivity.
  - assert (Hu : Ichiglyph.opcode_decode u <> INST_NOP).
    { intros Hn. apply instruction_eqb_eq in Hn. congruence. }
    unfold proper. rewrite E. cbn [negb flat_map]. f_equal.
    destruct (ig_opcode_of_instruction u Hu) as (Henc & _).
    rewrite <- Henc.
    destruct (Ichiglyph.opcode_decode u); try (now elim Hu); reflexivity.
Qed.

(** X8: transpiling twice more changes nothing: the output of either
    transpiler is a fixed point of the round trip through the other. *)
Theorem transpilers_normalise (file : list ascii) :
  bf2ig (ig2bf (bf2ig file)) = bf2ig file /\
  ig2bf (bf2ig (ig2bf file)) = ig2bf file.
Proof.
  split.
  - rewrite ig2bf_bf2ig_filter.
    unfold bf2ig, Brainfuck.load, bf_instruction.
    induction file as [|c file IH]; [reflexivity|].
    cbn [filter flat_map].
    destruct (Brainfuck.opcode_decode c) eqn:E;
      cbn [proper instruction_eqb negb flat_map];
      rewrite ?E, IH; reflexivity.
  - rewrite ig2bf_bf2ig_filter. apply filter_all, ig2bf_instructions.
Qed.

(** ** Pairing of brackets *)

Lemma instruction_eqb_refl (x : instruction_t) : instruction_eqb x x = true.
Proof. now destruct x. Qed.

Lemma instruction_eqb_neq (x y : instruction_t) :
  x <> y -> instruction_eqb x y = false.
Proof.
  intros H. destruct (instruction_eqb x y) eqn:E; [|reflexivity].
  apply instruction_eqb_eq in E. contradiction.
Qed.

Section Balance.

Variables up down : instruction_t.
Hypothesis up_down : up <> down.

Lemma net_app (p s : list instruction_t) :
  net up down (p ++ s) = net up down p + net up down s.
Proof.
  induction p as [|x p IH]; [reflexivity|].
  cbn [app net]. rewrite IH. lia.
Qed.

Lemma net_rev (w : list instruction_t) :
  net up down (rev w) = net up down w.
Proof.
  induction w as [|x w IH]; [reflexivity|].
  cbn [rev]. rewrite net_app, IH. cbn [net]. lia.
Qed.

(** One turn of the specification's scan, in terms of [weight]. *)
Lemma balance_scan_turn (x : instruction_t) (l : list instruction_t)
  (b : nat) :
  1 <= Z.of_nat b + weight up down x ->
  balance_scan up down (x :: l) b
  = option_map S
      (balance_scan up down l (Z.to_nat (Z.of_nat b + weight up down x))).
Proof.
  intros H. cbn [balance_scan]. unfold weight in *.
  destruct (instruction_eqb x up).
  - replace (Z.to_nat (Z.of_nat b + 1)) with (S b) by lia. reflexivity.
  - destruct (instruction_eqb x down).
    + destruct b as [|[|b]]; try lia. cbn [pred].
      replace (Z.to_nat (Z.of_nat (S (S b)) + -1)) with (S b) by lia.
      reflexivity.
    + destruct b as [|b]; [lia|].
      replace (Z.to_nat (Z.of_nat (S b) + 0)) with (S b) by lia.
      reflexivity.
Qed.

Lemma balance_scan_last (x : instruction_t) (l : list instruction_t)
  (b : nat) :
  (0 < b)%nat -> Z.of_nat b + weight up down x < 1 ->
  x = down /\ b = 1%nat /\ balance_scan up down (x :: l) b = Some O.
Proof.
  intros Hb H. cbn [balance_scan]. unfold weight in *.
  destruct (instruction_eqb x up); [lia|].
  destruct (instruction_eqb x down) eqn:E; [|lia].
  apply instruction_eqb_eq in E.
  assert (b = 1%nat) by lia. subst b. auto.
Qed.

(** Where the scan stops after [k] instructions: the stretch [w] it has
    passed never lets the counter fall below 1 and leaves it at 1, and a
    [down] follows. *)
Lemma balance_scan_found (l : list instruction_t) :
  forall (b k : nat), (0 < b)%nat ->
  balance_scan up down l b = Some k ->
  exists w rest,
    l = w ++ down :: rest /\ length w = k /\
    Z.of_nat b + net up down w = 1 /\
    (forall p s, w = p ++ s -> 1 <= Z.of_nat b + net up down p).
Proof.
  induction l as [|x l IH]; intros b k Hb H; [discriminate|].
  destruct (Z_lt_le_dec (Z.of_nat b + weight up down x) 1) as [Hlast|Hgo].
  - destruct (balance_scan_last x l b Hb Hlast) as (-> & -> & E).
    rewrite E in H. injection H as <-.
    exists [], l. split; [reflexivity|]. split; [reflexivity|].
    split; [reflexivity|].
    intros p s Hp. destruct p; [simpl; lia|discriminate].
  - rewrite (balance_scan_turn x l b Hgo) in H.
    destruct (balance_scan up down l _) as [k'|] eqn:E; [|discriminate].
    injection H as <-.
    destruct (IH (Z.to_nat (Z.of_nat b + weight up down x)) k'
                ltac:(lia) E) as (w & rest & -> & Hlen & Hnet & Hpre).
    exists (x :: w), rest. split; [reflexivity|].
    split; [simpl; lia|]. split; [cbn [net]; lia|].
    intros p s Hp. destruct p as [|y p]; [simpl; lia|].
    injection Hp as -> Hp. specialize (Hpre p s Hp). cbn [net]. lia.
Qed.

(** And conversely. *)
Lemma balance_scan_finds (w rest : list instruction_t) :
  forall b : nat, (0 < b)%nat ->
  Z.of_nat b + net up down w = 1 ->
  (forall p s, w = p ++ s -> 1 <= Z.of_nat b + net up down p) ->
  balance_scan up down (w ++ down :: rest) b = Some (length w).
Proof.
  induction w as [|x w IH]; intros b Hb Hnet Hpre.
  - cbn [net] in Hnet. assert (b = 1%nat) by lia. subst b.
    cbn [app balance_scan length].
    rewrite (instruction_eqb_neq down up) by congruence.
    now rewrite instruction_eqb_refl.
  - cbn [net] in Hnet. cbn [app length].
    assert (Hgo : 1 <= Z.of_nat b + weight up down x).
    { specialize (Hpre [x] w eq_refl). cbn [net] in Hpre. lia. }
    rewrite (balance_scan_turn x _ b Hgo).
    rewrite IH; [reflexivity|lia|lia|].
    intros p s Hp. specialize (Hpre (x :: p) s).
    cbn [app net] in Hpre. rewrite Hp in Hpre. specialize (Hpre eq_refl).
    lia.
Qed.

End Balance.

Lemma weight_swap (up down x : instruction_t) :
  up <> down -> weight down up x = - weight up down x.
Proof.
  intros H. unfold weight.
  destruct (instruction_eqb x up) eqn:Eu, (instruction_eqb x down) eqn:Ed;
    try reflexivity.
  apply instruction_eqb_eq in Eu, Ed. congruence.
Qed.

Lemma net_swap (up down : instruction_t) (w : list instruction_t) :
  up <> down -> net down up w = - net up down w.
Proof.
  intros H. induction w as [|x w IH]; [reflexivity|].
  cbn [net]. rewrite IH, (weight_swap up down x H). lia.
Qed.

(** A stretch that a scan passes with the counter back at its start value
    is passed by the opposite scan, read backwards, in the same way. *)
Lemma balanced_rev (up down : instruction_t) (w : list instruction_t) :
  up <> down ->
  1 + net up down w = 1 ->
  (forall p s, w = p ++ s -> 1 <= 1 + net up down p) ->
  1 + net down up (rev w) = 1 /\
  (forall p s, rev w = p ++ s -> 1 <= 1 + net down up p).
Proof.
  intros Hud Hnet Hpre. split.
  - rewrite net_swap, net_rev by congruence. lia.
  - intros p s Hp.
    assert (Hw : w = rev s ++ rev p).
    { rewrite <- rev_app_distr, <- Hp. symmetry. apply rev_involutive. }
    specialize (Hpre _ _ Hw).
    rewrite Hw, net_app, !net_rev in Hnet.
    rewrite net_rev in Hpre.
    rewrite (net_swap up down p Hud). lia.
Qed.

Lemma firstn_exact {A : Type} (a b : list A) :
  firstn (length a) (a ++ b) = a.
Proof. induction a as [|x a IH]; [now destruct b|]. simpl. now rewrite IH. Qed.

Lemma skipn_exact {A : Type} (a b : list A) :
  skipn (length a) (a ++ b) = b.
Proof. induction a as [|x a IH]; [reflexivity|]. exact IH. Qed.

Lemma nth_error_exact {A : Type} (a b : list A) (x : A) :
  nth_error (a ++ x :: b) (length a) = Some x.
Proof. induction a as [|y a IH]; [reflexivity|]. exact IH. Qed.

Lemma skipn_nth {A : Type} (n : nat) (l : list A) (x : A) :
  nth_error l n = Some x -> skipn n l = x :: skipn (S n) l.
Proof.
  revert l; induction n as [|n IH]; intros [|y l] H; try discriminate.
  - now injection H as ->.
  - apply IH. exact H.
Qed.

Section Pairing.

Variable opcode_t : Type.
Variable opcode_decode : opcode_t -> instruction_t.
Variable program : list opcode_t.

Local Abbreviation code := (decoded opcode_decode program).

(** The close that the forward scan finds for an open is the close whose
    backward scan finds that open, and conversely: the two scans pair the
    brackets of a program in one and the same way. *)
Lemma brackets_pair (i j : Z) (Hi : 0 <= i) (Hj : 0 <= j) :
  (nth_error code (Z.to_nat i) = Some INST_JMP_FORWARD /\
   match_forward opcode_decode program i = Some j) <->
  (nth_error code (Z.to_nat j) = Some INST_JMP_BACK /\
   match_back opcode_decode program j = Some i).
Proof.
  assert (Hfb : INST_JMP_FORWARD <> INST_JMP_BACK) by discriminate.
  assert (Hbf : INST_JMP_BACK <> INST_JMP_FORWARD) by discriminate.
  split.
  - intros [Hopen Hm]. unfold match_forward in Hm.
    destruct (balance_scan _ _ _ _) as [k|] eqn:E; [|discriminate].
    cbn [option_map] in Hm. injection Hm as <-.
    destruct (balance_scan_found _ _ _ 1%nat k ltac:(lia) E)
      as (w & rest & Hskip & Hlen & Hnet & Hpre).
    assert (Hlt : (Z.to_nat i < length code)%nat)
      by (apply nth_error_Some; congruence).
    pose proof (firstn_snoc _ _ _ Hopen) as Hsnoc.
    assert (Hlpre : length (firstn (Z.to_nat i) code) = Z.to_nat i)
      by (rewrite length_firstn; lia).
    remember (firstn (Z.to_nat i) code) as pre eqn:Epre.
    assert (Hcode : code = (pre ++ [INST_JMP_FORWARD])
                           ++ w ++ INST_JMP_BACK :: rest).
    { rewrite <- Hsnoc, <- Hskip.
      replace (Z.to_nat (i + 1)) with (S (Z.to_nat i)) by lia.
      symmetry. apply firstn_skipn. }
    assert (Hpos : Z.to_nat (i + 1 + Z.of_nat k)
                   = length ((pre ++ [INST_JMP_FORWARD]) ++ w)).
    { rewrite !length_app. cbn [length]. lia. }
    destruct (balanced_rev _ _ w Hfb Hnet Hpre) as [Hnet' Hpre'].
    split.
    + rewrite Hpos, Hcode, app_assoc. apply nth_error_exact.
    + unfold match_back. rewrite Hpos, Hcode, app_assoc, firstn_exact.
      rewrite !rev_app_distr. cbn [rev app].
      rewrite (balance_scan_finds _ _ Hbf (rev w) _ 1%nat ltac:(lia)
                 Hnet' Hpre').
      cbn [option_map]. rewrite length_rev. f_equal. lia.
  - intros [Hclose Hm]. unfold match_back in Hm.
    destruct (balance_scan _ _ _ _) as [k|] eqn:E; [|discriminate].
    cbn [option_map] in Hm. injection Hm as <-.
    destruct (balance_scan_found _ _ _ 1%nat k ltac:(lia) E)
      as (w & rest & Hrev & Hlen & Hnet & Hpre).
    assert (Hlt : (Z.to_nat j < length code)%nat)
      by (apply nth_error_Some; congruence).
    pose proof (skipn_nth _ _ _ Hclose) as Hskip.
    pose proof (firstn_skipn (Z.to_nat j) code) as Hsplit.
    assert (Hcount : length (firstn (Z.to_nat j) code) = Z.to_nat j)
      by (rewrite length_firstn; lia).
    assert (Hfirst : firstn (Z.to_nat j) code
                     = (rev rest ++ [INST_JMP_FORWARD]) ++ rev w).
    { rewrite <- (rev_involutive (firstn (Z.to_nat j) code)), Hrev.
      rewrite rev_app_distr. reflexivity. }
    remember (skipn (S (Z.to_nat j)) code) as post eqn:Epost.
    rewrite Hfirst, Hskip in Hsplit.
    rewrite Hfirst, !length_app, !length_rev in Hcount.
    cbn [length] in Hcount.
    assert (Hpos : Z.to_nat (j - 1 - Z.of_nat k) = length (rev rest))
      by (rewrite length_rev; lia).
    assert (Hpos' : Z.to_nat (j - 1 - Z.of_nat k + 1)
                    = length (rev rest ++ [INST_JMP_FORWARD]))
      by (rewrite length_app, length_rev; cbn [length]; lia).
    destruct (balanced_rev _ _ w Hbf Hnet Hpre) as [Hnet' Hpre'].
    clear E Hrev Hfirst Hskip Hclose.
    split.
    + rewrite Hpos, <- Hsplit, <- !app_assoc. apply nth_error_exact.
    + unfold match_forward. rewrite Hpos', <- Hsplit, <- app_assoc.
      rewrite skipn_exact.
      rewrite (balance_scan_finds _ _ Hfb (rev w) _ 1%nat ltac:(lia)
                 Hnet' Hpre').
      cbn [option_map]. rewrite length_rev. f_equal. lia.
Qed.

End Pairing.

(** ** Loops *)

(** X9: [INST_JMP_FORWARD]: on a nonzero cell the loop is entered at the next
    instruction; on a zero cell with a matching close the run resumes one
    instruction past that close; on a zero cell without one the run ends,
    after the read of the unit behind the program. *)
Theorem jmp_forward_resolution
  (opcode_t : Type) (opcode_decode : opcode_t -> instruction_t)
  (realloc_ok : Z -> bool) (beyond : Z -> option opcode_t)
  (program : list opcode_t) (s : state)
  (program_fits : program_size program < SIZE_MAX)
  (Hip : 0 <= ip s)
  (Hinst : nth_error (decoded opcode_decode program) (Z.to_nat (ip s))
           = Some INST_JMP_FORWARD) :
  (forall v,
     data_get (mem s) (dp s) = Ok v -> v <> 0 ->
     exec opcode_decode realloc_ok beyond program s
       = Ok (set_ip s (ip s + 1))) /\
  (forall target,
     data_get (mem s) (dp s) = Ok 0 ->
     match_forward opcode_decode program (ip s) = Some target ->
     ip s < target < program_size program /\
     nth_error (decoded opcode_decode program) (Z.to_nat target)
       = Some INST_JMP_BACK /\
     exec opcode_decode realloc_ok beyond program s
       = Ok (set_ip s (target + 1))) /\
  (forall fuel,
     data_get (mem s) (dp s) = Ok 0 ->
     match_forward opcode_decode program (ip s) = None ->
     run opcode_decode realloc_ok beyond program (S fuel) s
       = match beyond (program_size program) with
         | Some _ => Returned 0 (stdout s) (stderr s)
         | None => Crashed BadFetch (stdout s) (stderr s)
         end).
Proof.
  split; [|split].
  - intros v Hv Hnz.
    exact (jmp_forward_falls_through _ opcode_decode realloc_ok beyond
             program program_fits s v Hip Hinst Hv Hnz).
  - intros target Hv Hm.
    exact (jmp_forward_matched _ opcode_decode realloc_ok beyond program
             program_fits s target Hip Hinst Hv Hm).
  - intros fuel Hv Hm.
    exact (jmp_forward_unmatched_run _ opcode_decode realloc_ok beyond
             program program_fits fuel s Hip Hinst Hv Hm).
Qed.

Lemma jmp_forward_resolution_witness :
  (program_size (text "[-]") < SIZE_MAX /\ 0 <= ip (one_cell 0 0) /\
   nth_error (decoded Brainfuck.opcode_decode (text "[-]"))
     (Z.to_nat (ip (one_cell 0 0))) = Some INST_JMP_FORWARD) /\
  exec Brainfuck.opcode_decode plenty unmapped (text "[-]") (one_cell 0 5)
    = Ok (set_ip (one_cell 0 5) (0 + 1)) /\
  exec Brainfuck.opcode_decode plenty unmapped (text "[-]") (one_cell 0 0)
    = Ok (set_ip (one_cell 0 0) (2 + 1)).
Proof.
  assert (Hfit : program_size (text "[-]") < SIZE_MAX) by reflexivity.
  assert (Hip : forall v, 0 <= ip (one_cell 0 v)) by (intros v; simpl; lia).
  assert (Hinst : forall v,
             nth_error (decoded Brainfuck.opcode_decode (text "[-]"))
               (Z.to_nat (ip (one_cell 0 v))) = Some INST_JMP_FORWARD)
    by reflexivity.
  assert (Hfive : (5 : Z) <> 0) by discriminate.
  destruct (jmp_forward_resolution ascii Brainfuck.opcode_decode plenty
              unmapped (text "[-]") (one_cell 0 5) Hfit (Hip 5) (Hinst 5))
    as (Hin & _ & _).
  destruct (jmp_forward_resolution ascii Brainfuck.opcode_decode plenty
              unmapped (text "[-]") (one_cell 0 0) Hfit (Hip 0) (Hinst 0))
    as (_ & Hskip & _).
  split; [auto|]. split.
  - apply (Hin 5); [reflexivity|exact Hfive].
  - apply (Hskip 2); reflexivity.
Defined.

(** X10: the two jumps of a loop fit together.  For the open at [i] whose
    matching close the forward scan finds at [j]: leaving the loop (zero
    cell at the open) resumes at [j + 1], and repeating it (nonzero cell
    at the close) resumes at [i + 1], the first instruction of the
    body. *)
Theorem loop_jumps
  (opcode_t : Type) (opcode_decode : opcode_t -> instruction_t)
  (realloc_ok : Z -> bool) (beyond : Z -> option opcode_t)
  (program : list opcode_t) (i j : Z)
  (program_fits : program_size program < SIZE_MAX)
  (Hi : 0 <= i)
  (Hopen : nth_error (decoded opcode_decode program) (Z.to_nat i)
           = Some INST_JMP_FORWARD)
  (Hmatch : match_forward opcode_decode program i = Some j) :
  i < j < program_size program /\
  match_back opcode_decode program j = Some i /\
  (forall s, ip s = i -> data_get (mem s) (dp s) = Ok 0 ->
     exec opcode_decode realloc_ok beyond program s
       = Ok (set_ip s (j + 1))) /\
  (forall s v, ip s = j -> data_get (mem s) (dp s) = Ok v -> v <> 0 ->
     exec opcode_decode realloc_ok beyond program s
       = Ok (set_ip s (i + 1))).
Proof.
  assert (Hj : i < j < program_size program /\
               nth_error (decoded opcode_decode program) (Z.to_nat j)
                 = Some INST_JMP_BACK).
  { unfold match_forward in Hmatch.
    destruct (balance_scan _ _ _ _) as [k|] eqn:E; [|discriminate].
    cbn [option_map] in Hmatch. injection Hmatch as <-.
    assert (Hud : INST_JMP_FORWARD <> INST_JMP_BACK) by discriminate.
    destruct (balance_scan_stops _ _ _ Hud 1%nat k ltac:(lia) E)
      as [Hk Hlen].
    rewrite length_skipn in Hlen. unfold decoded in Hlen.
    rewrite length_map in Hlen. rewrite nth_error_skipn in Hk.
    replace (Z.to_nat (i + 1) + k)%nat
      with (Z.to_nat (i + 1 + Z.of_nat k)) in Hk by lia.
    split; [unfold program_size; lia|exact Hk]. }
  destruct Hj as [Hrange Hclose].
  destruct (proj1 (brackets_pair _ opcode_decode program i j Hi
                     ltac:(lia)) (conj Hopen Hmatch)) as [_ Hback].
  split; [exact Hrange|]. split; [exact Hback|]. split.
  - intros s Hs Hv. subst i.
    apply (jmp_forward_matched _ opcode_decode realloc_ok beyond program
             program_fits s j Hi Hopen Hv Hmatch).
  - intros s v Hs Hv Hnz. subst j.
    apply (jmp_back_matched _ opcode_decode realloc_ok beyond program
             program_fits s v i ltac:(lia) Hclose Hv Hnz Hback).
Qed.

Lemma loop_jumps_witness :
  (program_size (text "+[[-]>].") < SIZE_MAX /\ 0 <= 1 /\
   nth_error (decoded Brainfuck.opcode_decode (text "+[[-]>]."))
     (Z.to_nat 1) = Some INST_JMP_FORWARD /\
   match_forward Brainfuck.opcode_decode (text "+[[-]>].") 1 = Some 6) /\
  match_back Brainfuck.opcode_decode (text "+[[-]>].") 6 = Some 1 /\
  exec Brainfuck.opcode_decode plenty unmapped (text "+[[-]>].")
    (one_cell 6 7) = Ok (set_ip (one_cell 6 7) (1 + 1)).
Proof.
  assert (Hfit : program_size (text "+[[-]>].") < SIZE_MAX) by reflexivity.
  assert (Hi : 0 <= 1) by lia.
  assert (Hopen : nth_error (decoded Brainfuck.opcode_decode
                               (text "+[[-]>].")) (Z.to_nat 1)
                  = Some INST_JMP_FORWARD) by reflexivity.
  assert (Hm : match_forward Brainfuck.opcode_decode (text "+[[-]>].") 1
               = Some 6) by reflexivity.
  assert (Hseven : (7 : Z) <> 0) by discriminate.
  destruct (loop_jumps ascii Brainfuck.opcode_decode plenty unmapped
              (text "+[[-]>].") 1 6 Hfit Hi Hopen Hm)
    as (_ & Hback & _ & Hrepeat).
  split; [auto|]. split; [exact Hback|].
  apply (Hrepeat (one_cell 6 7) 7); [reflexivity|reflexivity|exact Hseven].
Defined.

(** ** Data memory: growth, writes and reads *)

(** X11: [data_bound] on a cell inside the buffer changes nothing; on a cell
    at or beyond it, where [dp + 1 + DATA_GRANULARITY] fits [size_t] and
    [realloc] succeeds, the buffer grows to exactly that size, keeps its
    cells, and its new cells read 0. *)
Theorem data_bound_growth (realloc_ok : Z -> bool) (d : data_t) (dp : Z)
  (Hwf : wf_data d) (Hdp : 0 <= dp)
  (Hfit : dp + 1 + DATA_GRANULARITY <= SIZE_MAX)
  (Hok : realloc_ok (dp + 1 + DATA_GRANULARITY) = true) :
  exists d',
    data_bound realloc_ok d dp = Ok (0, d') /\
    wf_data d' /\
    size d' = (if dp <? size d then size d else dp + 1 + DATA_GRANULARITY) /\
    (forall i, 0 <= i -> data_get d' i = data_get d i) /\
    (forall i, size d <= i -> data_get d' i = Ok 0).
Proof.
  assert (Ha : addressable realloc_ok d dp) by (right; auto).
  destruct (data_bound_addressable realloc_ok d dp Hwf Hdp Ha)
    as (d' & E & Hwf' & _ & Hsame & Hsize).
  exists d'. split; [exact E|]. split; [exact Hwf'|].
  split; [exact Hsize|]. split; [exact Hsame|].
  intros i Hi. unfold wf_data in Hwf.
  rewrite Hsame by lia. now apply data_get_beyond.
Qed.

Lemma data_bound_growth_witness :
  (wf_data data_init /\ 0 <= 7 /\
   7 + 1 + DATA_GRANULARITY <= SIZE_MAX /\
   plenty (7 + 1 + DATA_GRANULARITY) = true) /\
  exists d',
    data_bound plenty data_init 7 = Ok (0, d') /\
    wf_data d' /\
    size d' = (if 7 <? size data_init then size data_init
               else 7 + 1 + DATA_GRANULARITY) /\
    (forall i, 0 <= i -> data_get d' i = data_get data_init i) /\
    (forall i, size data_init <= i -> data_get d' i = Ok 0).
Proof.
  assert (H1 : wf_data data_init) by reflexivity.
  assert (H2 : 0 <= 7) by lia.
  assert (H3 : 7 + 1 + DATA_GRANULARITY <= SIZE_MAX)
    by (vm_compute; discriminate).
  assert (H4 : plenty (7 + 1 + DATA_GRANULARITY) = true) by reflexivity.
  split; [auto|].
  exact (data_bound_growth plenty data_init 7 H1 H2 H3 H4).
Defined.

(** X12: [data_set], then [data_get]: the value written is read back, every
    other cell reads as before, and the buffer has not shrunk. *)
Theorem data_set_get (realloc_ok : Z -> bool) (d : data_t) (dp val : Z)
  (Hwf : wf_data d) (Hdp : 0 <= dp) (Ha : addressable realloc_ok d dp) :
  exists d',
    data_set realloc_ok d dp val = Ok (0, d') /\
    data_get d' dp = Ok val /\
    (forall i, 0 <= i -> i <> dp -> data_get d' i = data_get d i) /\
    wf_data d' /\ size d <= size d' /\ dp < size d'.
Proof.
  destruct (data_set_spec realloc_ok d dp val Hwf Hdp Ha)
    as (d' & E & Hwf' & Hg & Hothers & Hsize).
  exists d'. split; [exact E|]. split; [exact Hg|].
  split; [exact Hothers|]. split; [exact Hwf'|].
  rewrite Hsize. destruct (Z.ltb_spec dp (size d)); unfold DATA_GRANULARITY;
    lia.
Qed.

Lemma data_set_get_witness :
  (wf_data data_init /\ 0 <= 3 /\ addressable plenty data_init 3) /\
  exists d',
    data_set plenty data_init 3 65 = Ok (0, d') /\
    data_get d' 3 = Ok 65 /\
    (forall i, 0 <= i -> i <> 3 -> data_get d' i = data_get data_init i) /\
    wf_data d' /\ size data_init <= size d' /\ 3 < size d'.
Proof.
  assert (H1 : wf_data data_init) by reflexivity.
  assert (H2 : 0 <= 3) by lia.
  assert (H3 : addressable plenty data_init 3).
  { right. split; [vm_compute; discriminate|reflexivity]. }
  split; [auto|].
  exact (data_set_get plenty data_init 3 65 H1 H2 H3).
Defined.

Lemma wrap8_inc_dec (v : Z) :
  0 <= v < 256 ->
  wrap8 (wrap8 (v + 1) - 1) = v /\ wrap8 (wrap8 (v - 1) + 1) = v.
Proof.
  intros Hv. unfold wrap8. split.
  - destruct (Z.eq_dec v 255) as [->|Hne]; [reflexivity|].
    rewrite (Z.mod_small (v + 1)) by lia.
    replace (v + 1 - 1) with v by lia. apply Z.mod_small. lia.
  - destruct (Z.eq_dec v 0) as [->|Hne]; [reflexivity|].
    rewrite (Z.mod_small (v - 1)) by lia.
    replace (v - 1 + 1) with v by lia. apply Z.mod_small. lia.
Qed.

(** X13: [data_inc] and [data_dec] undo each other, in either order and across
    the wrap, on a cell that holds a byte; the other cells read as
    before. *)
Theorem data_inc_dec (realloc_ok : Z -> bool) (d : data_t) (dp v : Z)
  (Hwf : wf_data d) (Hdp : 0 <= dp) (Ha : addressable realloc_ok d dp)
  (Hv : data_get d dp = Ok v) (Hbyte : 0 <= v < 256) :
  (exists d1 d2,
     data_inc realloc_ok d dp = Ok (0, d1) /\
     data_dec realloc_ok d1 dp = Ok (0, d2) /\
     data_get d2 dp = Ok v /\
     forall i, 0 <= i -> i <> dp -> data_get d2 i = data_get d i) /\
  (exists d1 d2,
     data_dec realloc_ok d dp = Ok (0, d1) /\
     data_inc realloc_ok d1 dp = Ok (0, d2) /\
     data_get d2 dp = Ok v /\
     forall i, 0 <= i -> i <> dp -> data_get d2 i = data_get d i).
Proof.
  destruct (wrap8_inc_dec v Hbyte) as [Hid Hdi].
  split.
  - destruct (data_inc_spec realloc_ok d dp Hwf Hdp Ha)
      as (v1 & d1 & Hv1 & E1 & Hwf1 & Hg1 & Ho1 & Hs1).
    assert (v1 = v) by congruence. subst v1.
    assert (Ha1 : addressable realloc_ok d1 dp).
    { left. rewrite Hs1. destruct (Z.ltb_spec dp (size d));
        unfold DATA_GRANULARITY; lia. }
    destruct (data_dec_spec realloc_ok d1 dp Hwf1 Hdp Ha1)
      as (v2 & d2 & Hv2 & E2 & _ & Hg2 & Ho2 & _).
    assert (v2 = wrap8 (v + 1)) by congruence. subst v2.
    exists d1, d2. split; [exact E1|]. split; [exact E2|].
    split; [rewrite Hg2, Hid; reflexivity|].
    intros i Hi Hne. rewrite Ho2, Ho1; auto.
  - destruct (data_dec_spec realloc_ok d dp Hwf Hdp Ha)
      as (v1 & d1 & Hv1 & E1 & Hwf1 & Hg1 & Ho1 & Hs1).
    assert (v1 = v) by congruence. subst v1.
    assert (Ha1 : addressable realloc_ok d1 dp).
    { left. rewrite Hs1. destruct (Z.ltb_spec dp (size d));
        unfold DATA_GRANULARITY; lia. }
    destruct (data_inc_spec realloc_ok d1 dp Hwf1 Hdp Ha1)
      as (v2 & d2 & Hv2 & E2 & _ & Hg2 & Ho2 & _).
    assert (v2 = wrap8 (v - 1)) by congruence. subst v2.
    exists d1, d2. split; [exact E1|]. split; [exact E2|].
    split; [rewrite Hg2, Hdi; reflexivity|].
    intros i Hi Hne. rewrite Ho2, Ho1; auto.
Qed.

Lemma data_inc_dec_witness :
  (wf_data data_init /\ 0 <= 0 /\ addressable plenty data_init 0 /\
   data_get data_init 0 = Ok 0 /\ 0 <= 0 < 256) /\
  exists d1 d2,
    data_dec plenty data_init 0 = Ok (0, d1) /\
    data_inc plenty d1 0 = Ok (0, d2) /\
    data_get d2 0 = Ok 0 /\
    forall i, 0 <= i -> i <> 0 -> data_get d2 i = data_get data_init i.
Proof.
  assert (H1 : wf_data data_init) by reflexivity.
  assert (H2 : 0 <= 0) by lia.
  assert (H3 : addressable plenty data_init 0).
  { right. split; [vm_compute; discriminate|reflexivity]. }
  assert (H4 : data_get data_init 0 = Ok 0) by reflexivity.
  assert (H5 : 0 <= 0 < 256) by lia.
  split; [auto|].
  exact (proj2 (data_inc_dec plenty data_init 0 0 H1 H2 H3 H4 H5)).
Defined.

(** ** The run loop: the other instructions *)

Section DataMemoryFailure.

Variable realloc_ok : Z -> bool.

Lemma data_bound_refused (d : data_t) (dp : Z) :
  size d <= dp -> realloc_ok (wrap (dp + 1 + DATA_GRANULARITY)) = false ->
  data_bound realloc_ok d dp = Ok (-1, mk_data [] (size d)).
Proof.
  intros Hge Hno. unfold data_bound. rewrite Z.geb_leb.
  destruct (Z.leb_spec (size d) dp); [|lia]. now rewrite Hno.
Qed.

(** Below the wrap of the size computation the data memory operations
    complete: they return 0 or -1 and touch nothing outside the buffer. *)
Lemma data_bound_no_fault (d : data_t) (dp : Z) :
  wf_data d -> 0 <= dp -> dp + 1 + DATA_GRANULARITY <= SIZE_MAX ->
  (exists d', data_bound realloc_ok d dp = Ok (0, d') /\
              wf_data d' /\ dp < size d') \/
  data_bound realloc_ok d dp = Ok (-1, mk_data [] (size d)).
Proof.
  intros Hwf Hdp Hfit.
  destruct (Z.lt_ge_cases dp (size d)) as [Hin|Hout].
  - left. exists d. rewrite data_bound_inside by exact Hin. auto.
  - destruct (realloc_ok (dp + 1 + DATA_GRANULARITY)) eqn:Hok.
    + left.
      destruct (data_bound_addressable realloc_ok d dp Hwf Hdp
                  ltac:(right; auto)) as (d' & E & Hwf' & Hlt & _).
      exists d'. auto.
    + right. apply data_bound_refused; [lia|].
      rewrite wrap_small; [exact Hok|].
      unfold wf_data in Hwf. unfold DATA_GRANULARITY in *. lia.
Qed.

Lemma data_inc_no_fault (d : data_t) (dp : Z) (f : fault_t) :
  wf_data d -> 0 <= dp -> dp + 1 + DATA_GRANULARITY <= SIZE_MAX ->
  data_inc realloc_ok d dp <> Fault f.
Proof.
  intros Hwf Hdp Hfit. unfold data_inc.
  destruct (data_bound_no_fault d dp Hwf Hdp Hfit)
    as [(d' & -> & Hwf' & Hlt)| ->]; cbn [bind Z.eqb negb];
    [|discriminate].
  unfold wf_data in Hwf'.
  rewrite cell_load_inside by lia. cbn [bind].
  rewrite cell_store_inside by lia. discriminate.
Qed.

Lemma data_dec_no_fault (d : data_t) (dp : Z) (f : fault_t) :
  wf_data d -> 0 <= dp -> dp + 1 + DATA_GRANULARITY <= SIZE_MAX ->
  data_dec realloc_ok d dp <> Fault f.
Proof.
  intros Hwf Hdp Hfit. unfold data_dec.
  destruct (data_bound_no_fault d dp Hwf Hdp Hfit)
    as [(d' & -> & Hwf' & Hlt)| ->]; cbn [bind Z.eqb negb];
    [|discriminate].
  unfold wf_data in Hwf'.
  rewrite cell_load_inside by lia. cbn [bind].
  rewrite cell_store_inside by lia. discriminate.
Qed.

Lemma data_set_no_fault (d : data_t) (dp val : Z) (f : fault_t) :
  wf_data d -> 0 <= dp -> dp + 1 + DATA_GRANULARITY <= SIZE_MAX ->
  data_set realloc_ok d dp val <> Fault f.
Proof.
  intros Hwf Hdp Hfit. unfold data_set.
  destruct (data_bound_no_fault d dp Hwf Hdp Hfit)
    as [(d' & -> & Hwf' & Hlt)| ->]; cbn [bind Z.eqb negb];
    [|discriminate].
  unfold wf_data in Hwf'.
  rewrite cell_store_inside by lia. discriminate.
Qed.

End DataMemoryFailure.

Section RunLoop.

Variable opcode_t : Type.
Variable opcode_decode : opcode_t -> instruction_t.
Variable realloc_ok : Z -> bool.
Variable beyond : Z -> option opcode_t.
Variable program : list opcode_t.

Local Abbreviation ps := (program_size program).
Local Abbreviation code := (decoded opcode_decode program).
Local Abbreviation step := (exec opcode_decode realloc_ok beyond program).
Local Abbreviation go := (run opcode_decode realloc_ok beyond program).

Hypothesis program_fits : ps < SIZE_MAX.

Lemma instruction_at (s : state) :
  0 <= ip s < ps -> exists x, nth_error code (Z.to_nat (ip s)) = Some x.
Proof.
  intros Hip.
  destruct (nth_error code (Z.to_nat (ip s))) as [x|] eqn:E; [eauto|].
  apply nth_error_None in E. unfold decoded in E.
  rewrite length_map in E. unfold program_size in Hip. lia.
Qed.

(** X14: when [realloc] refuses the growth that [+], [-] or [,] needs, the
    run prints [Out of memory] and ends there; [main] still returns 0. *)
Theorem out_of_memory_ends_run (s : state) (x : instruction_t) (fuel : nat)
  (Hip : 0 <= ip s)
  (Hinst : nth_error code (Z.to_nat (ip s)) = Some x)
  (Hx : x = INST_VAL_INC \/ x = INST_VAL_DEC \/
        (x = INST_VAL_ACCEPT /\ stdin s <> []))
  (Hout : size (mem s) <= dp s)
  (Hno : realloc_ok (wrap (dp s + 1 + DATA_GRANULARITY)) = false) :
  go (S fuel) s = Returned 0 (stdout s) (stderr s ++ [Out_of_memory]).
Proof.
  destruct (exec_at _ opcode_decode realloc_ok beyond program s x Hip Hinst)
    as [Hlt E].
  pose proof (data_bound_refused realloc_ok (mem s) (dp s) Hout Hno) as Eb.
  assert (0 <= ps) by (unfold program_size; lia).
  assert (Es : exists s', step s = Ok s' /\ ip s' = ps + 1 /\
                 stdout s' = stdout s /\
                 stderr s' = stderr s ++ [Out_of_memory]).
  { rewrite E. destruct Hx as [->|[->|[-> Hin]]]; cbn [dispatch].
    - unfold data_inc. rewrite Eb. cbn [bind Z.eqb negb].
      eexists. split; [reflexivity|].
      cbn [out_of_memory set_mem set_ip ip stdout stderr].
      rewrite wrap_small by lia. auto.
    - unfold data_dec. rewrite Eb. cbn [bind Z.eqb negb].
      eexists. split; [reflexivity|].
      cbn [out_of_memory set_mem set_ip ip stdout stderr].
      rewrite wrap_small by lia. auto.
    - destruct (stdin s) as [|input_val rest]; [now elim Hin|].
      cbn [mem dp]. unfold data_set. rewrite Eb. cbn [bind Z.eqb negb].
      eexists. split; [reflexivity|].
      cbn [out_of_memory set_mem set_ip ip stdout stderr].
      rewrite wrap_small by lia. auto. }
  destruct Es as (s' & Es & Hip' & Hout' & Herr').
  rewrite (run_step _ opcode_decode realloc_ok beyond program fuel s s'
             Hlt Es).
  rewrite run_finished by lia. now rewrite Hout', Herr'.
Qed.

(** X15: the faults of a step.  In a state of a run a step faults in two
    cases only: the forward scan that finds no close reads the unit after
    the program and that read faults; or [+], [-] or [,] is executed with
    the data pointer in the last [DATA_GRANULARITY + 1] values of
    [size_t], where the size computation of [data_bound] wraps. *)
Theorem exec_fault_cause (s : state) (f : fault_t)
  (Hok : state_ok program s) (Hlt : ip s < ps)
  (Hfault : step s = Fault f) :
  (f = BadFetch /\
   nth_error code (Z.to_nat (ip s)) = Some INST_JMP_FORWARD /\
   data_get (mem s) (dp s) = Ok 0 /\
   match_forward opcode_decode program (ip s) = None /\
   beyond ps = None) \/
  (SIZE_MAX - DATA_GRANULARITY <= dp s /\
   (nth_error code (Z.to_nat (ip s)) = Some INST_VAL_INC \/
    nth_error code (Z.to_nat (ip s)) = Some INST_VAL_DEC \/
    nth_error code (Z.to_nat (ip s)) = Some INST_VAL_ACCEPT)).
Proof.
  destruct Hok as (Hip & Hdp & Hwf). specialize (Hwf Hlt).
  destruct (instruction_at s ltac:(lia)) as [x Hx].
  destruct (exec_at _ opcode_decode realloc_ok beyond program s x
              ltac:(lia) Hx) as [_ E].
  destruct (data_get_total (mem s) (dp s) Hwf ltac:(lia)) as [v Hv].
  destruct (Z_le_gt_dec (dp s + 1 + DATA_GRANULARITY) SIZE_MAX)
    as [Hfit|Hwrap].
  - (* the size computation does not wrap *)
    left. destruct x.
    + rewrite E in Hfault. discriminate.
    + rewrite E in Hfault. discriminate.
    + exfalso. rewrite E in Hfault. cbn [dispatch] in Hfault.
      pose proof (data_inc_no_fault realloc_ok (mem s) (dp s)) as Hn.
      destruct (data_inc _ _ _) as [[ret d]|f'|]; cbn [bind] in Hfault;
        try discriminate.
      exact (Hn f' Hwf ltac:(lia) Hfit eq_refl).
    + exfalso. rewrite E in Hfault. cbn [dispatch] in Hfault.
      pose proof (data_dec_no_fault realloc_ok (mem s) (dp s)) as Hn.
      destruct (data_dec _ _ _) as [[ret d]|f'|]; cbn [bind] in Hfault;
        try discriminate.
      exact (Hn f' Hwf ltac:(lia) Hfit eq_refl).
    + rewrite E in Hfault. cbn [dispatch] in Hfault. rewrite Hv in Hfault.
      discriminate.
    + exfalso. rewrite E in Hfault. cbn [dispatch] in Hfault.
      destruct (stdin s) as [|input_val rest]; [discriminate|].
      cbn [mem dp] in Hfault.
      pose proof (data_set_no_fault realloc_ok (mem s) (dp s)
                    (wrap8 input_val)) as Hn.
      destruct (data_set _ _ _ _) as [[ret d]|f'|]; cbn [bind] in Hfault;
        try discriminate.
      exact (Hn f' Hwf ltac:(lia) Hfit eq_refl).
    + destruct (Z.eq_dec v 0) as [->|Hnz].
      * destruct (match_forward opcode_decode program (ip s))
          as [target|] eqn:Hm.
        -- destruct (jmp_forward_matched _ opcode_decode realloc_ok beyond
                       program program_fits s target ltac:(lia) Hx Hv Hm)
             as (_ & _ & E').
           congruence.
        -- pose proof (jmp_forward_unmatched _ opcode_decode realloc_ok
                         beyond program program_fits s ltac:(lia) Hx Hv Hm)
             as E'.
           rewrite E' in Hfault.
           destruct (beyond ps); [discriminate|].
           injection Hfault as <-. auto.
      * rewrite (jmp_forward_falls_through _ opcode_decode realloc_ok beyond
                   program program_fits s v ltac:(lia) Hx Hv Hnz) in Hfault.
        discriminate.
    + exfalso. destruct (Z.eq_dec v 0) as [->|Hnz].
      * rewrite (jmp_back_falls_through _ opcode_decode realloc_ok beyond
                   program program_fits s ltac:(lia) Hx Hv) in Hfault.
        discriminate.
      * destruct (match_back opcode_decode program (ip s))
          as [target|] eqn:Hm.
        -- destruct (jmp_back_matched _ opcode_decode realloc_ok beyond
                       program program_fits s v target ltac:(lia) Hx Hv
                       Hnz Hm) as (_ & _ & E').
           congruence.
        -- rewrite (jmp_back_unmatched _ opcode_decode realloc_ok beyond
                      program program_fits s v ltac:(lia) Hx Hv Hnz Hm)
             in Hfault.
           discriminate.
    + rewrite E in Hfault. discriminate.
  - (* the size computation wraps *)
    destruct x.
    + rewrite E in Hfault. discriminate.
    + rewrite E in Hfault. discriminate.
    + right. split; [unfold DATA_GRANULARITY in *; lia|auto].
    + right. split; [unfold DATA_GRANULARITY in *; lia|auto].
    + rewrite E in Hfault. cbn [dispatch] in Hfault. rewrite Hv in Hfault.
      discriminate.
    + right. split; [unfold DATA_GRANULARITY in *; lia|auto].
    + left. destruct (Z.eq_dec v 0) as [->|Hnz].
      * destruct (match_forward opcode_decode program (ip s))
          as [target|] eqn:Hm.
        -- destruct (jmp_forward_matched _ opcode_decode realloc_ok beyond
                       program program_fits s target ltac:(lia) Hx Hv Hm)
             as (_ & _ & E').
           congruence.
        -- pose proof (jmp_forward_unmatched _ opcode_decode realloc_ok
                         beyond program program_fits s ltac:(lia) Hx Hv Hm)
             as E'.
           rewrite E' in Hfault.
           destruct (beyond ps); [discriminate|].
           injection Hfault as <-. auto.
      * rewrite (jmp_forward_falls_through _ opcode_decode realloc_ok beyond
                   program program_fits s v ltac:(lia) Hx Hv Hnz) in Hfault.
        discriminate.
    + exfalso. destruct (Z.eq_dec v 0) as [->|Hnz].
      * rewrite (jmp_back_falls_through _ opcode_decode realloc_ok beyond
                   program program_fits s ltac:(lia) Hx Hv) in Hfault.
        discriminate.
      * destruct (match_back opcode_decode program (ip s))
          as [target|] eqn:Hm.
        -- destruct (jmp_back_matched _ opcode_decode realloc_ok beyond
                       program program_fits s v target ltac:(lia) Hx Hv
                       Hnz Hm) as (_ & _ & E').
           congruence.
        -- rewrite (jmp_back_unmatched _ opcode_decode realloc_ok beyond
                      program program_fits s v ltac:(lia) Hx Hv Hnz Hm)
             in Hfault.
           discriminate.
    + rewrite E in Hfault. discriminate.
Qed.

(** X16: [.] prints the cell under the data pointer and changes nothing else:
    a cell beyond the buffer is printed as 0 and the buffer is not
    grown. *)
Theorem output_emits_cell (s : state)
  (Hip : 0 <= ip s)
  (Hinst : nth_error code (Z.to_nat (ip s)) = Some INST_VAL_OUTPUT)
  (Hwf : wf_data (mem s)) (Hdp : 0 <= dp s) :
  exists val,
    data_get (mem s) (dp s) = Ok val /\
    (size (mem s) <= dp s -> val = 0) /\
    step s = Ok (mk_state (ip s + 1) (dp s) (mem s) (stdin s)
                          (stdout s ++ [val]) (stderr s)).
Proof.
  destruct (exec_at _ opcode_decode realloc_ok beyond program s _ Hip Hinst)
    as [Hlt E].
  destruct (data_get_total (mem s) (dp s) Hwf Hdp) as [val Hv].
  exists val. split; [exact Hv|]. split.
  - intros Hout. rewrite data_get_beyond in Hv by exact Hout. congruence.
  - rewrite E. cbn [dispatch]. rewrite Hv.
    cbn [bind set_ip ip dp mem stdin stdout stderr].
    rewrite wrap_small by lia. reflexivity.
Qed.

(** X17: [,] with input at hand takes one byte from the input and stores it
    in the cell under the data pointer; the other cells, the output and
    the data pointer stay as they are. *)
Theorem accept_stores_input (s : state) (input_val : Z) (rest : list Z)
  (Hip : 0 <= ip s)
  (Hinst : nth_error code (Z.to_nat (ip s)) = Some INST_VAL_ACCEPT)
  (Hin : stdin s = input_val :: rest)
  (Hwf : wf_data (mem s)) (Hdp : 0 <= dp s)
  (Ha : addressable realloc_ok (mem s) (dp s)) :
  exists d',
    step s = Ok (mk_state (ip s + 1) (dp s) d' rest (stdout s) (stderr s)) /\
    data_get d' (dp s) = Ok (input_val mod 256) /\
    (forall i, 0 <= i -> i <> dp s ->
       data_get d' i = data_get (mem s) i) /\
    wf_data d'.
Proof.
  destruct (exec_at _ opcode_decode realloc_ok beyond program s _ Hip Hinst)
    as [Hlt E].
  destruct (data_set_spec realloc_ok (mem s) (dp s) (wrap8 input_val)
              Hwf Hdp Ha) as (d' & Es & Hwf' & Hg & Ho & _).
  exists d'. split; [|split; [exact Hg|split; [exact Ho|exact Hwf']]].
  rewrite E. cbn [dispatch]. rewrite Hin. cbn [mem dp]. rewrite Es.
  cbn [bind Z.eqb negb set_mem set_ip ip dp mem stdin stdout stderr].
  rewrite wrap_small by lia. reflexivity.
Qed.

Lemma dp_inc_exec (s : state) :
  0 <= ip s -> nth_error code (Z.to_nat (ip s)) = Some INST_DP_INC ->
  step s = Ok (mk_state (ip s + 1) (wrap (dp s + 1)) (mem s) (stdin s)
                        (stdout s) (stderr s)).
Proof.
  intros Hip Hx.
  destruct (exec_at _ opcode_decode realloc_ok beyond program s _ Hip Hx)
    as [Hlt ->].
  cbn [dispatch bind set_dp set_ip ip dp mem stdin stdout stderr].
  rewrite (wrap_small (ip s + 1)) by lia. reflexivity.
Qed.

Lemma wrap_inc_dec (v : Z) :
  0 <= v <= SIZE_MAX ->
  wrap (wrap (v + 1) - 1) = v /\ wrap (wrap (v - 1) + 1) = v.
Proof.
  rewrite SIZE_MAX_value. intros Hv. unfold wrap, SIZE_WIDTH. split.
  - destruct (Z.eq_dec v 18446744073709551615) as [->|Hne]; [reflexivity|].
    rewrite (Z.mod_small (v + 1)) by lia.
    replace (v + 1 - 1) with v by lia. apply Z.mod_small. lia.
  - destruct (Z.eq_dec v 0) as [->|Hne]; [reflexivity|].
    rewrite (Z.mod_small (v - 1)) by lia.
    replace (v - 1 + 1) with v by lia. apply Z.mod_small. lia.
Qed.

(** X18: [>] and [<] undo each other, in either order and at every value of
    the data pointer: [>] at [SIZE_MAX] wraps to 0 and [<] brings it
    back. *)
Theorem pointer_moves_cancel (s : state) (x y : instruction_t)
  (Hip : 0 <= ip s) (Hdp : 0 <= dp s <= SIZE_MAX)
  (Hfirst : nth_error code (Z.to_nat (ip s)) = Some x)
  (Hsecond : nth_error code (Z.to_nat (ip s + 1)) = Some y)
  (Hxy : (x = INST_DP_INC /\ y = INST_DP_DEC) \/
         (x = INST_DP_DEC /\ y = INST_DP_INC)) :
  exists s1,
    step s = Ok s1 /\
    dp s1 = wrap (if instruction_eqb x INST_DP_INC
                  then dp s + 1 else dp s - 1) /\
    step s1 = Ok (set_ip s (ip s + 2)).
Proof.
  destruct (wrap_inc_dec (dp s) Hdp) as [Hid Hdi].
  destruct Hxy as [[-> ->]|[-> ->]].
  - rewrite (dp_inc_exec s Hip Hfirst). eexists. split; [reflexivity|].
    cbn [dp instruction_eqb]. split; [reflexivity|].
    rewrite dp_dec_exec; [|exact program_fits|cbn [ip]; lia|exact Hsecond].
    cbn [ip dp mem stdin stdout stderr set_ip].
    rewrite Hid. unfold set_ip.
    replace (ip s + 1 + 1) with (ip s + 2) by lia. reflexivity.
  - rewrite (dp_dec_exec _ opcode_decode realloc_ok beyond program
               program_fits s Hip Hfirst).
    eexists. split; [reflexivity|].
    cbn [dp instruction_eqb]. split; [reflexivity|].
    rewrite dp_inc_exec; [|cbn [ip]; lia|exact Hsecond].
    cbn [ip dp mem stdin stdout stderr set_ip].
    rewrite Hdi. unfold set_ip.
    replace (ip s + 1 + 1) with (ip s + 2) by lia. reflexivity.
Qed.

End RunLoop.

Lemma out_of_memory_ends_run_witness :
  run Brainfuck.opcode_decode no_memory unmapped (text "+.") 5 (start [])
  = Returned 0 [] [Out_of_memory].
Proof.
  assert (Hfit : program_size (text "+.") < SIZE_MAX) by reflexivity.
  assert (Hip : 0 <= ip (start [])) by (simpl; lia).
  assert (Hinst : nth_error (decoded Brainfuck.opcode_decode (text "+."))
                    (Z.to_nat (ip (start []))) = Some INST_VAL_INC)
    by reflexivity.
  assert (Hx : INST_VAL_INC = INST_VAL_INC \/ INST_VAL_INC = INST_VAL_DEC \/
               (INST_VAL_INC = INST_VAL_ACCEPT /\ stdin (start []) <> []))
    by (left; reflexivity).
  assert (Hout : size (mem (start [])) <= dp (start [])) by (simpl; lia).
  assert (Hno : no_memory (wrap (dp (start []) + 1 + DATA_GRANULARITY))
                = false) by reflexivity.
  exact (out_of_memory_ends_run ascii Brainfuck.opcode_decode no_memory
           unmapped (text "+.") Hfit (start []) INST_VAL_INC 4%nat
           Hip Hinst Hx Hout Hno).
Defined.

Lemma exec_fault_cause_witness :
  exec Brainfuck.opcode_decode plenty unmapped (text "-[") (one_cell 1 0)
    = Fault BadFetch /\
  ((BadFetch = BadFetch /\
    nth_error (decoded Brainfuck.opcode_decode (text "-["))
      (Z.to_nat (ip (one_cell 1 0))) = Some INST_JMP_FORWARD /\
    data_get (mem (one_cell 1 0)) (dp (one_cell 1 0)) = Ok 0 /\
    match_forward Brainfuck.opcode_decode (text "-[") (ip (one_cell 1 0))
      = None /\
    @unmapped ascii (program_size (text "-[")) = None) \/
   (SIZE_MAX - DATA_GRANULARITY <= dp (one_cell 1 0) /\
    (nth_error (decoded Brainfuck.opcode_decode (text "-["))
       (Z.to_nat (ip (one_cell 1 0))) = Some INST_VAL_INC \/
     nth_error (decoded Brainfuck.opcode_decode (text "-["))
       (Z.to_nat (ip (one_cell 1 0))) = Some INST_VAL_DEC \/
     nth_error (decoded Brainfuck.opcode_decode (text "-["))
       (Z.to_nat (ip (one_cell 1 0))) = Some INST_VAL_ACCEPT))).
Proof.
  assert (Hfit : program_size (text "-[") < SIZE_MAX) by reflexivity.
  assert (Hok : state_ok (text "-[") (one_cell 1 0)).
  { split; [|split].
    - rewrite SIZE_MAX_value. simpl. lia.
    - rewrite SIZE_MAX_value. simpl. lia.
    - intros _. reflexivity. }
  assert (Hlt : ip (one_cell 1 0) < program_size (text "-["))
    by reflexivity.
  assert (Hfault : exec Brainfuck.opcode_decode plenty unmapped (text "-[")
                     (one_cell 1 0) = Fault BadFetch) by reflexivity.
  split; [exact Hfault|].
  exact (exec_fault_cause ascii Brainfuck.opcode_decode plenty unmapped
           (text "-[") Hfit (one_cell 1 0) BadFetch Hok Hlt Hfault).
Defined.

Lemma output_emits_cell_witness :
  exists val,
    data_get (mem (start [])) (dp (start [])) = Ok val /\
    (size (mem (start [])) <= dp (start []) -> val = 0) /\
    exec Brainfuck.opcode_decode plenty unmapped (text ".") (start [])
    = Ok (mk_state (ip (start []) + 1) (dp (start [])) (mem (start []))
            (stdin (start [])) (stdout (start []) ++ [val])
            (stderr (start []))).
Proof.
  assert (Hfit : program_size (text ".") < SIZE_MAX) by reflexivity.
  assert (Hip : 0 <= ip (start [])) by (simpl; lia).
  assert (Hinst : nth_error (decoded Brainfuck.opcode_decode (text "."))
                    (Z.to_nat (ip (start []))) = Some INST_VAL_OUTPUT)
    by reflexivity.
  assert (Hwf : wf_data (mem (start []))) by reflexivity.
  assert (Hdp : 0 <= dp (start [])) by (simpl; lia).
  exact (output_emits_cell ascii Brainfuck.opcode_decode plenty unmapped
           (text ".") Hfit (start []) Hip Hinst Hwf Hdp).
Defined.

Lemma accept_stores_input_witness :
  exists d',
    exec Brainfuck.opcode_decode plenty unmapped (text ",.") (start [300])
    = Ok (mk_state (ip (start [300]) + 1) (dp (start [300])) d' []
            (stdout (start [300])) (stderr (start [300]))) /\
    data_get d' (dp (start [300])) = Ok (300 mod 256) /\
    (forall i, 0 <= i -> i <> dp (start [300]) ->
       data_get d' i = data_get (mem (start [300])) i) /\
    wf_data d'.
Proof.
  assert (Hfit : program_size (text ",.") < SIZE_MAX) by reflexivity.
  assert (Hip : 0 <= ip (start [300])) by (simpl; lia).
  assert (Hinst : nth_error (decoded Brainfuck.opcode_decode (text ",."))
                    (Z.to_nat (ip (start [300]))) = Some INST_VAL_ACCEPT)
    by reflexivity.
  assert (Hin : stdin (start [300]) = [300]) by reflexivity.
  assert (Hwf : wf_data (mem (start [300]))) by reflexivity.
  assert (Hdp : 0 <= dp (start [300])) by (simpl; lia).
  assert (Ha : addressable plenty (mem (start [300])) (dp (start [300]))).
  { right. split; [vm_compute; discriminate|reflexivity]. }
  exact (accept_stores_input ascii Brainfuck.opcode_decode plenty unmapped
           (text ",.") Hfit (start [300]) 300 [] Hip Hinst Hin Hwf Hdp Ha).
Defined.

Lemma pointer_moves_cancel_witness :
  exists s1,
    exec Brainfuck.opcode_decode plenty unmapped (text "<>.") (start [])
      = Ok s1 /\
    dp s1 = wrap (if instruction_eqb INST_DP_DEC INST_DP_INC
                  then dp (start []) + 1 else dp (start []) - 1) /\
    exec Brainfuck.opcode_decode plenty unmapped (text "<>.") s1
      = Ok (set_ip (start []) (ip (start []) + 2)).
Proof.
  assert (Hfit : program_size (text "<>.") < SIZE_MAX) by reflexivity.
  assert (Hip : 0 <= ip (start [])) by (simpl; lia).
  assert (Hdp : 0 <= dp (start []) <= SIZE_MAX).
  { rewrite SIZE_MAX_value. simpl. lia. }
  assert (Hfirst : nth_error (decoded Brainfuck.opcode_decode (text "<>."))
                     (Z.to_nat (ip (start []))) = Some INST_DP_DEC)
    by reflexivity.
  assert (Hsecond : nth_error (decoded Brainfuck.opcode_decode (text "<>."))
                      (Z.to_nat (ip (start []) + 1)) = Some INST_DP_INC)
    by reflexivity.
  assert (Hxy : (INST_DP_DEC = INST_DP_INC /\ INST_DP_INC = INST_DP_DEC) \/
                (INST_DP_DEC = INST_DP_DEC /\ INST_DP_INC = INST_DP_INC))
    by (right; split; reflexivity).
  exact (pointer_moves_cancel ascii Brainfuck.opcode_decode plenty unmapped
           (text "<>.") Hfit (start []) INST_DP_DEC INST_DP_INC
           Hip Hdp Hfirst Hsecond Hxy).
Defined.

(** ** Programs whose opens all have a close *)

Section Closed.

Variable opcode_t : Type.
Variable opcode_decode : opcode_t -> instruction_t.
Variable realloc_ok : Z -> bool.
Variables beyond beyond' : Z -> option opcode_t.
Variable program : list opcode_t.

Local Abbreviation ps := (program_size program).
Local Abbreviation code := (decoded opcode_decode program).

Hypothesis program_fits : ps < SIZE_MAX.

Hypothesis all_opens_closed : all_closed opcode_decode program = true.

Lemma closed (i : Z) :
  0 <= i ->
  nth_error code (Z.to_nat i) = Some INST_JMP_FORWARD ->
  match_forward opcode_decode program i <> None.
Proof.
  intros Hi Hx.
  assert (Hlt : (Z.to_nat i < length program)%nat).
  { rewrite <- (length_map opcode_decode). apply nth_error_Some.
    unfold decoded in Hx. congruence. }
  unfold all_closed in all_opens_closed.
  rewrite forallb_forall in all_opens_closed.
  specialize (all_opens_closed (Z.to_nat i)).
  rewrite in_seq, Hx, Z2Nat.id in all_opens_closed by lia.
  destruct (match_forward opcode_decode program i); [discriminate|].
  specialize (all_opens_closed ltac:(lia)). discriminate.
Qed.

Lemma closed_exec (s : state) :
  0 <= ip s < ps ->
  exec opcode_decode realloc_ok beyond program s
  = exec opcode_decode realloc_ok beyond' program s.
Proof.
  intros Hip.
  destruct (instruction_at _ opcode_decode program s Hip) as [x Hx].
  destruct (exec_at _ opcode_decode realloc_ok beyond program s x
              ltac:(lia) Hx) as [_ E].
  destruct (exec_at _ opcode_decode realloc_ok beyond' program s x
              ltac:(lia) Hx) as [_ E'].
  destruct x; try (rewrite E, E'; reflexivity).
  - (* INST_JMP_FORWARD *)
    destruct (data_get (mem s) (dp s)) as [v|f|] eqn:Hv;
      try (rewrite E, E'; cbn [dispatch]; rewrite Hv; reflexivity).
    destruct (Z.eq_dec v 0) as [->|Hnz].
    + destruct (match_forward opcode_decode program (ip s))
        as [target|] eqn:Hm;
        [|now elim (closed (ip s) ltac:(lia) Hx)].
      destruct (jmp_forward_matched _ opcode_decode realloc_ok beyond
                  program program_fits s target ltac:(lia) Hx Hv Hm)
        as (_ & _ & ->).
      destruct (jmp_forward_matched _ opcode_decode realloc_ok beyond'
                  program program_fits s target ltac:(lia) Hx Hv Hm)
        as (_ & _ & ->).
      reflexivity.
    + rewrite !(jmp_forward_falls_through _ opcode_decode realloc_ok _
                  program program_fits s v ltac:(lia) Hx Hv Hnz).
      reflexivity.
  - (* INST_JMP_BACK *)
    destruct (data_get (mem s) (dp s)) as [v|f|] eqn:Hv;
      try (rewrite E, E'; cbn [dispatch]; rewrite Hv; reflexivity).
    destruct (Z.eq_dec v 0) as [->|Hnz].
    + rewrite !(jmp_back_falls_through _ opcode_decode realloc_ok _
                  program program_fits s ltac:(lia) Hx Hv).
      reflexivity.
    + destruct (match_back opcode_decode program (ip s))
        as [target|] eqn:Hm.
      * destruct (jmp_back_matched _ opcode_decode realloc_ok beyond
                    program program_fits s v target ltac:(lia) Hx Hv Hnz
                    Hm) as (_ & _ & ->).
        destruct (jmp_back_matched _ opcode_decode realloc_ok beyond'
                    program program_fits s v target ltac:(lia) Hx Hv Hnz
                    Hm) as (_ & _ & ->).
        reflexivity.
      * rewrite !(jmp_back_unmatched _ opcode_decode realloc_ok _
                    program program_fits s v ltac:(lia) Hx Hv Hnz Hm).
        reflexivity.
Qed.

(** X19: the run of a program whose opens all have a matching close does not
    depend on what lies in memory after the program: the read of the
    forward scan behind the program does not happen. *)
Theorem closed_program_ignores_beyond (fuel : nat) (s : state)
  (Hip : 0 <= ip s) :
  run opcode_decode realloc_ok beyond program fuel s
  = run opcode_decode realloc_ok beyond' program fuel s.
Proof.
  revert s Hip. induction fuel as [|fuel IH]; intros s Hip; cbn [run];
    [reflexivity|].
  destruct (Z.ltb_spec (ip s) ps); [|reflexivity].
  rewrite <- closed_exec by lia.
  destruct (exec opcode_decode realloc_ok beyond program s) as [s'| |] eqn:E;
    try reflexivity.
  apply IH.
  exact (exec_ip_range _ opcode_decode realloc_ok beyond program s s' E).
Qed.

End Closed.

Lemma closed_program_ignores_beyond_witness :
  (program_size (text "+[->+<]>.") < SIZE_MAX /\
   all_closed Brainfuck.opcode_decode (text "+[->+<]>.") = true /\
   0 <= ip (start [])) /\
  run Brainfuck.opcode_decode plenty unmapped (text "+[->+<]>.") 20
    (start [])
  = run Brainfuck.opcode_decode plenty zero_page (text "+[->+<]>.") 20
      (start []).
Proof.
  assert (H1 : program_size (text "+[->+<]>.") < SIZE_MAX) by reflexivity.
  assert (H2 : all_closed Brainfuck.opcode_decode (text "+[->+<]>.") = true)
    by reflexivity.
  assert (H3 : 0 <= ip (start [])) by (simpl; lia).
  split; [auto|].
  exact (closed_program_ignores_beyond ascii Brainfuck.opcode_decode plenty
           unmapped zero_page (text "+[->+<]>.") H1 H2 20%nat (start [])
           H3).
Defined.

(** ** What a run leaves on its streams *)

Section Streams.

Variable opcode_t : Type.
Variable opcode_decode : opcode_t -> instruction_t.
Variable realloc_ok : Z -> bool.
Variable beyond : Z -> option opcode_t.
Variable program : list opcode_t.

Local Abbreviation ps := (program_size program).
Local Abbreviation step := (exec opcode_decode realloc_ok beyond program).
Local Abbreviation go := (run opcode_decode realloc_ok beyond program).

Hypothesis program_fits : ps < SIZE_MAX.

(** A step writes at most one byte and at most one message, and a
    message only when it ends the run. *)
Lemma exec_streams (s s' : state) :
  step s = Ok s' ->
  (exists o, stdout s' = stdout s ++ o) /\
  (stderr s' = stderr s \/
   (stderr s' = stderr s ++ [Out_of_memory] /\ ps <= ip s')).
Proof.
  assert (Hps : 0 <= ps) by (unfold program_size; lia).
  assert (Hquiet : forall s1 : state,
            stdout s1 = stdout s -> stderr s1 = stderr s ->
            forall i,
            (exists o, stdout (set_ip s1 i) = stdout s ++ o) /\
            (stderr (set_ip s1 i) = stderr s \/
             (stderr (set_ip s1 i) = stderr s ++ [Out_of_memory] /\
              ps <= ip (set_ip s1 i)))).
  { intros s1 Ho He i. cbn [set_ip stdout stderr]. rewrite Ho, He.
    split; [exists []; now rewrite app_nil_r|now left]. }
  assert (Hoom : forall s1 : state,
            stdout s1 = stdout s -> stderr s1 = stderr s ->
            (exists o,
               stdout (set_ip (out_of_memory program s1)
                         (wrap (ip (out_of_memory program s1) + 1)))
               = stdout s ++ o) /\
            (stderr (set_ip (out_of_memory program s1)
                       (wrap (ip (out_of_memory program s1) + 1)))
             = stderr s \/
             (stderr (set_ip (out_of_memory program s1)
                        (wrap (ip (out_of_memory program s1) + 1)))
              = stderr s ++ [Out_of_memory] /\
              ps <= ip (set_ip (out_of_memory program s1)
                          (wrap (ip (out_of_memory program s1) + 1)))))).
  { intros s1 Ho He. cbn [set_ip out_of_memory ip stdout stderr].
    rewrite Ho, He, wrap_small by lia.
    split; [exists []; now rewrite app_nil_r|right; split; [auto|lia]]. }
  unfold exec.
  destruct (fetch beyond program (ip s)) as [opcode| |]; cbn [bind];
    try discriminate.
  destruct (opcode_decode opcode); cbn [dispatch].
  - cbn [bind]. intros [= <-]. now apply Hquiet.
  - cbn [bind]. intros [= <-]. now apply Hquiet.
  - destruct (data_inc _ _ _) as [[ret d]| |]; cbn [bind];
      try discriminate.
    destruct (negb (ret =? 0)); intros [= <-];
      [now apply Hoom|now apply Hquiet].
  - destruct (data_dec _ _ _) as [[ret d]| |]; cbn [bind];
      try discriminate.
    destruct (negb (ret =? 0)); intros [= <-];
      [now apply Hoom|now apply Hquiet].
  - destruct (data_get _ _) as [val| |]; cbn [bind]; try discriminate.
    intros [= <-]. cbn [set_ip stdout stderr].
    split; [now exists [val]|now left].
  - destruct (stdin s) as [|input_val rest].
    + cbn [bind]. intros [= <-]. now apply Hquiet.
    + cbn [mem dp].
      destruct (data_set _ _ _ _) as [[ret d]| |]; cbn [bind];
        try discriminate.
      destruct (negb (ret =? 0)); intros [= <-];
        [now apply Hoom|now apply Hquiet].
  - destruct (data_get _ _) as [val| |]; cbn [bind]; try discriminate.
    destruct (val =? 0).
    + destruct (jmp_forward_loop _ _ _ _ _ _); cbn [bind];
        try discriminate.
      intros [= <-]. now apply Hquiet.
    + cbn [bind]. intros [= <-]. now apply Hquiet.
  - destruct (data_get _ _) as [val| |]; cbn [bind]; try discriminate.
    destruct (negb (val =? 0)).
    + destruct (jmp_back_loop _ _ _ _ _ _); cbn [bind];
        try discriminate.
      intros [= <-]. now apply Hquiet.
    + cbn [bind]. intros [= <-]. now apply Hquiet.
  - cbn [bind]. intros [= <-]. now apply Hquiet.
Qed.

(** X20: however a run ends: [main] returns 0 and nothing else, also after
    running out of memory; what was written to [stdout] stays and is only
    added to; [Out of memory] is printed at most once, as the last act of
    a run, and never before a fault. *)
Theorem run_outcome_shape (fuel : nat) (s : state) :
  match go fuel s with
  | Returned code out err =>
      code = 0 /\ (exists o, out = stdout s ++ o) /\
      (err = stderr s \/ err = stderr s ++ [Out_of_memory])
  | Crashed f out err =>
      (exists o, out = stdout s ++ o) /\ err = stderr s
  | Unfinished => True
  end.
Proof.
  revert s. induction fuel as [|fuel IH]; intros s; cbn [run].
  - destruct (ip s <? ps); [exact I|].
    split; [reflexivity|]. split; [exists []; now rewrite app_nil_r|].
    now left.
  - destruct (Z.ltb_spec (ip s) ps).
    2:{ split; [reflexivity|].
        split; [exists []; now rewrite app_nil_r|now left]. }
    destruct (step s) as [s'|f|] eqn:E; [| |exact I].
    + destruct (exec_streams s s' E) as [[o Ho] Herr].
      destruct Herr as [He|[He Hend]].
      * specialize (IH s'). destruct (go fuel s') as [code out err|f out err|];
          [| |exact I].
        -- destruct IH as (Hc & [o' Ho'] & He').
           split; [exact Hc|]. split.
           ++ exists (o ++ o'). rewrite Ho', Ho. symmetry; apply app_assoc.
           ++ rewrite He in He'. exact He'.
        -- destruct IH as ([o' Ho'] & He').
           split.
           ++ exists (o ++ o'). rewrite Ho', Ho. symmetry; apply app_assoc.
           ++ congruence.
      * rewrite (run_finished _ opcode_decode realloc_ok beyond program
                   fuel s' Hend).
        split; [reflexivity|]. split; [eauto|now right].
    + split; [exists []; now rewrite app_nil_r|reflexivity].
Qed.

End Streams.

Lemma run_outcome_shape_witness :
  match
    run Brainfuck.opcode_decode no_memory unmapped (text ".+.") 5
      (start [])
  with
  | Returned code out err =>
      code = 0 /\ (exists o, out = stdout (start []) ++ o) /\
      (err = stderr (start []) \/
       err = stderr (start []) ++ [Out_of_memory])
  | Crashed f out err =>
      (exists o, out = stdout (start []) ++ o) /\ err = stderr (start [])
  | Unfinished => True
  end.
Proof.
  assert (Hfit : program_size (text ".+.") < SIZE_MAX) by reflexivity.
  exact (run_outcome_shape ascii Brainfuck.opcode_decode no_memory unmapped
           (text ".+.") Hfit 5%nat (start [])).
Defined.

(** ** Comment makes no difference *)

(** A finished run stays as it is when the step budget grows. *)
Lemma run_more
  (opcode_t : Type) (opcode_decode : opcode_t -> instruction_t)
  (realloc_ok : Z -> bool) (beyond : Z -> option opcode_t)
  (program : list opcode_t) (fuel : nat) :
  forall s,
  run opcode_decode realloc_ok beyond program fuel s <> Unfinished ->
  run opcode_decode realloc_ok beyond program (S fuel) s
  = run opcode_decode realloc_ok beyond program fuel s.
Proof.
  induction fuel as [|fuel IH]; intros s H.
  - cbn [run] in *. destruct (ip s <? program_size program);
      [now elim H|reflexivity].
  - cbn [run] in H. change (run opcode_decode realloc_ok beyond program
                              (S (S fuel)) s)
      with (if ip s <? program_size program
            then match exec opcode_decode realloc_ok beyond program s with
                 | Ok s' => run opcode_decode realloc_ok beyond program
                              (S fuel) s'
                 | Fault f => Crashed f (stdout s) (stderr s)
                 | OutOfFuel => Unfinished
                 end
            else Returned 0 (stdout s) (stderr s)).
    cbn [run].
    destruct (ip s <? program_size program); [|reflexivity].
    destruct (exec opcode_decode realloc_ok beyond program s) as [s'| |];
      try reflexivity.
    apply IH. exact H.
Qed.

Lemma run_more_add
  (opcode_t : Type) (opcode_decode : opcode_t -> instruction_t)
  (realloc_ok : Z -> bool) (beyond : Z -> option opcode_t)
  (program : list opcode_t) (fuel more : nat) (s : state) :
  run opcode_decode realloc_ok beyond program fuel s <> Unfinished ->
  run opcode_decode realloc_ok beyond program (more + fuel) s
  = run opcode_decode realloc_ok beyond program fuel s.
Proof.
  intros H. induction more as [|more IH]; [reflexivity|].
  cbn [Nat.add]. rewrite run_more; [exact IH|]. now rewrite IH.
Qed.

Lemma firstn_add {A : Type} (n k : nat) (l : list A) :
  firstn (n + k) l = firstn n l ++ firstn k (skipn n l).
Proof.
  revert l; induction n as [|n IH]; intros l; [reflexivity|].
  destruct l as [|x l]; [now rewrite !firstn_nil|].
  cbn [Nat.add firstn skipn app]. now rewrite IH.
Qed.

Lemma rev_split {A : Type} (l : list A) (k : nat) (x : A) :
  nth_error (rev l) k = Some x ->
  exists p q,
    l = p ++ x :: q /\ (length p + 1 + k = length l)%nat /\
    firstn k (rev l) = rev q.
Proof.
  intros H. destruct (nth_error_split _ _ H) as (l1 & l2 & Hr & Hk).
  exists (rev l2), (rev l1).
  assert (Hl : l = rev l2 ++ x :: rev l1).
  { rewrite <- (rev_involutive l), Hr, rev_app_distr. cbn [rev].
    now rewrite <- app_assoc. }
  split; [exact Hl|]. split.
  - apply (f_equal (@length A)) in Hr.
    rewrite length_rev, length_app in Hr. cbn [length] in Hr.
    rewrite length_rev. lia.
  - rewrite Hr, <- Hk, firstn_exact. symmetry. apply rev_involutive.
Qed.

(** The specification's scan passes over [INST_NOP]: on the list without
    them it stops at the same instruction. *)
Lemma balance_scan_filter (up down : instruction_t) :
  proper up = true -> proper down = true ->
  forall (l : list instruction_t) (b : nat), (0 < b)%nat ->
  balance_scan up down (filter proper l) b
  = option_map (fun k => length (filter proper (firstn k l)))
      (balance_scan up down l b).
Proof.
  intros Hup Hdown. induction l as [|x l IH]; intros b Hb; [reflexivity|].
  cbn [filter]. destruct (proper x) eqn:Hx.
  - cbn [balance_scan].
    destruct (if instruction_eqb x up then S b
              else if instruction_eqb x down then pred b else b)
      as [|b'] eqn:Eb.
    + reflexivity.
    + rewrite IH by lia.
      destruct (balance_scan up down l (S b')) as [k|]; [|reflexivity].
      cbn [option_map firstn filter]. rewrite Hx. reflexivity.
  - assert (x = INST_NOP) by (destruct x; now try discriminate). subst x.
    cbn [balance_scan].
    assert (Eu : instruction_eqb INST_NOP up = false)
      by (destruct up; now try discriminate).
    assert (Ed : instruction_eqb INST_NOP down = false)
      by (destruct down; now try discriminate).
    rewrite Eu, Ed. destruct b as [|b]; [lia|].
    rewrite IH by lia.
    destruct (balance_scan up down l (S b)) as [k|]; reflexivity.
Qed.

Lemma same_but_ip_eq (s s' : state) :
  same_but_ip s s' -> s' = set_ip s (ip s').
Proof.
  intros (Hdp & Hmem & Hin & Hout & Herr). destruct s, s'.
  unfold set_ip. cbn in *. subst. reflexivity.
Qed.

Lemma same_but_ip_set (s : state) (i j : Z) :
  same_but_ip (set_ip s i) (set_ip s j).
Proof. repeat split. Qed.

Section Strip.

Variables A B : Type.
Variable decode_a : A -> instruction_t.
Variable decode_b : B -> instruction_t.
Variable realloc_ok : Z -> bool.
Variable beyond_a : Z -> option A.
Variable beyond_b : Z -> option B.
Variable program_a : list A.
Variable program_b : list B.

Local Abbreviation psa := (program_size program_a).
Local Abbreviation psb := (program_size program_b).
Local Abbreviation ca := (decoded decode_a program_a).
Local Abbreviation cb := (decoded decode_b program_b).
Local Abbreviation kept := (kept_before (decoded decode_a program_a)).

(** [program_b] holds the instructions of [program_a] other than
    [INST_NOP], in the same order. *)
Hypothesis stripped : cb = filter proper ca.

Hypothesis program_fits : psa < SIZE_MAX.

Lemma psa_length : psa = Z.of_nat (length ca).
Proof. unfold program_size, decoded. now rewrite length_map. Qed.

Lemma psb_length : psb = Z.of_nat (length (filter proper ca)).
Proof.
  rewrite <- stripped. unfold program_size, decoded. now rewrite length_map.
Qed.

Lemma filter_split (n : nat) :
  filter proper ca
  = filter proper (firstn n ca) ++ filter proper (skipn n ca).
Proof. rewrite <- filter_app. now rewrite firstn_skipn. Qed.

Lemma kept_start : kept 0 = 0.
Proof. reflexivity. Qed.

Lemma kept_bounds (i : Z) : 0 <= kept i <= psb.
Proof.
  unfold kept_before. rewrite psb_length.
  rewrite (filter_split (Z.to_nat i)), length_app. lia.
Qed.

Lemma kept_end : kept psa = psb.
Proof.
  unfold kept_before. rewrite psb_length, psa_length.
  rewrite Nat2Z.id, firstn_all. reflexivity.
Qed.

Lemma psb_le_psa : psb <= psa.
Proof.
  rewrite psb_length, psa_length.
  pose proof (filter_length_le proper ca). lia.
Qed.

Lemma kept_nop (i : Z) :
  0 <= i -> nth_error ca (Z.to_nat i) = Some INST_NOP ->
  kept (i + 1) = kept i.
Proof.
  intros Hi Hx. unfold kept_before.
  replace (Z.to_nat (i + 1)) with (S (Z.to_nat i)) by lia.
  rewrite (firstn_snoc _ _ _ Hx), filter_app. cbn [filter proper
    instruction_eqb negb]. now rewrite app_nil_r.
Qed.

Lemma kept_proper (i : Z) (x : instruction_t) :
  0 <= i -> nth_error ca (Z.to_nat i) = Some x -> proper x = true ->
  kept (i + 1) = kept i + 1 /\
  nth_error cb (Z.to_nat (kept i)) = Some x /\
  kept i < psb.
Proof.
  intros Hi Hx Hp.
  assert (Hnext : kept (i + 1) = kept i + 1).
  { unfold kept_before.
    replace (Z.to_nat (i + 1)) with (S (Z.to_nat i)) by lia.
    rewrite (firstn_snoc _ _ _ Hx), filter_app. cbn [filter].
    rewrite Hp, length_app. cbn [length]. lia. }
  split; [exact Hnext|]. split.
  - rewrite stripped, (filter_split (Z.to_nat i)).
    rewrite (skipn_nth _ _ _ Hx). cbn [filter]. rewrite Hp.
    unfold kept_before. rewrite Nat2Z.id. apply nth_error_exact.
  - pose proof (kept_bounds (i + 1)). lia.
Qed.

Lemma cb_skipn (i : Z) :
  skipn (Z.to_nat (kept i)) cb = filter proper (skipn (Z.to_nat i) ca).
Proof.
  rewrite stripped. rewrite (filter_split (Z.to_nat i)) at 1.
  unfold kept_before. rewrite Nat2Z.id. apply skipn_exact.
Qed.

Lemma cb_firstn (i : Z) :
  firstn (Z.to_nat (kept i)) cb = filter proper (firstn (Z.to_nat i) ca).
Proof.
  rewrite stripped. rewrite (filter_split (Z.to_nat i)) at 1.
  unfold kept_before. rewrite Nat2Z.id. apply firstn_exact.
Qed.

Lemma kept_add (i : Z) (k : nat) :
  0 <= i ->
  kept (i + Z.of_nat k)
  = kept i
    + Z.of_nat (length (filter proper (firstn k (skipn (Z.to_nat i) ca)))).
Proof.
  intros Hi. unfold kept_before.
  replace (Z.to_nat (i + Z.of_nat k)) with (Z.to_nat i + k)%nat by lia.
  rewrite firstn_add, filter_app, length_app. lia.
Qed.

(** The forward scan of the stripped program finds the same close. *)
Lemma forward_strip (i : Z) :
  0 <= i -> nth_error ca (Z.to_nat i) = Some INST_JMP_FORWARD ->
  match_forward decode_b program_b (kept i)
  = option_map kept (match_forward decode_a program_a i).
Proof.
  intros Hi Hx.
  destruct (kept_proper i _ Hi Hx eq_refl) as (Hnext & _ & _).
  unfold match_forward. rewrite <- Hnext, cb_skipn.
  rewrite balance_scan_filter by (reflexivity || lia).
  destruct (balance_scan _ _ (skipn (Z.to_nat (i + 1)) ca) 1) as [k|];
    [|reflexivity].
  cbn [option_map]. f_equal. rewrite (kept_add (i + 1) k) by lia. lia.
Qed.

(** The backward scan of the stripped program finds the same open. *)
Lemma back_strip (i : Z) :
  0 <= i <= psa ->
  match_back decode_b program_b (kept i)
  = option_map kept (match_back decode_a program_a i).
Proof.
  intros Hi. unfold match_back.
  rewrite cb_firstn, <- filter_rev.
  rewrite balance_scan_filter by (reflexivity || lia).
  destruct (balance_scan _ _ (rev (firstn (Z.to_nat i) ca)) 1) as [k|] eqn:E;
    [|reflexivity].
  cbn [option_map]. f_equal.
  assert (Hud : INST_JMP_BACK <> INST_JMP_FORWARD) by discriminate.
  destruct (balance_scan_stops _ _ _ Hud 1%nat k ltac:(lia) E) as [Hk _].
  destruct (rev_split _ _ _ Hk) as (p & q & Hl & Hlen & Hq).
  rewrite length_firstn in Hlen. rewrite psa_length in Hi.
  assert (Hp : firstn (Z.to_nat (i - 1 - Z.of_nat k)) ca = p).
  { replace (Z.to_nat (i - 1 - Z.of_nat k)) with (length p) by lia.
    rewrite <- (firstn_skipn (Z.to_nat i) ca), Hl, <- app_assoc.
    apply firstn_exact. }
  unfold kept_before. rewrite Hp, Hq, Hl.
  rewrite filter_rev, length_rev, filter_app, length_app.
  cbn [filter proper instruction_eqb negb length]. lia.
Qed.

Local Abbreviation step_a :=
  (exec decode_a realloc_ok beyond_a program_a).
Local Abbreviation step_b :=
  (exec decode_b realloc_ok beyond_b program_b).
Local Abbreviation run_a :=
  (run decode_a realloc_ok beyond_a program_a).
Local Abbreviation run_b :=
  (run decode_b realloc_ok beyond_b program_b).

(** The reads just past the end of the two programs fault together. *)
Hypothesis same_mapping : beyond_a psa = None <-> beyond_b psb = None.

Lemma stripped_fits : psb < SIZE_MAX.
Proof. pose proof psb_le_psa. lia. Qed.

Lemma same_but_ip_moved (s s' : state) (i j : Z) :
  same_but_ip s s' -> same_but_ip (set_ip s i) (set_ip s' j).
Proof. intros H. exact H. Qed.

(** The instructions other than the jumps do the same to the state
    wherever they stand. *)
Lemma dispatch_shift (x : instruction_t) (s : state) (j : Z) :
  x <> INST_JMP_FORWARD -> x <> INST_JMP_BACK ->
  match dispatch decode_a realloc_ok beyond_a program_a x s with
  | Ok s1 =>
      exists s1',
        dispatch decode_b realloc_ok beyond_b program_b x (set_ip s j)
          = Ok s1' /\
        same_but_ip s1 s1' /\
        ((ip s1 = ip s /\ ip s1' = j) \/ (ip s1 = psa /\ ip s1' = psb))
  | Fault f =>
      dispatch decode_b realloc_ok beyond_b program_b x (set_ip s j)
        = Fault f
  | OutOfFuel =>
      dispatch decode_b realloc_ok beyond_b program_b x (set_ip s j)
        = OutOfFuel
  end.
Proof.
  intros HF HB. destruct x; try congruence; unfold dispatch, set_ip;
    cbn [ip dp mem stdin stdout stderr].
  - eexists. split; [reflexivity|]. split; [repeat split|]. left. now split.
  - eexists. split; [reflexivity|]. split; [repeat split|]. left. now split.
  - destruct (data_inc realloc_ok (mem s) (dp s)) as [[ret d]|f|];
      cbn [bind]; [|reflexivity|reflexivity].
    eexists. split; [reflexivity|].
    destruct (negb (ret =? 0)); (split; [repeat split|]);
      [right|left]; now split.
  - destruct (data_dec realloc_ok (mem s) (dp s)) as [[ret d]|f|];
      cbn [bind]; [|reflexivity|reflexivity].
    eexists. split; [reflexivity|].
    destruct (negb (ret =? 0)); (split; [repeat split|]);
      [right|left]; now split.
  - destruct (data_get (mem s) (dp s)) as [v|f|];
      cbn [bind]; [|reflexivity|reflexivity].
    eexists. split; [reflexivity|]. split; [repeat split|]. left. now split.
  - destruct (stdin s) as [|input_val rest].
    + eexists. split; [reflexivity|]. split; [repeat split|]. right.
      now split.
    + cbn [ip dp mem stdin stdout stderr].
      destruct (data_set realloc_ok (mem s) (dp s) (wrap8 input_val))
        as [[ret d]|f|]; cbn [bind]; [|reflexivity|reflexivity].
      eexists. split; [reflexivity|].
      destruct (negb (ret =? 0)); (split; [repeat split|]);
        [right|left]; now split.
  - eexists. split; [reflexivity|]. split; [repeat split|]. left. now split.
Qed.

(** One instruction other than [INST_NOP], in the two programs. *)
Lemma strip_step (s s' : state) (x : instruction_t) :
  stripped_state ca s s' -> ip s < psa ->
  nth_error ca (Z.to_nat (ip s)) = Some x -> proper x = true ->
  ip s' < psb /\
  match step_a s with
  | Ok t => exists t', step_b s' = Ok t' /\ stripped_state ca t t'
  | Fault f => step_b s' = Fault f
  | OutOfFuel => False
  end.
Proof.
  intros (Hsame & H0 & Hat) Hlt Hx Hp.
  pose proof psa_length as Hla. pose proof psb_length as Hlb.
  pose proof psb_le_psa as Hba. pose proof stripped_fits as Hfb.
  destruct Hat as [[_ Hip]|[Hgt _]]; [|lia].
  destruct (kept_proper (ip s) x H0 Hx Hp) as (Hnext & Hxb & Hjlt).
  pose proof (kept_bounds (ip s)) as Hj.
  assert (Hs' : s' = set_ip s (kept (ip s))).
  { rewrite <- Hip. now apply same_but_ip_eq. }
  subst s'. clear Hip Hsame. split; [exact Hjlt|].
  pose proof (exec_in_budget _ decode_a realloc_ok beyond_a program_a
                program_fits s (conj H0 Hlt)) as Hbudget.
  assert (Hwa : wrap (ip s + 1) = ip s + 1) by (apply wrap_small; lia).
  assert (Hwb : wrap (kept (ip s) + 1) = kept (ip s) + 1)
    by (apply wrap_small; lia).
  assert (Hwea : wrap (psa + 1) = psa + 1) by (apply wrap_small; lia).
  assert (Hweb : wrap (psb + 1) = psb + 1) by (apply wrap_small; lia).
  assert (Hnear : forall t t' : state, same_but_ip t t' ->
            ip t = ip s + 1 -> ip t' = kept (ip s) + 1 ->
            stripped_state ca t t').
  { intros t t' Hs Ht Ht'. split; [exact Hs|]. split; [lia|]. left.
    rewrite Ht, Ht'. split; [lia|]. now symmetry. }
  assert (Hfar : forall t t' : state, same_but_ip t t' ->
            ip t = psa + 1 -> ip t' = psb + 1 ->
            stripped_state ca t t').
  { intros t t' Hs Ht Ht'. split; [exact Hs|]. split; [lia|]. right.
    lia. }
  assert (Hjump : forall target y,
            0 <= target < psa ->
            nth_error ca (Z.to_nat target) = Some y -> proper y = true ->
            stripped_state ca (set_ip s (target + 1))
              (set_ip (set_ip s (kept (ip s))) (kept target + 1))).
  { intros target y Ht Hy Hpy.
    destruct (kept_proper target y ltac:(lia) Hy Hpy) as (Hn & _ & _).
    split; [repeat split|]. cbn [set_ip ip]. split; [lia|]. left.
    split; [lia|]. now symmetry. }
  destruct (exec_at _ decode_a realloc_ok beyond_a program_a s x H0 Hx)
    as [_ Ea].
  destruct (exec_at _ decode_b realloc_ok beyond_b program_b
              (set_ip s (kept (ip s))) x (proj1 Hj) Hxb) as [_ Eb].
  destruct (instruction_eqb x INST_JMP_FORWARD) eqn:EF;
    [apply instruction_eqb_eq in EF; subst x|].
  { destruct (data_get (mem s) (dp s)) as [v|f|] eqn:Hv.
    - destruct (Z.eq_dec v 0) as [->|Hnz].
      + pose proof (forward_strip (ip s) H0 Hx) as Hf.
        destruct (match_forward decode_a program_a (ip s)) as [t|] eqn:Hm.
        * destruct (jmp_forward_matched _ decode_a realloc_ok beyond_a
                      program_a program_fits s t H0 Hx Hv Hm)
            as (Hrange & Hclose & E).
          destruct (jmp_forward_matched _ decode_b realloc_ok beyond_b
                      program_b stripped_fits (set_ip s (kept (ip s)))
                      (kept t) (proj1 Hj) Hxb Hv Hf) as (_ & _ & E').
          rewrite E. eexists. split; [exact E'|].
          apply (Hjump t INST_JMP_BACK); [lia|exact Hclose|reflexivity].
        * pose proof (jmp_forward_unmatched _ decode_a realloc_ok beyond_a
                        program_a program_fits s H0 Hx Hv Hm) as E.
          pose proof (jmp_forward_unmatched _ decode_b realloc_ok beyond_b
                        program_b stripped_fits (set_ip s (kept (ip s)))
                        (proj1 Hj) Hxb Hv Hf) as E'.
          rewrite E.
          destruct (beyond_a psa) as [oa|] eqn:Ha,
                   (beyond_b psb) as [ob|] eqn:Hb.
          -- eexists. split; [exact E'|]. apply Hfar; [repeat split| |];
               reflexivity.
          -- destruct same_mapping as [_ Hm']. now specialize (Hm' eq_refl).
          -- destruct same_mapping as [Hm' _]. now specialize (Hm' eq_refl).
          -- exact E'.
      + rewrite (jmp_forward_falls_through _ decode_a realloc_ok beyond_a
                   program_a program_fits s v H0 Hx Hv Hnz).
        eexists. split.
        * apply (jmp_forward_falls_through _ decode_b realloc_ok beyond_b
                   program_b stripped_fits (set_ip s (kept (ip s))) v
                   (proj1 Hj) Hxb Hv Hnz).
        * apply Hnear; [repeat split| |]; reflexivity.
    - rewrite Ea, Eb. unfold dispatch, set_ip.
      cbn [ip dp mem stdin stdout stderr]. rewrite Hv. reflexivity.
    - exfalso. apply Hbudget. rewrite Ea. unfold dispatch. rewrite Hv. reflexivity. }
  destruct (instruction_eqb x INST_JMP_BACK) eqn:EB;
    [apply instruction_eqb_eq in EB; subst x|].
  { destruct (data_get (mem s) (dp s)) as [v|f|] eqn:Hv.
    - destruct (Z.eq_dec v 0) as [->|Hnz].
      + rewrite (jmp_back_falls_through _ decode_a realloc_ok beyond_a
                   program_a program_fits s H0 Hx Hv).
        eexists. split.
        * apply (jmp_back_falls_through _ decode_b realloc_ok beyond_b
                   program_b stripped_fits (set_ip s (kept (ip s)))
                   (proj1 Hj) Hxb Hv).
        * apply Hnear; [repeat split| |]; reflexivity.
      + pose proof (back_strip (ip s) ltac:(lia)) as Hf.
        destruct (match_back decode_a program_a (ip s)) as [t|] eqn:Hm.
        * destruct (jmp_back_matched _ decode_a realloc_ok beyond_a
                      program_a program_fits s v t H0 Hx Hv Hnz Hm)
            as (Hrange & Hopen & E).
          destruct (jmp_back_matched _ decode_b realloc_ok beyond_b
                      program_b stripped_fits (set_ip s (kept (ip s)))
                      v (kept t) (proj1 Hj) Hxb Hv Hnz Hf) as (_ & _ & E').
          rewrite E. eexists. split; [exact E'|].
          apply (Hjump t INST_JMP_FORWARD); [lia|exact Hopen|reflexivity].
        * rewrite (jmp_back_unmatched _ decode_a realloc_ok beyond_a
                     program_a program_fits s v H0 Hx Hv Hnz Hm).
          eexists. split.
          -- apply (jmp_back_unmatched _ decode_b realloc_ok beyond_b
                      program_b stripped_fits (set_ip s (kept (ip s)))
                      v (proj1 Hj) Hxb Hv Hnz Hf).
          -- apply Hfar; [repeat split| |]; reflexivity.
    - rewrite Ea, Eb. unfold dispatch, set_ip.
      cbn [ip dp mem stdin stdout stderr]. rewrite Hv. reflexivity.
    - exfalso. apply Hbudget. rewrite Ea. unfold dispatch. rewrite Hv. reflexivity. }
  assert (HF : x <> INST_JMP_FORWARD) by (intros ->; discriminate).
  assert (HB : x <> INST_JMP_BACK) by (intros ->; discriminate).
  pose proof (dispatch_shift x s (kept (ip s)) HF HB) as D.
  rewrite Ea in Hbudget |- *. rewrite Eb.
  destruct (dispatch decode_a realloc_ok beyond_a program_a x s)
    as [s1|f|].
  - destruct D as (s1' & Db & Hsm & Hips). rewrite Db. cbn [bind].
    eexists. split; [reflexivity|].
    destruct Hips as [[Hi Hi']|[Hi Hi']].
    + apply Hnear; [now apply same_but_ip_moved|cbn [set_ip ip]..].
      * now rewrite Hi.
      * now rewrite Hi'.
    + apply Hfar; [now apply same_but_ip_moved|cbn [set_ip ip]..].
      * now rewrite Hi.
      * now rewrite Hi'.
  - rewrite D. reflexivity.
  - exfalso. apply Hbudget. reflexivity.
Qed.

(** An [INST_NOP] moves [ip] and nothing else. *)
Lemma nop_step (s s' : state) :
  stripped_state ca s s' -> ip s < psa ->
  nth_error ca (Z.to_nat (ip s)) = Some INST_NOP ->
  step_a s = Ok (set_ip s (ip s + 1)) /\
  stripped_state ca (set_ip s (ip s + 1)) s'.
Proof.
  intros (Hsame & H0 & Hat) Hlt Hx. pose proof psa_length as Hla.
  destruct Hat as [[_ Hip]|[Hgt _]]; [|lia].
  destruct (exec_at _ decode_a realloc_ok beyond_a program_a s _ H0 Hx)
    as [_ Ea].
  split.
  - rewrite Ea. cbn [dispatch bind]. f_equal. f_equal.
    apply wrap_small. lia.
  - split; [exact Hsame|]. cbn [set_ip ip]. split; [lia|]. left.
    split; [lia|]. rewrite Hip. symmetry. now apply kept_nop.
Qed.

Lemma instruction_inside (i : Z) :
  0 <= i < psa -> exists x, nth_error ca (Z.to_nat i) = Some x.
Proof.
  intros Hi. rewrite psa_length in Hi.
  destruct (nth_error ca (Z.to_nat i)) as [x|] eqn:E; [now exists x|].
  apply nth_error_None in E. lia.
Qed.

Lemma stripped_end (s s' : state) :
  stripped_state ca s s' -> psa <= ip s -> psb <= ip s'.
Proof.
  intros (_ & _ & Hat) Hge. pose proof psa_length. pose proof psb_length.
  destruct Hat as [[Hle Hip]|[_ Hgt]]; [|lia].
  assert (ip s = psa) as E by lia. rewrite Hip, E, kept_end. lia.
Qed.

(** Every finished run of [program_a] is a run of [program_b], within the
    same number of steps. *)
Lemma strip_sound (fuel : nat) :
  forall s s', stripped_state ca s s' ->
  run_a fuel s <> Unfinished -> run_b fuel s' = run_a fuel s.
Proof.
  induction fuel as [|fuel IH]; intros s s' HR Hfin.
  - destruct (Z_lt_le_dec (ip s) psa) as [Hlt|Hge].
    + exfalso. apply Hfin. cbn [run].
      destruct (Z.ltb_spec (ip s) psa); [reflexivity|lia].
    + rewrite (run_finished _ decode_a realloc_ok beyond_a program_a 0 s Hge).
      rewrite (run_finished _ decode_b realloc_ok beyond_b program_b 0 s'
                 (stripped_end _ _ HR Hge)).
      destruct HR as ((_ & _ & _ & Hout & Herr) & _). now rewrite Hout, Herr.
  - destruct (Z_lt_le_dec (ip s) psa) as [Hlt|Hge].
    + destruct (instruction_inside (ip s)) as [x Hx];
        [destruct HR as (_ & H0 & _); lia|].
      destruct (proper x) eqn:Hp.
      * destruct (strip_step s s' x HR Hlt Hx Hp) as [Hlt' Hstep].
        destruct (step_a s) as [t|f|] eqn:Ea; [| |contradiction].
        -- destruct Hstep as (t' & Eb & HR').
           rewrite (run_step _ decode_a realloc_ok beyond_a program_a
                      fuel s t Hlt Ea) in Hfin |- *.
           rewrite (run_step _ decode_b realloc_ok beyond_b program_b
                      fuel s' t' Hlt' Eb).
           now apply IH.
        -- rewrite (run_fault _ decode_a realloc_ok beyond_a program_a
                      fuel s f Hlt Ea).
           rewrite (run_fault _ decode_b realloc_ok beyond_b program_b
                      fuel s' f Hlt' Hstep).
           destruct HR as ((_ & _ & _ & Hout & Herr) & _).
           now rewrite Hout, Herr.
      * assert (x = INST_NOP) as -> by (destruct x; now try discriminate).
        destruct (nop_step s s' HR Hlt Hx) as [Ea HR'].
        rewrite (run_step _ decode_a realloc_ok beyond_a program_a
                   fuel s _ Hlt Ea) in Hfin |- *.
        rewrite <- (IH _ _ HR' Hfin). apply run_more.
        now rewrite (IH _ _ HR' Hfin).
    + rewrite (run_finished _ decode_a realloc_ok beyond_a program_a _ s Hge).
      rewrite (run_finished _ decode_b realloc_ok beyond_b program_b _ s'
                 (stripped_end _ _ HR Hge)).
      destruct HR as ((_ & _ & _ & Hout & Herr) & _). now rewrite Hout, Herr.
Qed.

(** From any state, [program_a] passes its [INST_NOP] in finitely many
    steps. *)
Lemma skip_nops (n : nat) :
  forall s s', stripped_state ca s s' -> (Z.to_nat (psa - ip s) <= n)%nat ->
  exists (k : nat) (s1 : state),
    (forall m, run_a (k + m) s = run_a m s1) /\
    stripped_state ca s1 s' /\
    (psa <= ip s1 \/
     ip s1 < psa /\
     exists x, nth_error ca (Z.to_nat (ip s1)) = Some x /\ proper x = true).
Proof.
  induction n as [|n IH]; intros s s' HR Hn.
  - exists 0%nat, s. split; [reflexivity|]. split; [exact HR|]. left. lia.
  - destruct (Z_lt_le_dec (ip s) psa) as [Hlt|Hge].
    + destruct (instruction_inside (ip s)) as [x Hx];
        [destruct HR as (_ & H0 & _); lia|].
      destruct (proper x) eqn:Hp.
      * exists 0%nat, s. split; [reflexivity|]. split; [exact HR|]. right.
        split; [exact Hlt|]. now exists x.
      * assert (x = INST_NOP) as -> by (destruct x; now try discriminate).
        destruct (nop_step s s' HR Hlt Hx) as [Ea HR'].
        destruct (IH _ _ HR') as (k & s1 & Hrun & HR1 & Hat);
          [cbn [set_ip ip]; lia|].
        exists (S k), s1. split; [|now split].
        intros m. cbn [Nat.add].
        rewrite (run_step _ decode_a realloc_ok beyond_a program_a
                   (k + m) s _ Hlt Ea). apply Hrun.
    + exists 0%nat, s. split; [reflexivity|]. split; [exact HR|]. now left.
Qed.

(** Every finished run of [program_b] is a run of [program_a]. *)
Lemma strip_complete (fuel : nat) :
  forall s s', stripped_state ca s s' ->
  run_b fuel s' <> Unfinished ->
  exists fuel_a, run_a fuel_a s = run_b fuel s'.
Proof.
  induction fuel as [|fuel IH]; intros s s' HR Hfin;
    destruct (skip_nops _ s s' HR (le_n _)) as (k & s1 & Hrun & HR1 & Hat).
  - destruct Hat as [Hge|(Hlt & x & Hx & Hp)].
    + exists (k + 0)%nat. rewrite Hrun.
      rewrite (run_finished _ decode_a realloc_ok beyond_a program_a 0 s1
                 Hge).
      rewrite (run_finished _ decode_b realloc_ok beyond_b program_b 0 s'
                 (stripped_end _ _ HR1 Hge)).
      destruct HR1 as ((_ & _ & _ & Hout & Herr) & _).
      now rewrite Hout, Herr.
    + destruct (strip_step s1 s' x HR1 Hlt Hx Hp) as [Hlt' _].
      exfalso. apply Hfin. cbn [run].
      destruct (Z.ltb_spec (ip s') psb); [reflexivity|lia].
  - destruct Hat as [Hge|(Hlt & x & Hx & Hp)].
    + exists (k + 0)%nat. rewrite Hrun.
      rewrite (run_finished _ decode_a realloc_ok beyond_a program_a 0 s1
                 Hge).
      rewrite (run_finished _ decode_b realloc_ok beyond_b program_b _ s'
                 (stripped_end _ _ HR1 Hge)).
      destruct HR1 as ((_ & _ & _ & Hout & Herr) & _).
      now rewrite Hout, Herr.
    + destruct (strip_step s1 s' x HR1 Hlt Hx Hp) as [Hlt' Hstep].
      destruct (step_a s1) as [t|f|] eqn:Ea; [| |contradiction].
      * destruct Hstep as (t' & Eb & HR').
        rewrite (run_step _ decode_b realloc_ok beyond_b program_b
                   fuel s' t' Hlt' Eb) in Hfin |- *.
        destruct (IH _ _ HR' Hfin) as (fa & Hfa).
        exists (k + S fa)%nat. rewrite Hrun.
        now rewrite (run_step _ decode_a realloc_ok beyond_a program_a
                       fa s1 t Hlt Ea).
      * exists (k + 1)%nat. rewrite Hrun.
        rewrite (run_fault _ decode_a realloc_ok beyond_a program_a
                   0 s1 f Hlt Ea).
        rewrite (run_fault _ decode_b realloc_ok beyond_b program_b
                   fuel s' f Hlt' Hstep).
        destruct HR1 as ((_ & _ & _ & Hout & Herr) & _).
        now rewrite Hout, Herr.
Qed.

Lemma stripped_start (input : list Z) :
  stripped_state ca (start input) (start input).
Proof.
  split; [repeat split|]. cbn [start ip]. split; [lia|]. left.
  split; [lia|reflexivity].
Qed.

(** The two programs have the same finished runs. *)
Lemma strip_interpret (input : list Z) :
  (forall fuel,
     interpret decode_a realloc_ok beyond_a program_a fuel input
       <> Unfinished ->
     interpret decode_b realloc_ok beyond_b program_b fuel input
     = interpret decode_a realloc_ok beyond_a program_a fuel input) /\
  (forall fuel,
     interpret decode_b realloc_ok beyond_b program_b fuel input
       <> Unfinished ->
     exists fuel_a,
       interpret decode_a realloc_ok beyond_a program_a fuel_a input
       = interpret decode_b realloc_ok beyond_b program_b fuel input).
Proof.
  split; intros fuel H.
  - apply strip_sound; [apply stripped_start|exact H].
  - apply strip_complete; [apply stripped_start|exact H].
Qed.

End Strip.

Lemma filter_proper_map {A : Type} (decode : A -> instruction_t)
  (l : list A) :
  map decode (filter (fun x => proper (decode x)) l)
  = filter proper (map decode l).
Proof.
  induction l as [|x l IH]; [reflexivity|].
  cbn [map filter]. destruct (proper (decode x)); cbn [map]; now rewrite IH.
Qed.

Lemma ig_load_unit_bytes (units : list ichiglyph_opcode_t) :
  Ichiglyph.load (flat_map unit_bytes units) = units.
Proof.
  induction units as [|[a b] units IH]; [reflexivity|].
  cbn [flat_map unit_bytes fst snd app Ichiglyph.load]. now rewrite IH.
Qed.








